(** * libdivecomputer: memory protocols, ring buffer extraction, record decoding

    A shallow embedding of three translation units of libdivecomputer:

    - [uwatec_memomouse_parser.c], the record decoder ([Module Memomouse]);
    - [suunto_common2.c], the download core shared by the Suunto D9 family:
      one ring buffer of dives linked by trailer pointers ([Module Suunto],
      "Family B" of the specification);
    - [oceanic_atom2.c], the Oceanic Atom 2 download: a logbook ring buffer
      that indexes a profile ring buffer ([Module Atom2], "Family A").

    Conventions.  A C [unsigned int] is a [Z] in [0, 2^32) and every
    operation that can leave that range is wrapped with [u32].  A byte is a
    [Z] in [0, 256) (a [Byte.byte] in the parser).  A byte array that the
    code indexes relative to a base pointer is a [buffer], a map from the
    index to the byte stored there.  The serial line behind a driver is an
    abstract state threaded through every call.  A user callback is a
    function on the user's own state.  Progress and device-info events do
    not influence control flow or results and are left out. *)

From Stdlib Require Import ZArith List Lia Bool Floats Uint63.
From Stdlib Require Import Strings.Byte.
From Equations Require Import Equations.
Import ListNotations.
Local Open Scope Z_scope.

(** ** Machine integers and byte arrays *)

Definition u32 (x : Z) : Z := x mod 2 ^ 32.

Definition u8 (x : Z) : Z := x mod 2 ^ 8.

Definition buffer : Type := Z -> Z.

(** [unsigned char a[n] = {0}] *)
Definition zeroed : buffer := fun _ => 0.

(** [memcpy (dst + at_, src, n)]: the bytes of [src] missing from the list
    read as 0, which is how every source array of the drivers is
    initialised. *)
Definition memcpy (dst : buffer) (at_ : Z) (src : list Z) (n : Z) : buffer :=
  fun i =>
    if (at_ <=? i) && (i <? at_ + n) then nth (Z.to_nat (i - at_)) src 0
    else dst i.

(** The [n] bytes at [b + off]. *)
Definition slice (b : buffer) (off : Z) (n : Z) : list Z :=
  map (fun k => b (off + Z.of_nat k)) (seq 0 (Z.to_nat n)).

(** [memcmp (a, b, n) == 0] for two [n]-byte regions given by their bytes. *)
Fixpoint bytes_eqb (a b : list Z) : bool :=
  match a, b with
  | [], [] => true
  | x :: a', y :: b' => (x =? y) && bytes_eqb a' b'
  | _, _ => false
  end.

(** Modelled from the spec: [array.h] is not among the sources; the header
    fields are "16-bit little-endian". *)
Definition array_uint16_le (b : buffer) (off : Z) : Z :=
  b off + Z.shiftl (b (off + 1)) 8.

(** Modelled from the spec: [ringbuffer.h] is not among the sources.
    "returns [b - a] if [b >= a], else [(end - begin) - (a - b)]; when
    [a == b] and [wrap_full] is true, returns [end - begin]; when false,
    returns 0."  The C argument order is [(a, b, mode, begin, end)]. *)
Definition ringbuffer_distance (a b : Z) (mode : bool) (rb_begin rb_end : Z) : Z :=
  if a =? b then (if mode then rb_end - rb_begin else 0)
  else if a <? b then b - a
  else (rb_end - rb_begin) - (a - b).

(** The status codes of [dc_status_t] named by the sources, and the I/O
    error of the specification's taxonomy, which a backend may return. *)
Inductive dc_status_t : Type :=
  | DC_STATUS_SUCCESS
  | DC_STATUS_UNSUPPORTED
  | DC_STATUS_INVALIDARGS
  | DC_STATUS_NOMEMORY
  | DC_STATUS_IO
  | DC_STATUS_TIMEOUT
  | DC_STATUS_PROTOCOL
  | DC_STATUS_DATAFORMAT.

Definition dc_status_eqb (a b : dc_status_t) : bool :=
  match a, b with
  | DC_STATUS_SUCCESS, DC_STATUS_SUCCESS
  | DC_STATUS_UNSUPPORTED, DC_STATUS_UNSUPPORTED
  | DC_STATUS_INVALIDARGS, DC_STATUS_INVALIDARGS
  | DC_STATUS_NOMEMORY, DC_STATUS_NOMEMORY
  | DC_STATUS_IO, DC_STATUS_IO
  | DC_STATUS_TIMEOUT, DC_STATUS_TIMEOUT
  | DC_STATUS_PROTOCOL, DC_STATUS_PROTOCOL
  | DC_STATUS_DATAFORMAT, DC_STATUS_DATAFORMAT => true
  | _, _ => false
  end.

(** ** The Uwatec Memomouse record parser *)

Module Memomouse.

Inductive parser_field_type_t : Type :=
  | FIELD_TYPE_DIVETIME
  | FIELD_TYPE_MAXDEPTH
  | FIELD_TYPE_GASMIX_COUNT
  | FIELD_TYPE_GASMIX
  | FIELD_TYPE_OTHER.   (* any enumerator the switch sends to [default] *)

Record gasmix_t : Type := { helium : float; oxygen : float; nitrogen : float }.

(** What [*value] holds after the call, by the type the caller asked for. *)
Inductive field_value : Type :=
  | value_uint (n : Z)
  | value_double (d : float)
  | value_gasmix (g : gasmix_t).

Definition byte_at (data : list byte) (i : nat) : Z :=
  Z.of_N (Byte.to_N (nth i data x00)).

(** An integer operand converted to [double]; exact below 2^53. *)
Definition double_of (z : Z) : float := PrimFloat.of_uint63 (Uint63.of_Z z).

(** The literal [0.21]: the binary64 value nearest to 21/100. *)
Definition double_0_21 : float := 0x1.ae147ae147ae1p-3%float.

(** Modelled from the spec: [utils.h] is not among the sources.
    "[bcd_decode(byte)] is [(byte >> 4) * 10 + (byte & 0x0F)]". *)
Definition bcd2dec (b : Z) : Z := Z.shiftr b 4 * 10 + Z.land b 0x0F.

(** Modelled from the spec: [array.h] is not among the sources; "[be16]". *)
Definition array_uint16_be (data : list byte) (off : nat) : Z :=
  Z.shiftl (byte_at data off) 8 + byte_at data (off + 1).

Definition is_nitrox (model : Z) : bool := Z.land model 0xF0 =? 0xF0.
Definition is_oxygen (model : Z) : bool := Z.land model 0xF0 =? 0xA0.

Definition header_size (model : Z) : Z :=
  22 + (if is_nitrox model then 2 else 0) + (if is_oxygen model then 3 else 0).

(** The oxygen fraction stored by the [FIELD_TYPE_GASMIX] case. *)
Definition gasmix_oxygen (data : list byte) : float :=
  let size := Z.of_nat (length data) in
  let model := byte_at data 3 in
  let nibble := Z.land (byte_at data (18 + 23)) 0x0F in
  if header_size model + 18 <=? size then
    if is_oxygen model then (double_of (byte_at data (18 + 23)) / 100)%float
    else if is_nitrox model then
      ((if negb (Z.eqb nibble 0) then 20 + double_of (Z.mul 2 nibble) else 21) / 100)%float
    else double_0_21
  else double_0_21.

(** [value] tells whether the caller's [value] pointer is non-null; the
    second component is what the call stored through it. *)
Definition uwatec_memomouse_parser_get_field
    (data : list byte) (type : parser_field_type_t) (value : bool)
  : dc_status_t * option field_value :=
  let size := Z.of_nat (length data) in
  if size <? 18 then (DC_STATUS_DATAFORMAT, None)
  else if value then
    match type with
    | FIELD_TYPE_DIVETIME =>
        (DC_STATUS_SUCCESS,
         Some (value_uint
                 (u32 (((if negb (Z.land (byte_at data 4) 0x04 =? 0) then 100 else 0)
                        + bcd2dec (byte_at data 5)) * 60))))
    | FIELD_TYPE_MAXDEPTH =>
        (DC_STATUS_SUCCESS,
         let depth := Z.shiftr (Z.land (array_uint16_be data 6) 0xFFC0) 6 in
         Some (value_double (double_of depth * 10 / 64)%float))
    | FIELD_TYPE_GASMIX_COUNT => (DC_STATUS_SUCCESS, Some (value_uint 1))
    | FIELD_TYPE_GASMIX =>
        let he := 0%float in
        let o2 := gasmix_oxygen data in
        (DC_STATUS_SUCCESS,
         Some (value_gasmix
                 {| helium := he; oxygen := o2; nitrogen := (1 - o2 - he)%float |}))
    | FIELD_TYPE_OTHER => (DC_STATUS_UNSUPPORTED, None)
    end
  else (DC_STATUS_SUCCESS, None).

(** *** The sample stream of [uwatec_memomouse_parser_samples_foreach] *)

(** The parser object: the backend and the data of [parser_t], and the two
    fields of [uwatec_memomouse_parser_t].  [abstract->size] is the length
    of [parser_data]. *)
Inductive parser_backend_t : Type :=
  | uwatec_memomouse_parser_backend
  | other_parser_backend.

Record parser_t : Type := {
  backend : parser_backend_t;
  parser_data : list byte;
  devtime : Z;
  systime : Z
}.

Definition parser_is_uwatec_memomouse (abstract : option parser_t) : bool :=
  match abstract with
  | None => false
  | Some parser =>
      match backend parser with
      | uwatec_memomouse_parser_backend => true
      | other_parser_backend => false
      end
  end.

Inductive parser_sample_event_t : Type :=
  | SAMPLE_EVENT_DECOSTOP
  | SAMPLE_EVENT_RBT
  | SAMPLE_EVENT_ASCENT
  | SAMPLE_EVENT_CEILING
  | SAMPLE_EVENT_WORKLOAD
  | SAMPLE_EVENT_TRANSMITTER.

(** What a call of the sample callback is given: the sample type and the
    member of [parser_sample_value_t] set for it.  A vendor sample points
    into the record: [vendor.data] is [data + offset]. *)
Inductive sample_t : Type :=
  | SAMPLE_TYPE_TIME (time : Z)
  | SAMPLE_TYPE_DEPTH (depth : float)
  | SAMPLE_TYPE_EVENT (type : parser_sample_event_t)
  | SAMPLE_TYPE_VENDOR (offset size : Z).

(** The callback is called as a statement: it acts on the user's state. *)
Definition sample_callback_t (U : Type) : Type := sample_t -> U -> U.

(** [if (callback) callback (type, sample, userdata);] *)
Definition emit {U : Type} (callback : option (sample_callback_t U))
    (sample : sample_t) (u : U) : U :=
  match callback with
  | Some cb => cb sample u
  | None => u
  end.

(** The [switch (i)] of the warnings loop. *)
Definition warning_event (i : Z) : parser_sample_event_t :=
  match i with
  | 0 => SAMPLE_EVENT_DECOSTOP
  | 1 => SAMPLE_EVENT_RBT
  | 2 => SAMPLE_EVENT_ASCENT
  | 3 => SAMPLE_EVENT_CEILING
  | 4 => SAMPLE_EVENT_WORKLOAD
  | _ => SAMPLE_EVENT_TRANSMITTER
  end.

(** [for (i = 0; i < 6; ++i) if (warnings & (1 << i)) ...] *)
Definition warning_events {U : Type} (callback : option (sample_callback_t U))
    (warnings : Z) (u : U) : U :=
  fold_left
    (fun u i =>
       if negb (Z.land warnings (Z.shiftl 1 i) =? 0)
       then emit callback (SAMPLE_TYPE_EVENT (warning_event i)) u
       else u)
    [0; 1; 2; 3; 4; 5] u.

(** The loop [while (offset + 2 <= size)], in [unsigned int] arithmetic.
    [None]: the loop is still running when [fuel] iterations are over. *)
Fixpoint samples_loop {U : Type} (fuel : nat) (data : list byte) (size : Z)
    (oxygen : bool) (callback : option (sample_callback_t U))
    (offset time : Z) (u : U) : option (dc_status_t * U) :=
  if u32 (offset + 2) <=? size then
    match fuel with
    | O => None
    | S fuel' =>
        let value := array_uint16_be data (Z.to_nat offset) in
        let depth := Z.shiftr (Z.land value 0xFFC0) 6 in
        let warnings := Z.land value 0x3F in
        let offset := u32 (offset + 2) in
        let u := emit callback (SAMPLE_TYPE_TIME time) u in
        let u := emit callback (SAMPLE_TYPE_DEPTH (double_of depth * 10 / 64)%float) u in
        let u := warning_events callback warnings u in
        if time mod 60 =? 0 then
          let vendor := offset in
          if size <? u32 (offset + 1) then Some (DC_STATUS_DATAFORMAT, u)
          else
            let offset := u32 (offset + 1) in
            if oxygen then
              if size <? u32 (offset + 1) then Some (DC_STATUS_DATAFORMAT, u)
              else
                let offset := u32 (offset + 1) in
                samples_loop fuel' data size oxygen callback offset (u32 (time + 20))
                  (emit callback (SAMPLE_TYPE_VENDOR vendor 2) u)
            else
              samples_loop fuel' data size oxygen callback offset (u32 (time + 20))
                (emit callback (SAMPLE_TYPE_VENDOR vendor 1) u)
        else samples_loop fuel' data size oxygen callback offset (u32 (time + 20)) u
    end
  else Some (DC_STATUS_SUCCESS, u).

(** Every iteration takes two bytes or more: the length of the record is
    fuel enough. *)
Definition uwatec_memomouse_parser_samples_foreach {U : Type}
    (abstract : option parser_t) (callback : option (sample_callback_t U)) (u : U)
  : option (dc_status_t * U) :=
  match abstract with
  | None => Some (DC_STATUS_INVALIDARGS, u)
  | Some parser =>
      if negb (parser_is_uwatec_memomouse abstract) then Some (DC_STATUS_INVALIDARGS, u)
      else
        let data := parser_data parser in
        let size := Z.of_nat (length data) in
        if size <? 18 then Some (DC_STATUS_DATAFORMAT, u)
        else
          let model := byte_at data 3 in
          let header := header_size model in
          samples_loop (length data) data size (is_oxygen model) callback
            (header + 18) 20 u
  end.

End Memomouse.

(** ** The Suunto download core (Family B) *)

(** A list of bytes seen as an array: the bytes past its end read as 0. *)
Definition bytes (l : list Z) : buffer :=
  fun i => if i <? 0 then 0 else nth (Z.to_nat i) l 0.

Definition inspect {A : Type} (a : A) : {b : A | a = b} := exist _ a eq_refl.

Module Suunto.

Definition MAXRETRIES : nat := 2.
Definition SZ_VERSION : Z := 0x04.
Definition SZ_PACKET : Z := 0x78.
Definition SZ_MINIMUM : Z := 8.
Definition FP_OFFSET : Z := 0x15.

(** [suunto_common2.h] is not among the sources: the layout has the four
    fields the code reads. *)
Record suunto_common2_layout_t : Type := {
  memsize : Z;
  serial : Z;
  rb_profile_begin : Z;
  rb_profile_end : Z
}.

Record suunto_common2_device_t : Type := {
  layout : suunto_common2_layout_t;
  fingerprint : list Z
}.

(** Modelled from the spec: [checksum.h] is not among the sources;
    "byte-wise fold over the given range", here with xor. *)
Definition checksum_xor_uint8 (data : list Z) (init : Z) : Z :=
  fold_left Z.lxor data init.

(** The [command] array of [suunto_common2_device_read]. *)
Definition read_command (address len : Z) : list Z :=
  let head := [0x05; 0x00; 0x03;
               Z.land (Z.shiftr address 8) 0xFF;
               Z.land address 0xFF;
               u8 len] in
  head ++ [checksum_xor_uint8 head 0x00].

Definition version_command : list Z := [0x0F; 0x00; 0x00; 0x0F].

(** The callback type [dive_callback_t], called in the C code with
    [(data, size, fingerprint, fsize, userdata)] and returning an [int]:
    the two regions are passed by their bytes; [true] asks for more. *)
Definition dive_callback_t (U : Type) : Type := list Z -> list Z -> U -> bool * U.

Section Driver.

(** [sizeof (device->fingerprint)]; the struct is declared in the absent
    [suunto_common2.h]. *)
Variable SZ_FINGERPRINT : Z.

(** The serial line and whatever else the backend keeps. *)
Variable link : Type.

(** [BACKEND (abstract)->packet]: one command, one answer.  The arguments
    are the command, [asize] and [size]; the result carries the contents of
    [answer] after the call. *)
Definition packet_t : Type := link -> list Z -> Z -> Z -> dc_status_t * list Z * link.

Variable backend_packet : option packet_t.

Variable U : Type.

(** The [while] loop of [suunto_common2_transfer].  [retries_left] is
    [MAXRETRIES - nretries]: the test [nretries++ >= MAXRETRIES] succeeds
    when no retry is left. *)
Fixpoint transfer_attempts (packet : packet_t) (retries_left : nat) (l : link)
    (command : list Z) (asize size : Z) : dc_status_t * list Z * link :=
  let '(rc, answer, l') := packet l command asize size in
  if dc_status_eqb rc DC_STATUS_SUCCESS then (rc, answer, l')
  else if negb (dc_status_eqb rc DC_STATUS_TIMEOUT)
          && negb (dc_status_eqb rc DC_STATUS_PROTOCOL) then (rc, answer, l')
  else
    match retries_left with
    | O => (rc, answer, l')
    | S n => transfer_attempts packet n l' command asize size
    end.

(** The assertion [asize >= size + 4] holds at each call below
    (8 >= 4 + 4 and len + 7 >= len + 4). *)
Definition suunto_common2_transfer (l : link) (command : list Z) (asize size : Z)
  : dc_status_t * list Z * link :=
  match backend_packet with
  | None => (DC_STATUS_UNSUPPORTED, [], l)
  | Some packet => transfer_attempts packet MAXRETRIES l command asize size
  end.

Definition suunto_common2_device_set_fingerprint
    (device : suunto_common2_device_t) (data : list Z) (size : Z)
  : dc_status_t * suunto_common2_device_t :=
  if negb (size =? 0) && negb (size =? SZ_FINGERPRINT) then
    (DC_STATUS_INVALIDARGS, device)
  else if negb (size =? 0) then
    (DC_STATUS_SUCCESS,
     {| layout := layout device;
        fingerprint := slice (bytes data) 0 SZ_FINGERPRINT |})
  else
    (DC_STATUS_SUCCESS,
     {| layout := layout device;
        fingerprint := slice zeroed 0 SZ_FINGERPRINT |}).

(** The second component is [data[0 .. SZ_VERSION)] after the call. *)
Definition suunto_common2_device_version (l : link) (size : Z)
  : dc_status_t * list Z * link :=
  if size <? SZ_VERSION then (DC_STATUS_INVALIDARGS, [], l)
  else
    let '(rc, answer, l') :=
      suunto_common2_transfer l version_command (SZ_VERSION + 4) 4 in
    if negb (dc_status_eqb rc DC_STATUS_SUCCESS) then (rc, [], l')
    else (DC_STATUS_SUCCESS, slice (bytes answer) 3 SZ_VERSION, l').

(** The loop of [suunto_common2_device_read]; the destination [data] of the
    C code is [data + at_] here.  [nbytes + len <= size], so that sum does
    not wrap. *)
Equations? read_loop (l : link) (address : Z) (data : buffer) (at_ : Z)
    (size nbytes : Z) : dc_status_t * buffer * link
  by wf (Z.to_nat (size - nbytes)) lt :=
read_loop l address data at_ size nbytes with inspect (nbytes <? size) := {
  | exist _ true _ =>
      let len := if SZ_PACKET <? size - nbytes then SZ_PACKET else size - nbytes in
      let '(rc, answer, l') :=
        suunto_common2_transfer l (read_command address len) (len + 7) len in
      if negb (dc_status_eqb rc DC_STATUS_SUCCESS) then (rc, data, l')
      else read_loop l' (u32 (address + len))
             (memcpy data at_ (skipn 6 answer) len) (at_ + len)
             size (nbytes + len)
  | exist _ false _ => (DC_STATUS_SUCCESS, data, l) }.
Proof.
  apply Z.ltb_lt in e.
  unfold SZ_PACKET in *.
  destruct (120 <? size - nbytes) eqn:E; [apply Z.ltb_lt in E | apply Z.ltb_ge in E];
    subst len; lia.
Qed.

Definition suunto_common2_device_read (l : link) (address : Z) (data : buffer)
    (at_ : Z) (size : Z) : dc_status_t * buffer * link :=
  read_loop l address data at_ size 0.

Definition reset_maxdepth_command : list Z := [0x20; 0x00; 0x00; 0x20].

Definition suunto_common2_device_reset_maxdepth (l : link) : dc_status_t * link :=
  let '(rc, _, l') := suunto_common2_transfer l reset_maxdepth_command 4 0 in
  if negb (dc_status_eqb rc DC_STATUS_SUCCESS) then (rc, l')
  else (DC_STATUS_SUCCESS, l').

(** The first [len + 7] bytes of the [command] array of
    [suunto_common2_device_write], [payload] being the [len] bytes copied
    from [data]. *)
Definition write_command (address len : Z) (payload : list Z) : list Z :=
  let body := [0x06; 0x00; u8 (len + 3);
               Z.land (Z.shiftr address 8) 0xFF;
               Z.land address 0xFF;
               u8 len] ++ payload in
  body ++ [checksum_xor_uint8 body 0x00].

(** The loop of [suunto_common2_device_write]; the source [data] of the C
    code is [data + at_] here.  The assertion of the transfer holds:
    7 >= 0 + 4. *)
Equations? write_loop (l : link) (address : Z) (data : buffer) (at_ : Z)
    (size nbytes : Z) : dc_status_t * link
  by wf (Z.to_nat (size - nbytes)) lt :=
write_loop l address data at_ size nbytes with inspect (nbytes <? size) := {
  | exist _ true _ =>
      let len := if SZ_PACKET <? size - nbytes then SZ_PACKET else size - nbytes in
      let '(rc, _, l') :=
        suunto_common2_transfer l (write_command address len (slice data at_ len)) 7 0 in
      if negb (dc_status_eqb rc DC_STATUS_SUCCESS) then (rc, l')
      else write_loop l' (u32 (address + len)) data (at_ + len) size (nbytes + len)
  | exist _ false _ => (DC_STATUS_SUCCESS, l) }.
Proof.
  apply Z.ltb_lt in e.
  unfold SZ_PACKET in *.
  destruct (120 <? size - nbytes) eqn:E; [apply Z.ltb_lt in E | apply Z.ltb_ge in E];
    subst len; lia.
Qed.

Definition suunto_common2_device_write (l : link) (address : Z) (data : buffer)
    (at_ : Z) (size : Z) : dc_status_t * link :=
  write_loop l address data at_ size 0.

(** *** The dive traversal of [suunto_common2_device_foreach] *)

Definition in_profile (layout : suunto_common2_layout_t) (p : Z) : bool :=
  negb ((p <? rb_profile_begin layout) || (rb_profile_end layout <=? p)).

(** The variables of the package loop: where the next package ends in
    device memory, where it goes in [data], how many bytes of [data] from
    [offset] on are filled, and the buffer and the line themselves. *)
Record cursor : Type := {
  c_address : Z;
  c_offset : Z;
  c_nbytes : Z;
  c_data : buffer;
  c_line : link
}.

(** The package loop's "handle the ringbuffer wrap point". *)
Definition package_end (layout : suunto_common2_layout_t) (c : cursor) : Z :=
  if c_address c =? rb_profile_begin layout then rb_profile_end layout
  else c_address c.

(** "Calculate the package size": the largest size first, cut at the
    begin of the ring buffer and at the end of the profile data. *)
Definition package_len (layout : suunto_common2_layout_t) (remaining : Z)
    (c : cursor) : Z :=
  let address := package_end layout c in
  let len := SZ_PACKET in
  let len :=
    if address <? u32 (rb_profile_begin layout + len)
    then u32 (address - rb_profile_begin layout) else len in
  let len :=
    if remaining <? u32 (c_nbytes c + len)
    then u32 (remaining - c_nbytes c) else len in
  len.

(** "Always read at least the minimum amount of bytes". *)
Definition package_extra (len : Z) : Z :=
  if len <? SZ_MINIMUM then SZ_MINIMUM - len else 0.

(** The inner loop [while (nbytes < size)].  [None]: the loop is still
    running when [fuel] iterations are over. *)
Fixpoint fill_loop (fuel : nat) (layout : suunto_common2_layout_t)
    (remaining size : Z) (c : cursor) : option (dc_status_t * cursor) :=
  if c_nbytes c <? size then
    match fuel with
    | O => None
    | S fuel' =>
        let len := package_len layout remaining c in
        let offset := u32 (c_offset c - len) in
        let address := u32 (package_end layout c - len) in
        let extra := package_extra len in
        let '(rc, data, l) :=
          suunto_common2_device_read (c_line c) (u32 (address - extra))
            (c_data c) (offset - extra) (u32 (len + extra)) in
        if negb (dc_status_eqb rc DC_STATUS_SUCCESS) then
          Some (rc, {| c_address := address; c_offset := offset;
                       c_nbytes := c_nbytes c; c_data := data; c_line := l |})
        else
          fill_loop fuel' layout remaining size
            {| c_address := address; c_offset := offset;
               c_nbytes := u32 (c_nbytes c + len); c_data := data; c_line := l |}
    end
  else Some (DC_STATUS_SUCCESS, c).

(** The variables of the outer loop [while (remaining)]. *)
Record traversal : Type := {
  remaining : Z;
  available : Z;
  current : Z;
  previous : Z;
  address : Z;
  offset : Z;
  status : dc_status_t;
  data : buffer;
  line : link;
  userdata : U
}.

(** One iteration either goes on to the next dive or leaves the function. *)
Inductive step_result : Type :=
  | Next (t : traversal)
  | Return (rc : dc_status_t) (u : U) (l : link).

(** "Next dive": the state at the next test of [while (remaining)]. *)
Definition next_dive (t : traversal) (size : Z) (c : cursor) (prev : Z)
    (st : dc_status_t) (u : U) : traversal :=
  {| remaining := u32 (remaining t - size);
     available := u32 (c_nbytes c - size);
     current := prev;
     previous := current t;
     address := c_address c;
     offset := c_offset c;
     status := st;
     data := c_data c;
     line := c_line c;
     userdata := u |}.

(** The loop body after the package loop: the dive is in [data] at
    [p = data + offset + available]. *)
Definition visit_dive (device : suunto_common2_device_t) (model : Z)
    (callback : option (dive_callback_t U)) (t : traversal) (size : Z)
    (c : cursor) : step_result :=
  let avail := u32 (c_nbytes c - size) in
  let p := c_offset c + avail in
  let prev := array_uint16_le (c_data c) (p + 0) in
  let next := array_uint16_le (c_data c) (p + 2) in
  if negb (in_profile (layout device) prev) || negb (in_profile (layout device) next)
  then Return DC_STATUS_DATAFORMAT (userdata t) (c_line c)
  else if negb (next =? previous t) && negb (next =? current t)
  then Return DC_STATUS_DATAFORMAT (userdata t) (c_line c)
  else if negb (next =? current t) then
    let fp_offset := FP_OFFSET + (if model =? 0x15 then 6 else 0) in
    if bytes_eqb (slice (c_data c) (p + fp_offset) SZ_FINGERPRINT) (fingerprint device)
    then Return DC_STATUS_SUCCESS (userdata t) (c_line c)
    else
      match callback with
      | None => Next (next_dive t size c prev (status t) (userdata t))
      | Some cb =>
          let '(more, u) :=
            cb (slice (c_data c) (p + 4) (u32 (size - 4)))
               (slice (c_data c) (p + fp_offset) SZ_FINGERPRINT)
               (userdata t) in
          if more then Next (next_dive t size c prev (status t) u)
          else Return DC_STATUS_SUCCESS u (c_line c)
      end
  else Next (next_dive t size c prev DC_STATUS_DATAFORMAT (userdata t)).

Definition dive_size (layout : suunto_common2_layout_t) (t : traversal) : Z :=
  u32 (ringbuffer_distance (current t) (previous t) true
         (rb_profile_begin layout) (rb_profile_end layout)).

Definition dive_cursor (t : traversal) : cursor :=
  {| c_address := address t; c_offset := offset t; c_nbytes := available t;
     c_data := data t; c_line := line t |}.

(** The body of [while (remaining)].  [None]: the package loop does not
    end. *)
Definition dive_step (device : suunto_common2_device_t) (model : Z)
    (callback : option (dive_callback_t U)) (t : traversal)
  : option step_result :=
  let size := dive_size (layout device) t in
  if (size <? 4) || (remaining t <? size) then
    Some (Return DC_STATUS_DATAFORMAT (userdata t) (line t))
  else
    match fill_loop (Z.to_nat size) (layout device) (remaining t) size
            (dive_cursor t) with
    | None => None
    | Some (rc, c) =>
        if negb (dc_status_eqb rc DC_STATUS_SUCCESS) then
          Some (Return rc (userdata t) (c_line c))
        else Some (visit_dive device model callback t size c)
    end.

(** [while (remaining) { ... } return status;] *)
Fixpoint dive_loop (fuel : nat) (device : suunto_common2_device_t) (model : Z)
    (callback : option (dive_callback_t U)) (t : traversal)
  : option (dc_status_t * U * link) :=
  if remaining t =? 0 then Some (status t, userdata t, line t)
  else
    match fuel with
    | O => None
    | S fuel' =>
        match dive_step device model callback t with
        | None => None
        | Some (Return rc u l) => Some (rc, u, l)
        | Some (Next t') => dive_loop fuel' device model callback t'
        end
    end.

(** The four header fields are [last], [count], [end] and [begin]. *)
Definition header_last (header : buffer) : Z := array_uint16_le header 0.
Definition header_count (header : buffer) : Z := array_uint16_le header 2.
Definition header_end (header : buffer) : Z := array_uint16_le header 4.
Definition header_begin (header : buffer) : Z := array_uint16_le header 6.

(** [suunto_common2_device_foreach] up to its loop: the version, the
    serial number, the header and the allocation.  The two assertions hold
    by construction: a device is a value and has its layout.  [heap] is what
    [malloc] answers: [None] for a null pointer, [Some b] for a block whose bytes,
    and the memory around it, hold [b].  The result is either what the
    function returns at once, or [devinfo.model] and the variables at the
    first test of [while (remaining)]. *)
Definition foreach_prologue (device : suunto_common2_device_t)
    (heap : option buffer) (u : U) (l : link)
  : (dc_status_t * U * link) + (Z * traversal) :=
  let '(rc, version, l) := suunto_common2_device_version l SZ_VERSION in
  if negb (dc_status_eqb rc DC_STATUS_SUCCESS) then inl (rc, u, l)
  else
    let '(rc, _, l) :=
      suunto_common2_device_read l (serial (layout device)) zeroed 0
        (Z.max SZ_MINIMUM 4) in
    if negb (dc_status_eqb rc DC_STATUS_SUCCESS) then inl (rc, u, l)
    else
      let model := nth 0 version 0 in
      let '(rc, header, l) := suunto_common2_device_read l 0x0190 zeroed 0 8 in
      if negb (dc_status_eqb rc DC_STATUS_SUCCESS) then inl (rc, u, l)
      else
        let last := header_last header in
        let count := header_count header in
        let end_ := header_end header in
        let begin := header_begin header in
        if negb (in_profile (layout device) last)
           || negb (in_profile (layout device) end_)
           || negb (in_profile (layout device) begin)
        then inl (DC_STATUS_DATAFORMAT, u, l)
        else
          match heap with
          | None => inl (DC_STATUS_NOMEMORY, u, l)
          | Some block =>
              let remaining :=
                u32 (ringbuffer_distance begin end_ (negb (count =? 0))
                       (rb_profile_begin (layout device))
                       (rb_profile_end (layout device))) in
              inr (model,
                   {| remaining := remaining;
                      available := 0;
                      current := last;
                      previous := end_;
                      address := end_;
                      offset := u32 (remaining + SZ_MINIMUM);
                      status := DC_STATUS_SUCCESS;
                      data := block;
                      line := l;
                      userdata := u |})
          end.

(** The result is [None] when one of the loops does not end. *)
Definition suunto_common2_device_foreach (device : suunto_common2_device_t)
    (heap : option buffer) (callback : option (dive_callback_t U))
    (u : U) (l : link) : option (dc_status_t * U * link) :=
  match foreach_prologue device heap u l with
  | inl r => Some r
  | inr (model, t) =>
      dive_loop (Z.to_nat (remaining t)) device model callback t
  end.

End Driver.

End Suunto.

(** ** The Oceanic Atom 2 download (Family A) *)

Module Atom2.

Definition MAXRETRIES : nat := 2.

Definition RB_LOGBOOK_EMPTY : Z := 0x0230.
Definition RB_LOGBOOK_BEGIN : Z := 0x0240.
Definition RB_LOGBOOK_END : Z := 0x0A40.
Definition RB_PROFILE_EMPTY : Z := 0x0A40.
Definition RB_PROFILE_BEGIN : Z := 0x0A50.
Definition RB_PROFILE_END : Z := 0xFFF0.

(** The two ring buffers are measured with [ringbuffer_distance], called
    here with four arguments, [(a, b, begin, end)].  Modelled from the spec:
    with four arguments it is "(b - a) mod (end - begin)", so that equal
    pointers are at distance 0, the mode [false] of the distance above. *)
Definition RB_LOGBOOK_DISTANCE (a b : Z) : Z :=
  u32 (ringbuffer_distance a b false RB_LOGBOOK_BEGIN RB_LOGBOOK_END).
Definition RB_PROFILE_DISTANCE (a b : Z) : Z :=
  u32 (ringbuffer_distance a b false RB_PROFILE_BEGIN RB_PROFILE_END).

(** The pointer macros, applied to the array [x + at_]. *)
Definition PT_LOGBOOK_FIRST (x : buffer) (at_ : Z) : Z :=
  x (at_ + 4) + Z.shiftl (x (at_ + 5)) 8.
Definition PT_LOGBOOK_LAST (x : buffer) (at_ : Z) : Z :=
  x (at_ + 6) + Z.shiftl (x (at_ + 7)) 8.
Definition PT_PROFILE_FIRST (x : buffer) (at_ : Z) : Z :=
  x (at_ + 5) + Z.shiftl (Z.land (x (at_ + 6)) 0x0F) 8.
Definition PT_PROFILE_LAST (x : buffer) (at_ : Z) : Z :=
  Z.shiftr (x (at_ + 6)) 4 + Z.shiftl (x (at_ + 7)) 4.

(** The result codes the driver names; they are declared in the absent
    [oceanic.h]. *)
Inductive oceanic_status : Type :=
  | OCEANIC_SUCCESS
  | OCEANIC_ERROR
  | OCEANIC_ERROR_IO
  | OCEANIC_ERROR_MEMORY
  | OCEANIC_ERROR_PROTOCOL
  | OCEANIC_ERROR_TIMEOUT.

Definition oceanic_status_eqb (a b : oceanic_status) : bool :=
  match a, b with
  | OCEANIC_SUCCESS, OCEANIC_SUCCESS
  | OCEANIC_ERROR, OCEANIC_ERROR
  | OCEANIC_ERROR_IO, OCEANIC_ERROR_IO
  | OCEANIC_ERROR_MEMORY, OCEANIC_ERROR_MEMORY
  | OCEANIC_ERROR_PROTOCOL, OCEANIC_ERROR_PROTOCOL
  | OCEANIC_ERROR_TIMEOUT, OCEANIC_ERROR_TIMEOUT => true
  | _, _ => false
  end.

(** A call either returns or stops the program at a failed [assert]. *)
Inductive outcome (A : Type) : Type :=
  | Done (a : A)
  | Assertion_failed.

Arguments Done {A} a.
Arguments Assertion_failed {A}.

Definition oceanic_atom2_checksum (data : list Z) (init : Z) : Z :=
  fold_left (fun crc b => u8 (crc + b)) data init.

Section Driver.

(** [OCEANIC_ATOM2_PACKET_SIZE], defined in the absent [oceanic.h]. *)
Variable OCEANIC_ATOM2_PACKET_SIZE : Z.
Hypothesis packet_size_positive : 0 < OCEANIC_ATOM2_PACKET_SIZE.

(** The serial port of [struct atom2] and the three calls made on it.
    [serial_read] answers the [int] it returns and the bytes it left in the
    caller's array. *)
Variable port : Type.
Variable serial_write : port -> list Z -> port.
Variable serial_drain : port -> port.
Variable serial_read : port -> Z -> Z * list Z * port.

(** The user's state, and what a call of the callback evaluates to.  The
    functions below are those of a device that is not [NULL]. *)
Variables U R : Type.

(** The callback, called in the C code with [(data, size, userdata)]. *)
Definition dive_callback_t : Type := list Z -> U -> R * U.

Definition oceanic_atom2_send (p : port) (command : list Z) : oceanic_status * port :=
  (OCEANIC_SUCCESS, serial_drain (serial_write p command)).

(** The loop [for (i = 0;; ++i)] of [oceanic_atom2_transfer];
    [retries_left] is [MAXRETRIES - i].  The assertion [asize >= 2] holds
    at each call of this file (3 and [OCEANIC_ATOM2_PACKET_SIZE + 2]).  The
    [answer] array is used by the callers after a success only, when the
    last read has filled it. *)
Fixpoint transfer_attempts (retries_left : nat) (p : port) (command : list Z)
    (asize : Z) (handshake : bool) : oceanic_status * list Z * port :=
  let '(rc, p) := oceanic_atom2_send p command in
  if negb (oceanic_status_eqb rc OCEANIC_SUCCESS) then (rc, [], p)
  else
    let '(n, answer, p) := serial_read p asize in
    if negb (u32 n =? asize) then
      if n =? -1 then (OCEANIC_ERROR_IO, answer, p)
      else
        match retries_left with
        | S k => transfer_attempts k p command asize handshake
        | O => (OCEANIC_ERROR_TIMEOUT, answer, p)
        end
    else
      let header := if handshake then 0xA5 else 0x5A in
      if negb (nth 0 answer 0 =? header) then (OCEANIC_ERROR_PROTOCOL, answer, p)
      else
        let crc := bytes answer (asize - 1) in
        let ccrc := oceanic_atom2_checksum (slice (bytes answer) 1 (asize - 2)) 0x00 in
        if negb (crc =? ccrc) then (OCEANIC_ERROR_PROTOCOL, answer, p)
        else (OCEANIC_SUCCESS, answer, p).

Definition oceanic_atom2_transfer (p : port) (command : list Z) (asize : Z)
    (handshake : bool) : oceanic_status * list Z * port :=
  transfer_attempts MAXRETRIES p command asize handshake.

(** [oceanic_atom2_handshake]: the answer of three bytes is read with the
    handshake start byte. *)
Definition oceanic_atom2_handshake (p : port) : oceanic_status * port :=
  let '(rc, answer, p) := oceanic_atom2_transfer p [0xA8; 0x99; 0x00] 3 true in
  if negb (oceanic_status_eqb rc OCEANIC_SUCCESS) then (rc, p)
  else if negb (nth 1 answer 0 =? 0xA5) then (OCEANIC_ERROR_PROTOCOL, p)
  else (OCEANIC_SUCCESS, p).

(** [oceanic_atom2_quit]: the command is sent and one byte is read, once. *)
Definition oceanic_atom2_quit (p : port) : oceanic_status * port :=
  let '(rc, p) := oceanic_atom2_send p [0x6A; 0x05; 0xA5; 0x00] in
  if negb (oceanic_status_eqb rc OCEANIC_SUCCESS) then (rc, p)
  else
    let '(n, answer, p) := serial_read p 1 in
    if negb (n =? 1) then
      if n =? -1 then (OCEANIC_ERROR_IO, p) else (OCEANIC_ERROR_TIMEOUT, p)
    else if negb (nth 0 answer 0 =? 0xA5) then (OCEANIC_ERROR_PROTOCOL, p)
    else (OCEANIC_SUCCESS, p).

(** [oceanic_atom2_read_version]; the second component is
    [data[0 .. OCEANIC_ATOM2_PACKET_SIZE)] after the call. *)
Definition oceanic_atom2_read_version (p : port) (size : Z)
  : oceanic_status * list Z * port :=
  if size <? OCEANIC_ATOM2_PACKET_SIZE then (OCEANIC_ERROR_MEMORY, [], p)
  else
    let '(rc, answer, p) :=
      oceanic_atom2_transfer p [0x84; 0x00] (OCEANIC_ATOM2_PACKET_SIZE + 2) false in
    if negb (oceanic_status_eqb rc OCEANIC_SUCCESS) then (rc, [], p)
    else (OCEANIC_SUCCESS, slice (bytes answer) 1 OCEANIC_ATOM2_PACKET_SIZE, p).

Definition read_packet_command (address : Z) : list Z :=
  let number := address / OCEANIC_ATOM2_PACKET_SIZE in
  [0xB1; Z.land (Z.shiftr number 8) 0xFF; Z.land number 0xFF; 0].

(** The loop of [oceanic_atom2_read_memory]; [data] of the C code is
    [data + at_].  Both asserted, [size] and [nbytes] are multiples of the
    packet size and [nbytes + OCEANIC_ATOM2_PACKET_SIZE <= size]. *)
Equations? read_memory_loop (p : port) (address : Z) (data : buffer) (at_ : Z)
    (size nbytes : Z) : oceanic_status * buffer * port
  by wf (Z.to_nat (size - nbytes)) lt :=
read_memory_loop p address data at_ size nbytes with inspect (nbytes <? size) := {
  | exist _ true _ =>
      let '(rc, answer, p') :=
        oceanic_atom2_transfer p (read_packet_command address)
          (OCEANIC_ATOM2_PACKET_SIZE + 2) false in
      if negb (oceanic_status_eqb rc OCEANIC_SUCCESS) then (rc, data, p')
      else read_memory_loop p' (u32 (address + OCEANIC_ATOM2_PACKET_SIZE))
             (memcpy data at_ (skipn 1 answer) OCEANIC_ATOM2_PACKET_SIZE)
             (at_ + OCEANIC_ATOM2_PACKET_SIZE)
             size (nbytes + OCEANIC_ATOM2_PACKET_SIZE)
  | exist _ false _ => (OCEANIC_SUCCESS, data, p) }.
Proof. apply Z.ltb_lt in e. lia. Qed.

Definition oceanic_atom2_read_memory (p : port) (address : Z) (data : buffer)
    (at_ : Z) (size : Z) : outcome (oceanic_status * buffer * port) :=
  if negb (address mod OCEANIC_ATOM2_PACKET_SIZE =? 0) then Assertion_failed
  else if negb (size mod OCEANIC_ATOM2_PACKET_SIZE =? 0) then Assertion_failed
  else Done (read_memory_loop p address data at_ size 0).

Definition oceanic_atom2_read_ringbuffer (p : port) (address : Z) (data : buffer)
    (at_ : Z) (size : Z) (rb_begin rb_end : Z)
  : outcome (oceanic_status * buffer * port) :=
  if negb ((rb_begin <=? address) && (address <? rb_end)) then Assertion_failed
  else if negb (size <=? u32 (rb_end - rb_begin)) then Assertion_failed
  else if rb_end <? u32 (address + size) then
    let a := u32 (rb_end - address) in
    let b := u32 (size - a) in
    match oceanic_atom2_read_memory p address data at_ a with
    | Assertion_failed => Assertion_failed
    | Done (rc, data, p) =>
        if negb (oceanic_status_eqb rc OCEANIC_SUCCESS) then Done (rc, data, p)
        else
          match oceanic_atom2_read_memory p rb_begin data (at_ + a) b with
          | Assertion_failed => Assertion_failed
          | Done (rc, data, p) =>
              if negb (oceanic_status_eqb rc OCEANIC_SUCCESS) then Done (rc, data, p)
              else Done (OCEANIC_SUCCESS, data, p)
          end
    end
  else
    match oceanic_atom2_read_memory p address data at_ size with
    | Assertion_failed => Assertion_failed
    | Done (rc, data, p) =>
        if negb (oceanic_status_eqb rc OCEANIC_SUCCESS) then Done (rc, data, p)
        else Done (OCEANIC_SUCCESS, data, p)
    end.

(** The [for] loop of [oceanic_atom2_read_dives]: [n] entries are left and
    [current] is [logbooks + cur].  What the callback returns is not used. *)
Fixpoint dives_loop (n : nat) (p : port) (logbooks : buffer) (cur : Z)
    (callback : option dive_callback_t) (u : U)
  : outcome (oceanic_status * U * port) :=
  match n with
  | O => Done (OCEANIC_SUCCESS, u, p)
  | S n' =>
      let profile_first :=
        u32 (PT_PROFILE_FIRST logbooks cur * OCEANIC_ATOM2_PACKET_SIZE) in
      let profile_last :=
        u32 (PT_PROFILE_LAST logbooks cur * OCEANIC_ATOM2_PACKET_SIZE) in
      let profile_len :=
        u32 (RB_PROFILE_DISTANCE profile_first profile_last
             + OCEANIC_ATOM2_PACKET_SIZE) in
      match oceanic_atom2_read_ringbuffer p profile_first zeroed 8 profile_len
              RB_PROFILE_BEGIN RB_PROFILE_END with
      | Assertion_failed => Assertion_failed
      | Done (rc, profile, p) =>
          if negb (oceanic_status_eqb rc OCEANIC_SUCCESS) then Done (rc, u, p)
          else
            let profile := memcpy profile 0 (slice logbooks cur 8) 8 in
            let u :=
              match callback with
              | Some cb => snd (cb (slice profile 0 (u32 (profile_len + 8))) u)
              | None => u
              end in
            dives_loop n' p logbooks (cur - OCEANIC_ATOM2_PACKET_SIZE / 2) callback u
      end
  end.

(** [OCEANIC_ATOM2_PACKET_SIZE / 2] is the size of a logbook entry; the
    division by it is defined for a packet size of 2 or more. *)
Definition logbook_count (logbook_first logbook_last : Z) : Z :=
  u32 (RB_LOGBOOK_DISTANCE logbook_first logbook_last
       / (OCEANIC_ATOM2_PACKET_SIZE / 2) + 1).

Definition oceanic_atom2_read_dives (p : port) (callback : option dive_callback_t)
    (u : U) : outcome (oceanic_status * U * port) :=
  match oceanic_atom2_read_memory p 0x0040 zeroed 0 OCEANIC_ATOM2_PACKET_SIZE with
  | Assertion_failed => Assertion_failed
  | Done (rc, pointers, p) =>
      if negb (oceanic_status_eqb rc OCEANIC_SUCCESS) then Done (rc, u, p)
      else
        let logbook_first := PT_LOGBOOK_FIRST pointers 0 in
        let logbook_last := PT_LOGBOOK_LAST pointers 0 in
        if (logbook_first =? RB_LOGBOOK_EMPTY) && (logbook_last =? RB_LOGBOOK_EMPTY)
        then Done (OCEANIC_SUCCESS, u, p)
        else
          let count := logbook_count logbook_first logbook_last in
          let logbook_page_offset := logbook_first mod OCEANIC_ATOM2_PACKET_SIZE in
          let logbook_page_first :=
            u32 (logbook_first / OCEANIC_ATOM2_PACKET_SIZE * OCEANIC_ATOM2_PACKET_SIZE) in
          let logbook_page_last :=
            u32 (logbook_last / OCEANIC_ATOM2_PACKET_SIZE * OCEANIC_ATOM2_PACKET_SIZE) in
          let logbook_page_len :=
            u32 (RB_LOGBOOK_DISTANCE logbook_page_first logbook_page_last
                 + OCEANIC_ATOM2_PACKET_SIZE) in
          match oceanic_atom2_read_ringbuffer p logbook_page_first zeroed 0
                  logbook_page_len RB_LOGBOOK_BEGIN RB_LOGBOOK_END with
          | Assertion_failed => Assertion_failed
          | Done (rc, logbooks, p) =>
              if negb (oceanic_status_eqb rc OCEANIC_SUCCESS) then Done (rc, u, p)
              else
                dives_loop (Z.to_nat count) p logbooks
                  (logbook_page_offset
                   + u32 ((count - 1) * (OCEANIC_ATOM2_PACKET_SIZE / 2)))
                  callback u
          end
  end.

End Driver.

End Atom2.

(** ** Observing a download *)

(** A Family-B callback that also writes down each call: the two regions it
    was given and what it answered. *)
Definition call_log : Type := list (list Z * list Z * bool).

Definition recording {U : Type} (cb : Suunto.dive_callback_t U)
  : Suunto.dive_callback_t (U * call_log) :=
  fun dive fp st =>
    let '(more, u) := cb dive fp (fst st) in
    (more, (u, snd st ++ [(dive, fp, more)])).

(** Device memory given by the regions written to it; the rest reads 0. *)
Fixpoint store (regions : list (Z * list Z)) : buffer :=
  match regions with
  | [] => zeroed
  | (a, bs) :: rest => memcpy (store rest) a bs (Z.of_nat (length bs))
  end.

Definition le16 (x : Z) : list Z := [x mod 256; x / 256].

(** A simulated Suunto dive computer: its memory, the four version bytes,
    the results of the coming packets that are scripted to fail, and the
    commands received so far. *)
Module SuuntoSim.

Import Suunto.

Record sim : Type := {
  mem : buffer;
  ident : list Z;
  faults : list dc_status_t;
  received : list (list Z)
}.

Definition heard (s : sim) (faults' : list dc_status_t) (cmd : list Z) : sim :=
  {| mem := mem s; ident := ident s; faults := faults';
     received := received s ++ [cmd] |}.

Definition sim_packet : packet_t sim := fun s cmd asize size =>
  match faults s with
  | rc :: rest => (rc, [], heard s rest cmd)
  | [] =>
      match cmd with
      | [0x0F; _; _; _] =>
          (DC_STATUS_SUCCESS, [0x0F; 0; 4] ++ ident s ++ [0], heard s [] cmd)
      | [0x05; _; _; hi; lo; len; _] =>
          (DC_STATUS_SUCCESS,
           [0x05; 0; len + 3; hi; lo; len]
             ++ slice (mem s) (hi * 256 + lo) len ++ [0],
           heard s [] cmd)
      | _ => (DC_STATUS_PROTOCOL, [], heard s [] cmd)
      end
  end.

(** A layout in the manner of the D9. *)
Definition d9_layout : suunto_common2_layout_t :=
  {| memsize := 0x8000; serial := 0x0023;
     rb_profile_begin := 0x019A; rb_profile_end := 0x7FFE |}.

Definition fresh (layout : suunto_common2_layout_t) : suunto_common2_device_t :=
  {| layout := layout; fingerprint := slice zeroed 0 7 |}.

(** A dive of [4 + n] bytes: the two link pointers, then [n] bytes [tag]. *)
Definition dive (prev next tag : Z) (n : nat) : list Z :=
  le16 prev ++ le16 next ++ repeat tag n.

Definition header (last count end_ begin : Z) : Z * list Z :=
  (0x0190, le16 last ++ le16 count ++ le16 end_ ++ le16 begin).

Definition powered (m : buffer) : sim :=
  {| mem := m; ident := [0x0E; 1; 2; 3]; faults := []; received := [] |}.

(** Three dives of 40 bytes, the oldest at the start of the ring buffer. *)
Definition three_dives : buffer :=
  store [header 490 3 530 410;
         (410, dive 410 450 1 36);
         (450, dive 410 490 2 36);
         (490, dive 450 530 3 36)].

Definition keep_going : dive_callback_t unit := fun _ _ u => (true, u).

Definition download (device : suunto_common2_device_t) (cb : dive_callback_t unit)
    (s : sim) : option (dc_status_t * (unit * call_log) * sim) :=
  suunto_common2_device_foreach 7 sim (Some sim_packet) (unit * call_log)
    device (Some zeroed) (Some (recording cb)) (tt, []) s.

End SuuntoSim.

(** A simulated Atom 2 on a serial port: its memory, the command written
    last, the results of the coming reads that are scripted, and the number
    of reads so far. *)
Module Atom2Sim.

Import Atom2.

Record sim : Type := {
  mem : buffer;
  sent : list Z;
  script : list (Z * list Z);
  reads : Z
}.

Definition sim_write (s : sim) (cmd : list Z) : sim :=
  {| mem := mem s; sent := cmd; script := script s; reads := reads s |}.

Definition sim_drain (s : sim) : sim := s.

(** A read command [B1 hi lo 00] is answered by [5A], the 16 bytes of the
    page and their sum; anything else by silence. *)
Definition sim_read (s : sim) (n : Z) : Z * list Z * sim :=
  match script s with
  | (rc, bs) :: rest =>
      (rc, bs, {| mem := mem s; sent := sent s; script := rest;
                  reads := reads s + 1 |})
  | [] =>
      let s' := {| mem := mem s; sent := sent s; script := [];
                   reads := reads s + 1 |} in
      match sent s with
      | [0xB1; hi; lo; _] =>
          let page := slice (mem s) ((hi * 256 + lo) * 16) 16 in
          (n, 0x5A :: page ++ [oceanic_atom2_checksum page 0], s')
      | _ => (0, [], s')
      end
  end.

Definition packet_size : Z := 16.

Definition packet_size_positive : 0 < packet_size := eq_refl.

Definition powered (m : buffer) (script : list (Z * list Z)) : sim :=
  {| mem := m; sent := []; script := script; reads := 0 |}.

(** The pointers block: the logbook pointers are its bytes 4 to 7. *)
Definition pointers (logbook_first logbook_last : Z) : Z * list Z :=
  (0x0040, [0; 0; 0; 0] ++ le16 logbook_first ++ le16 logbook_last).

(** A logbook entry whose profile runs from page [first] to page [last]. *)
Definition entry (first last tag : Z) : list Z :=
  [tag; tag; tag; tag; tag;
   first mod 256; first / 256 + (last mod 16) * 16; last / 16].

Definition no_dive : buffer := store [pointers 0x0230 0x0230].

Definition one_dive : buffer :=
  store [pointers 0x0240 0x0240;
         (0x0240, entry 0xA5 0xA5 7);
         (0x0A50, repeat 9 16)].

Definition two_dives : buffer :=
  store [pointers 0x0240 0x0248;
         (0x0240, entry 0xA5 0xA5 7 ++ entry 0xA6 0xA7 8);
         (0x0A50, repeat 9 16 ++ repeat 10 16 ++ repeat 11 16)].

(** A callback that asks to stop, and counts its calls. *)
Definition stop_at_once : dive_callback_t (list (list Z)) bool :=
  fun dive calls => (false, calls ++ [dive]).

Definition transfer (s : sim) (command : list Z) (asize : Z)
  : oceanic_status * list Z * sim :=
  oceanic_atom2_transfer sim sim_write sim_drain sim_read s command asize false.

Definition download (m : buffer)
  : outcome (oceanic_status * list (list Z) * sim) :=
  oceanic_atom2_read_dives packet_size packet_size_positive sim sim_write
    sim_drain sim_read (list (list Z)) bool (powered m []) (Some stop_at_once) [].

End Atom2Sim.

(** A Family-B device seen as its memory: a packet function that answers
    the version query, serves every read command from the memory and
    stores what every write command carries. *)
Module SuuntoMem.

Import Suunto.

Definition mem_packet : packet_t buffer := fun m cmd asize size =>
  match cmd with
  | 0x0F :: _ => (DC_STATUS_SUCCESS, [0x0F; 0; 4; 0x0E; 1; 2; 3; 0], m)
  | 0x05 :: _ :: _ :: hi :: lo :: len :: _ =>
      (DC_STATUS_SUCCESS,
       [0x05; 0; len + 3; hi; lo; len] ++ slice m (hi * 256 + lo) len ++ [0], m)
  | 0x06 :: _ :: _ :: hi :: lo :: len :: rest =>
      (DC_STATUS_SUCCESS, [0x06; 0; 0; 0x06], memcpy m (hi * 256 + lo) rest len)
  | _ => (DC_STATUS_PROTOCOL, [], m)
  end.

Definition same (m mem : buffer) : Prop := forall i : Z, m i = mem i.

End SuuntoMem.

(** * The vocabulary of the properties *)

(** ** Gas mix fractions *)

(** The three fractions of a gas mix without helium, added in the order
    oxygen, helium, nitrogen, give exactly 1. *)
Definition sums_to_one (o : float) : Prop :=
  (o + 0 + (1 - o - 0))%float = 1%float.

(** ** Attempts of a transfer *)

(** Family B: the command is sent over and over: the line before attempt
    [k] (counting from 0) and what that attempt gives. *)
Section SuuntoAttempt.

Context {link : Type} (packet : Suunto.packet_t link).
Variables (command : list Z) (asize size : Z).

Fixpoint line_before (k : nat) (l : link) : link :=
  match k with
  | O => l
  | S k' => line_before k' (snd (packet l command asize size))
  end.

Definition attempt (k : nat) (l : link) : dc_status_t * list Z * link :=
  packet (line_before k l) command asize size.

(** The results after which [suunto_common2_transfer] tries again. *)
Definition retried (rc : dc_status_t) : Prop :=
  rc = DC_STATUS_TIMEOUT \/ rc = DC_STATUS_PROTOCOL.

End SuuntoAttempt.

(** Family A: the same for the serial port. *)
Section Atom2Attempt.

Import Atom2.

Context {port : Type}.
Variables (serial_write : port -> list Z -> port) (serial_drain : port -> port)
          (serial_read : port -> Z -> Z * list Z * port).
Variables (command : list Z) (asize : Z) (handshake : bool).

(** One attempt: the command is written and drained, the answer read. *)
Definition exchange (p : port) : Z * list Z * port :=
  serial_read (serial_drain (serial_write p command)) asize.

Fixpoint port_before (k : nat) (p : port) : port :=
  match k with
  | O => p
  | S k' => port_before k' (snd (exchange p))
  end.

(** What [oceanic_atom2_transfer] makes of one answer. *)
Definition verdict (r : Z * list Z * port) : oceanic_status :=
  let '(n, answer, _) := r in
  if negb (u32 n =? asize) then
    if n =? -1 then OCEANIC_ERROR_IO else OCEANIC_ERROR_TIMEOUT
  else if negb (nth 0 answer 0 =? (if handshake then 0xA5 else 0x5A)) then
    OCEANIC_ERROR_PROTOCOL
  else if negb (bytes answer (asize - 1)
                =? oceanic_atom2_checksum (slice (bytes answer) 1 (asize - 2)) 0x00)
  then OCEANIC_ERROR_PROTOCOL
  else OCEANIC_SUCCESS.

Definition judged (r : Z * list Z * port) : oceanic_status * list Z * port :=
  (verdict r, snd (fst r), snd r).

End Atom2Attempt.

(** ** The reading plan of the memory reader *)

(** The reading plan of the specification: [ceil (size / SZ_PACKET)] chunks,
    chunk [i] starting [i] packets after [address] and as long as what is
    left allows. *)
Definition chunk_count (size : Z) : Z :=
  (size + Suunto.SZ_PACKET - 1) / Suunto.SZ_PACKET.

Definition chunk (address size i : Z) : Z * Z :=
  (u32 (address + i * Suunto.SZ_PACKET),
   Z.min Suunto.SZ_PACKET (size - i * Suunto.SZ_PACKET)).

Definition chunks (address size : Z) : list (Z * Z) :=
  map (fun i => chunk address size (Z.of_nat i))
      (seq 0 (Z.to_nat (chunk_count size))).

Section ReadingPlan.

Import Suunto.

Context {link : Type} (backend_packet : option (packet_t link)).

Local Abbreviation transfer := (suunto_common2_transfer link backend_packet).

(** The chunks of a plan read one after the other, up to the first
    failure. *)
Fixpoint read_chunks (l : link) (data : buffer) (at_ : Z) (plan : list (Z * Z))
  : dc_status_t * buffer * link :=
  match plan with
  | [] => (DC_STATUS_SUCCESS, data, l)
  | (address, len) :: rest =>
      let '(rc, answer, l') := transfer l (read_command address len) (len + 7) len in
      if negb (dc_status_eqb rc DC_STATUS_SUCCESS) then (rc, data, l')
      else read_chunks l' (memcpy data at_ (skipn 6 answer) len) (at_ + len) rest
  end.

End ReadingPlan.

(** ** The ring buffer and the variables of the traversal *)

(** A pointer the header check accepts. *)
Definition within_profile (layout : Suunto.suunto_common2_layout_t) (p : Z) : Prop :=
  Suunto.rb_profile_begin layout <= p < Suunto.rb_profile_end layout.

(** A ring buffer that is not empty and whose addresses, a package further,
    are still [unsigned int] values. *)
Definition layout_fits (layout : Suunto.suunto_common2_layout_t) : Prop :=
  0 <= Suunto.rb_profile_begin layout
  /\ Suunto.rb_profile_begin layout < Suunto.rb_profile_end layout
  /\ Suunto.rb_profile_end layout + Suunto.SZ_PACKET < 2 ^ 32.

Section LoopInvariants.

Import Suunto.

Context {link : Type} {U : Type}.
Variable device : suunto_common2_device_t.

Local Abbreviation lay := (layout device).

(** What the package loop keeps true of its cursor. *)
Definition cursor_ok (remaining : Z) (c : cursor link) : Prop :=
  rb_profile_begin lay <= c_address link c <= rb_profile_end lay
  /\ 0 <= c_nbytes link c <= remaining.

(** What the dive loop keeps true of its variables. *)
Definition traversal_ok (t : traversal link U) : Prop :=
  0 <= remaining link U t <= rb_profile_end lay - rb_profile_begin lay
  /\ 0 <= available link U t <= remaining link U t
  /\ rb_profile_begin lay <= address link U t <= rb_profile_end lay.

End LoopInvariants.

(** ** The calls of a download *)



(** The user's state when an iteration is over. *)
Definition state_after {link U : Type} (r : Suunto.step_result link U) : U :=
  match r with
  | Suunto.Next _ _ t' => Suunto.userdata link U t'
  | Suunto.Return _ _ _ u _ => u
  end.

(** A Family-A callback that also writes down the dives it is given. *)
Definition logging {U R : Type} (cb : Atom2.dive_callback_t U R)
  : Atom2.dive_callback_t (U * list (list Z)) R :=
  fun dive st =>
    let '(r, u) := cb dive (fst st) in (r, (u, snd st ++ [dive])).

(** ** The dives of a traversal *)

Section Dives.

Import Suunto.

Context (SZ_FINGERPRINT : Z) {link : Type} (backend_packet : option (packet_t link))
        {U : Type}.
Variables (device : suunto_common2_device_t) (model : Z)
          (callback : option (dive_callback_t U)).

Local Abbreviation step :=
  (dive_step SZ_FINGERPRINT link backend_packet U device model callback).

(** The dive visited between [t] and [t'] points to itself: its [next]
    pointer, the second of the two at [data + offset + available], is
    [current]. *)
Definition self_linked (t t' : traversal link U) : bool :=
  array_uint16_le (data link U t')
    (offset link U t' + available link U t' + 2) =? current link U t.

(** [walk t flags t']: from [t] the loop goes through one iteration per
    flag, each ending at "next dive", and is then at [t']; the flag tells
    whether the dive was self-linked. *)
Inductive walk : traversal link U -> list bool -> traversal link U -> Prop :=
  | walk_stay (t : traversal link U) : walk t [] t
  | walk_on (t t1 t2 : traversal link U) (flags : list bool) :
      remaining link U t <> 0 ->
      step t = Some (Next link U t1) ->
      walk t1 flags t2 ->
      walk t (self_linked t t1 :: flags) t2.

End Dives.

(** ** A device that keeps its memory *)

Section DeviceMemory.

Import Suunto.

Context {link : Type} (packet : packet_t link) (holds : link -> buffer -> Prop).

Definition answers_reads : Prop :=
  forall (l : link) (mem : buffer) (a len : Z),
    holds l mem -> 0 <= a < 2 ^ 16 -> 0 < len <= SZ_PACKET ->
    exists (answer : list Z) (l' : link),
      packet l (read_command a len) (len + 7) len = (DC_STATUS_SUCCESS, answer, l')
      /\ (forall i : Z, 0 <= i < len -> nth (Z.to_nat (6 + i)) answer 0 = mem (a + i))
      /\ holds l' mem.

End DeviceMemory.

Section WritableMemory.

Import Suunto.

Context {link : Type} (packet : packet_t link) (holds : link -> buffer -> Prop).

Definition accepts_writes : Prop :=
  forall (l : link) (mem : buffer) (a len : Z) (payload : list Z),
    holds l mem -> 0 <= a -> a + len <= 2 ^ 16 -> 0 < len <= SZ_PACKET ->
    Z.of_nat (length payload) = len ->
    exists (answer : list Z) (l' : link),
      packet l (write_command a len payload) 7 0 = (DC_STATUS_SUCCESS, answer, l')
      /\ holds l' (memcpy mem a payload len).

End WritableMemory.

(** ** The block of a download *)

Section BlockInvariant.

Import Suunto.

Context {link : Type} {U : Type}.
Variables (device : suunto_common2_device_t) (block : buffer).

Local Abbreviation lay := (layout device).

(** The size of the block that [suunto_common2_device_foreach] allocates. *)
Definition block_size : Z :=
  rb_profile_end lay - rb_profile_begin lay + SZ_MINIMUM.

(** Outside the allocated block the memory is what it was. *)
Definition block_kept (data : buffer) : Prop :=
  forall j : Z, j < 0 \/ block_size <= j -> data j = block j.

(** What the dive loop keeps true of its buffer. *)
Definition traversal_in_block (t : traversal link U) : Prop :=
  traversal_ok device t
  /\ offset link U t + available link U t = remaining link U t + SZ_MINIMUM
  /\ block_kept (data link U t).

End BlockInvariant.

(** ** The ring buffer behind the block *)

(** A ring buffer that the 16-bit addresses of the read command reach,
    with room before it for the padding of a short package. *)
Definition layout_addressable (layout : Suunto.suunto_common2_layout_t) : Prop :=
  Suunto.SZ_MINIMUM <= Suunto.rb_profile_begin layout
  /\ Suunto.rb_profile_begin layout < Suunto.rb_profile_end layout
  /\ Suunto.rb_profile_end layout <= 2 ^ 16.

(** The address of the ring buffer that [x] stands for, and the [n] bytes
    stored in the ring buffer from [a] on, going round at its end. *)
Definition ring_address (layout : Suunto.suunto_common2_layout_t) (x : Z) : Z :=
  Suunto.rb_profile_begin layout
  + (x - Suunto.rb_profile_begin layout)
    mod (Suunto.rb_profile_end layout - Suunto.rb_profile_begin layout).

Definition ring_slice (layout : Suunto.suunto_common2_layout_t) (mem : buffer)
    (a n : Z) : list Z :=
  map (fun k => mem (ring_address layout (a + Z.of_nat k))) (seq 0 (Z.to_nat n)).

Section MirrorInvariant.

Import Suunto.

Context {link : Type} {U : Type} (holds : link -> buffer -> Prop).
Variables (device : suunto_common2_device_t) (mem : buffer).
(** The [end] pointer of the header and the number of bytes to download. *)
Variables (end0 remaining0 : Z).

Local Abbreviation lay := (layout device).
Local Abbreviation span := (rb_profile_end lay - rb_profile_begin lay).
Local Abbreviation base := (end0 - (remaining0 + SZ_MINIMUM)).

(** Byte [j] of the buffer stands for the address [base + j] of the ring
    buffer; from [offset] on the buffer holds the bytes stored there. *)
Definition mirrors (offset : Z) (data : buffer) : Prop :=
  forall j : Z, offset <= j < remaining0 + SZ_MINIMUM ->
    data j = mem (ring_address lay (base + j)).

Definition cursor_mirrors (remaining : Z) (c : cursor link) : Prop :=
  cursor_ok device remaining c
  /\ c_offset link c + c_nbytes link c = remaining + SZ_MINIMUM
  /\ remaining <= remaining0
  /\ (exists k : Z, c_address link c - c_offset link c = base + k * span)
  /\ mirrors (c_offset link c) (c_data link c)
  /\ holds (c_line link c) mem.

Definition traversal_mirrors (t : traversal link U) : Prop :=
  cursor_mirrors (remaining link U t) (dive_cursor link U t)
  /\ remaining link U t <= span
  /\ within_profile lay (current link U t)
  /\ within_profile lay (previous link U t)
  /\ (exists k : Z,
        previous link U t = end0 - (remaining0 - remaining link U t) + k * span).

End MirrorInvariant.

(** ** Family A: sums, pages and entries *)

(** The sum of the bytes of a list. *)
Definition byte_sum (data : list Z) : Z := fold_right Z.add 0 data.

Section Pages.

Import Atom2.

Context (PS : Z) {port : Type}.
Variables (serial_write : port -> list Z -> port) (serial_drain : port -> port)
          (serial_read : port -> Z -> Z * list Z * port).
Variable holds : port -> buffer -> Prop.

(** The device behind the port answers the read command of every page with
    the start byte, the bytes of the page in its memory and their
    checksum. *)
Definition serves_pages : Prop :=
  forall (p : port) (mem : buffer) (number : Z),
    holds p mem -> 0 <= number < 2 ^ 16 ->
    exists p' : port,
      serial_read
        (serial_drain (serial_write p (read_packet_command PS (number * PS))))
        (PS + 2)
      = (PS + 2,
         0x5A :: slice mem (number * PS) PS
           ++ [oceanic_atom2_checksum (slice mem (number * PS) PS) 0x00],
         p')
      /\ holds p' mem.

End Pages.

(** Where the byte [x - address] of a read that starts inside the ring
    buffer comes from: past the end it goes on at the begin. *)
Definition ring_wrap (rb_begin rb_end x : Z) : Z :=
  if x <? rb_end then x else rb_begin + (x - rb_end).

(** [profile_len] of the logbook entry at [logbooks + cur], as
    [oceanic_atom2_read_dives] computes it. *)
Definition profile_length (PS : Z) (logbooks : buffer) (cur : Z) : Z :=
  u32 (Atom2.RB_PROFILE_DISTANCE
         (u32 (Atom2.PT_PROFILE_FIRST logbooks cur * PS))
         (u32 (Atom2.PT_PROFILE_LAST logbooks cur * PS))
       + PS).

(** ** The samples of a record *)

(** A sample callback that writes down what it is given. *)
Definition record_samples : Memomouse.sample_callback_t (list Memomouse.sample_t) :=
  fun sample log => log ++ [sample].

(** The seconds of the time samples of a log. *)
Definition sample_times (log : list Memomouse.sample_t) : list Z :=
  flat_map (fun sample =>
              match sample with
              | Memomouse.SAMPLE_TYPE_TIME time => [time]
              | _ => []
              end) log.

(** A vendor sample points at bytes of the record. *)
Definition vendor_in_record (data : list byte) (sample : Memomouse.sample_t) : Prop :=
  match sample with
  | Memomouse.SAMPLE_TYPE_VENDOR offset size =>
      0 <= offset /\ offset + size <= Z.of_nat (length data)
      /\ size = (if Memomouse.is_oxygen (Memomouse.byte_at data 3) then 2 else 1)
  | _ => True
  end.

(** The bytes of a record after its headers, and the bytes that three
    samples take: three depth words and the vendor bytes after the third. *)
Definition profile_size (data : list byte) : Z :=
  Z.max 0 (Z.of_nat (length data)
           - (Memomouse.header_size (Memomouse.byte_at data 3) + 18)).

Definition sample_period (data : list byte) : Z :=
  if Memomouse.is_oxygen (Memomouse.byte_at data 3) then 8 else 7.

(** The depth of a 10-bit count, in metres, and the deepest one. *)
Definition depth_of_count (count : Z) : float :=
  (Memomouse.double_of count * 10 / 64)%float.

Definition within_depth_range (d : float) : bool :=
  PrimFloat.leb 0 d && PrimFloat.leb d 159.84375.

(** ** Scenarios *)

(** A nitrox record of 42 bytes whose oxygen nibble is 6: 32% oxygen. *)
Definition nitrox_record : list byte :=
  repeat x00 3 ++ [xf0] ++ repeat x00 37 ++ [x06].

(** Scenario S6: the [end] pointer of the header, [0x8000], is outside the
    ring buffer of the D9 layout; the download fails with [DATAFORMAT]
    after the three reads and without a call. *)
Definition bad_end : buffer :=
  store [SuuntoSim.header 490 3 0x8000 410; (410, SuuntoSim.dive 410 450 1 36)].

(** A Family-B callback that takes the first dive and asks to stop. *)
Definition stop_at_once : Suunto.dive_callback_t unit := fun _ _ u => (false, u).

(** A Family-A callback that keeps every dive, and the download of a
    memory image with the dives written down. *)
Definition keep_all : Atom2.dive_callback_t unit unit := fun _ u => (tt, u).

Definition logged_download (m : buffer)
  : Atom2.outcome (Atom2.oceanic_status * (unit * list (list Z)) * Atom2Sim.sim) :=
  Atom2.oceanic_atom2_read_dives Atom2Sim.packet_size Atom2Sim.packet_size_positive
    Atom2Sim.sim Atom2Sim.sim_write Atom2Sim.sim_drain Atom2Sim.sim_read
    (unit * list (list Z)) unit (Atom2Sim.powered m []) (Some (logging keep_all))
    (tt, []).

(** Three dives, the middle one self-linked: its [next] pointer is its own
    address. *)
Definition middle_incomplete : buffer :=
  store [SuuntoSim.header 490 3 530 410;
         (410, SuuntoSim.dive 410 450 1 36);
         (450, SuuntoSim.dive 410 450 2 36);
         (490, SuuntoSim.dive 450 530 3 36)].

(** The traversal at its first dive, on a simulated device: the model
    byte, the loop variables and the cursor after the package loop. *)
Definition first_dive (device : Suunto.suunto_common2_device_t) (s : SuuntoSim.sim)
  : option (Z * Suunto.traversal SuuntoSim.sim (unit * call_log)
            * Suunto.cursor SuuntoSim.sim) :=
  match Suunto.foreach_prologue SuuntoSim.sim (Some SuuntoSim.sim_packet)
          (unit * call_log) device (Some zeroed) (tt, []) s with
  | inl _ => None
  | inr (model, t) =>
      let size := Suunto.dive_size _ _ (Suunto.layout device) t in
      match Suunto.fill_loop SuuntoSim.sim (Some SuuntoSim.sim_packet)
              (Z.to_nat size) (Suunto.layout device) (Suunto.remaining _ _ t)
              size (Suunto.dive_cursor _ _ t) with
      | Some (DC_STATUS_SUCCESS, c) => Some (model, t, c)
      | _ => None
      end
  end.

(** One dive that fills the whole ring buffer of the D9 layout: [last],
    [end] and [begin] are all [0x019A], and so are the dive's two pointers. *)
Definition full_ring : buffer :=
  store [SuuntoSim.header 0x019A 1 0x019A 0x019A;
         (0x019A, le16 0x019A ++ le16 0x019A)].

(** Scenario S4: the stored fingerprint is that of the oldest of three
    dives; the two newer dives are called back and the download succeeds. *)
Definition seen_oldest : Suunto.suunto_common2_device_t :=
  {| Suunto.layout := SuuntoSim.d9_layout; Suunto.fingerprint := repeat 1 7 |}.

(** The last iteration over [three_dives]: the oldest dive, 40 bytes at
    [buffer + 8], was read with the package of the newer ones. *)
Definition at_oldest_dive : Suunto.traversal SuuntoSim.sim (unit * call_log) :=
  {| Suunto.remaining := 40; Suunto.available := 40;
     Suunto.current := 410; Suunto.previous := 450;
     Suunto.address := 410; Suunto.offset := 8;
     Suunto.status := DC_STATUS_SUCCESS;
     Suunto.data := store [(8, SuuntoSim.dive 410 450 1 36)];
     Suunto.line := SuuntoSim.powered SuuntoSim.three_dives;
     Suunto.userdata := (tt, []) |}.

(** A Family-B callback that asks for more at every dive. *)
Definition always_more {U : Type} : Suunto.dive_callback_t U :=
  fun _ _ u => (true, u).

(** A D9 whose header says that the ring buffer is empty. *)
Definition empty_ring : buffer := store [SuuntoSim.header 410 0 410 410].

(** One dive of 40 bytes that starts 20 bytes before the end of the ring
    buffer of the D9 layout and ends 20 bytes after its begin. *)
Definition wrapped_dive : buffer :=
  store [SuuntoSim.header 0x7FEA 1 0x01AE 0x7FEA;
         (0x7FEA, SuuntoSim.dive 0x7FEA 0x01AE 1 16);
         (0x019A, repeat 2 20)].

(** The traversal at that dive, on the device seen as its memory. *)
Definition at_wrapped_dive : Suunto.traversal buffer unit :=
  {| Suunto.remaining := 40; Suunto.available := 0;
     Suunto.current := 0x7FEA; Suunto.previous := 0x01AE;
     Suunto.address := 0x01AE; Suunto.offset := 48;
     Suunto.status := DC_STATUS_SUCCESS;
     Suunto.data := zeroed;
     Suunto.line := wrapped_dive;
     Suunto.userdata := tt |}.

(** The simulated Atom 2 with no scripted read left and the memory [m]. *)
Definition atom2_idle (s : Atom2Sim.sim) (m : buffer) : Prop :=
  Atom2Sim.script s = [] /\ Atom2Sim.mem s = m.

(** Scenarios: an air record with 12 bytes of profile, and one with 13. *)
Definition whole_profile : list byte := repeat x00 40 ++ repeat x10 12.
Definition cut_profile : list byte := repeat x00 40 ++ repeat x10 13.

(** * Properties *)

(** ** The definitions on small inputs *)

Example ringbuffer_distance_cases :
  ringbuffer_distance 490 530 true 410 32766 = 40
  /\ ringbuffer_distance 500 420 false 410 530 = 40
  /\ ringbuffer_distance 410 410 true 410 530 = 120
  /\ ringbuffer_distance 410 410 false 410 530 = 0.
Proof. repeat split. Qed.

Example read_command_of_a_full_package :
  Suunto.read_command 0x019A 0x78 = [0x05; 0x00; 0x03; 0x01; 0x9A; 0x78; 0xE5].
Proof. reflexivity. Qed.

Example package_cut_at_the_begin :
  Suunto.package_len unit SuuntoSim.d9_layout 200
    {| Suunto.c_address := 450; Suunto.c_offset := 100; Suunto.c_nbytes := 0;
       Suunto.c_data := zeroed; Suunto.c_line := tt |} = 40.
Proof. reflexivity. Qed.

Example package_end_wraps_at_the_begin :
  Suunto.package_end unit SuuntoSim.d9_layout
    {| Suunto.c_address := 0x019A; Suunto.c_offset := 100; Suunto.c_nbytes := 0;
       Suunto.c_data := zeroed; Suunto.c_line := tt |} = 0x7FFE.
Proof. reflexivity. Qed.

Example atom2_checksum_wraps :
  Atom2.oceanic_atom2_checksum [0xFF; 0x02; 0x10] 0 = 0x11.
Proof. reflexivity. Qed.

Example read_packet_command_of_a_page :
  Atom2.read_packet_command 16 0x0A50 = [0xB1; 0x00; 0xA5; 0x00].
Proof. reflexivity. Qed.

Example profile_pointers_of_an_entry :
  Atom2.PT_PROFILE_FIRST (bytes (Atom2Sim.entry 0xA6 0xA7 8)) 0 = 0xA6
  /\ Atom2.PT_PROFILE_LAST (bytes (Atom2Sim.entry 0xA6 0xA7 8)) 0 = 0xA7.
Proof. split; reflexivity. Qed.

Example divetime_field :
  Memomouse.uwatec_memomouse_parser_get_field
    (repeat x00 4 ++ [x04; x25] ++ repeat x00 12) Memomouse.FIELD_TYPE_DIVETIME true
  = (DC_STATUS_SUCCESS, Some (Memomouse.value_uint ((100 + 25) * 60))).
Proof. reflexivity. Qed.

Example maxdepth_field :
  Memomouse.uwatec_memomouse_parser_get_field
    (repeat x00 6 ++ [x0a; x00] ++ repeat x00 10) Memomouse.FIELD_TYPE_MAXDEPTH true
  = (DC_STATUS_SUCCESS, Some (Memomouse.value_double 6.25%float)).
Proof. vm_compute; reflexivity. Qed.

Example short_record_rejected :
  Memomouse.uwatec_memomouse_parser_get_field (repeat x00 17)
    Memomouse.FIELD_TYPE_GASMIX true
  = (DC_STATUS_DATAFORMAT, None).
Proof. reflexivity. Qed.

(** ** Bytes, slices and status codes *)

Lemma dc_status_eqb_eq (a b : dc_status_t) : dc_status_eqb a b = true <-> a = b.
Proof. destruct a, b; cbn; split; intros H; try reflexivity; discriminate H. Qed.

Lemma dc_status_eqb_refl (a : dc_status_t) : dc_status_eqb a a = true.
Proof. now apply dc_status_eqb_eq. Qed.

Lemma slice_length (b : buffer) (off n : Z) : length (slice b off n) = Z.to_nat n.
Proof. unfold slice. now rewrite length_map, length_seq. Qed.

Lemma map_nth_seq (l : list Z) (start : nat) :
  map (fun k => nth (k - start) l 0) (seq start (length l)) = l.
Proof.
  revert start; induction l as [| x l IH]; intros start; cbn [length seq map];
    [reflexivity |].
  rewrite Nat.sub_diag; cbn [nth]; f_equal.
  rewrite <- (IH (S start)) at 2.
  apply map_ext_in; intros k Hk; apply in_seq in Hk.
  replace (k - start)%nat with (S (k - S start)) by lia; reflexivity.
Qed.

Lemma slice_bytes (l : list Z) : slice (bytes l) 0 (Z.of_nat (length l)) = l.
Proof.
  unfold slice; rewrite Nat2Z.id.
  rewrite <- (map_nth_seq l 0) at 2.
  apply map_ext; intros k; unfold bytes.
  destruct (0 + Z.of_nat k <? 0) eqn:E; [apply Z.ltb_lt in E; lia |].
  now rewrite Z.add_0_l, Nat2Z.id, Nat.sub_0_r.
Qed.

Lemma slice_zeroed (off n : Z) : slice zeroed off n = repeat 0 (Z.to_nat n).
Proof.
  unfold slice, zeroed; generalize (Z.to_nat n) as k, 0%nat as start.
  induction k as [| k IH]; intros start; cbn [seq map repeat];
    [reflexivity | now rewrite IH].
Qed.

(** ** The record parser: gas mix fractions *)

Section Gasmix.

Import Memomouse.

Lemma percentage_sums_to_one (b : byte) :
  sums_to_one (double_of (Z.of_N (Byte.to_N b)) / 100)%float.
Proof. destruct b; vm_compute; reflexivity. Qed.

Lemma nibble_sums_to_one (b : byte) :
  let nibble := Z.land (Z.of_N (Byte.to_N b)) 0x0F in
  sums_to_one
    ((if negb (Z.eqb nibble 0) then 20 + double_of (Z.mul 2 nibble) else 21) / 100)%float.
Proof. destruct b; vm_compute; reflexivity. Qed.

Lemma air_sums_to_one : sums_to_one double_0_21.
Proof. vm_compute; reflexivity. Qed.

Lemma gasmix_oxygen_sums_to_one (data : list byte) :
  sums_to_one (gasmix_oxygen data).
Proof.
  unfold gasmix_oxygen, byte_at.
  destruct (_ <=? _); [| exact air_sums_to_one].
  destruct (is_oxygen _); [apply percentage_sums_to_one |].
  destruct (is_nitrox _); [apply nibble_sums_to_one | exact air_sums_to_one].
Qed.

(** C9.  Whenever [uwatec_memomouse_parser_get_field] succeeds and stores a
    gas mix, the helium fraction is 0 and the binary64 sum
    [oxygen + helium + nitrogen] is exactly 1.0; this covers the fixed 21%,
    the percentage byte, the nibble [20 + 2 n] and the records too short to
    carry an oxygen byte. *)
Theorem gasmix_fractions_sum_to_one :
  forall (data : list byte) (type : parser_field_type_t) (value : bool)
         (g : gasmix_t),
    uwatec_memomouse_parser_get_field data type value
      = (DC_STATUS_SUCCESS, Some (value_gasmix g)) ->
    helium g = 0%float /\ (oxygen g + helium g + nitrogen g)%float = 1%float.
Proof.
  intros data type value g.
  unfold uwatec_memomouse_parser_get_field.
  destruct (_ <? 18); [discriminate |].
  destruct value; [| discriminate].
  destruct type; try discriminate.
  intros H; injection H as <-; cbn [helium oxygen nitrogen].
  split; [reflexivity | apply gasmix_oxygen_sums_to_one].
Qed.

Lemma gasmix_fractions_sum_to_one_witness :
  exists g : gasmix_t,
    uwatec_memomouse_parser_get_field nitrox_record FIELD_TYPE_GASMIX true
      = (DC_STATUS_SUCCESS, Some (value_gasmix g))
    /\ oxygen g = 0x1.47ae147ae147bp-2%float   (* 0.32 *)
    /\ helium g = 0%float
    /\ (oxygen g + helium g + nitrogen g)%float = 1%float.
Proof.
  eexists; split; [vm_compute; reflexivity |].
  split; [vm_compute; reflexivity |].
  apply (gasmix_fractions_sum_to_one nitrox_record FIELD_TYPE_GASMIX true).
  vm_compute; reflexivity.
Defined.

(** The other encodings, on records of the three model kinds. *)
Example gasmix_of_oxygen_record :
  gasmix_oxygen (repeat x00 3 ++ [xa0] ++ repeat x00 37 ++ [x64; x00])
  = 1%float.
Proof. vm_compute; reflexivity. Qed.

Example gasmix_of_air_record :
  gasmix_oxygen (repeat x00 40) = double_0_21.
Proof. vm_compute; reflexivity. Qed.

Example gasmix_of_short_record :
  gasmix_oxygen (repeat x00 3 ++ [xf0] ++ repeat x00 14) = double_0_21.
Proof. vm_compute; reflexivity. Qed.

End Gasmix.

(** ** Family B: the stored fingerprint *)

Section Fingerprint.

Import Suunto.

(** C10.  [suunto_common2_device_set_fingerprint]: size 0 resets the stored
    fingerprint to zero bytes and succeeds; the fingerprint width copies
    the given bytes and succeeds; any other size is [INVALIDARGS] and the
    device is unchanged. *)
Theorem set_fingerprint_cases :
  forall (SZ_FINGERPRINT : Z) (device : suunto_common2_device_t)
         (data : list Z) (size : Z),
    (size = 0 ->
       suunto_common2_device_set_fingerprint SZ_FINGERPRINT device data size
       = (DC_STATUS_SUCCESS,
          {| layout := layout device;
             fingerprint := repeat 0 (Z.to_nat SZ_FINGERPRINT) |}))
    /\ (size <> 0 -> size = SZ_FINGERPRINT -> Z.of_nat (length data) = size ->
       suunto_common2_device_set_fingerprint SZ_FINGERPRINT device data size
       = (DC_STATUS_SUCCESS, {| layout := layout device; fingerprint := data |}))
    /\ (size <> 0 -> size <> SZ_FINGERPRINT ->
       suunto_common2_device_set_fingerprint SZ_FINGERPRINT device data size
       = (DC_STATUS_INVALIDARGS, device)).
Proof.
  intros fpsz device data size; unfold suunto_common2_device_set_fingerprint.
  repeat split.
  - intros ->; cbn [Z.eqb negb andb]. now rewrite slice_zeroed.
  - intros Hnz <- Hlen.
    apply Z.eqb_neq in Hnz; rewrite Hnz, Z.eqb_refl; cbn [negb andb].
    now rewrite <- Hlen, slice_bytes.
  - intros Hnz Hne.
    apply Z.eqb_neq in Hnz, Hne; now rewrite Hnz, Hne.
Qed.

Lemma set_fingerprint_cases_witness :
  let device := SuuntoSim.fresh SuuntoSim.d9_layout in
  let stamp := [9; 3; 14; 10; 30; 0; 7] in
  suunto_common2_device_set_fingerprint 7 device stamp 7
  = (DC_STATUS_SUCCESS, {| layout := layout device; fingerprint := stamp |})
  /\ suunto_common2_device_set_fingerprint 7 device stamp 5
     = (DC_STATUS_INVALIDARGS, device)
  /\ suunto_common2_device_set_fingerprint 7 device stamp 0
     = (DC_STATUS_SUCCESS,
        {| layout := layout device; fingerprint := [0; 0; 0; 0; 0; 0; 0] |}).
Proof.
  intros device stamp.
  destruct (set_fingerprint_cases 7 device stamp 7) as (_ & Hcopy & _).
  destruct (set_fingerprint_cases 7 device stamp 5) as (_ & _ & Hbad).
  destruct (set_fingerprint_cases 7 device stamp 0) as (Hzero & _).
  split; [apply Hcopy; [discriminate | reflexivity | reflexivity] |].
  split; [apply Hbad; discriminate | apply Hzero; reflexivity].
Defined.

End Fingerprint.

(** ** Packet transfer with retry *)

(** The loop of [suunto_common2_transfer] ends at the first attempt that
    is not tried again, or at the last one allowed. *)
Section SuuntoAttempts.

Import Suunto.

Context {link : Type} (packet : packet_t link).
Variables (command : list Z) (asize size : Z).

Local Abbreviation line_before := (line_before packet command asize size).
Local Abbreviation attempt := (attempt packet command asize size).

Lemma retried_dec (rc : dc_status_t) :
  {retried rc} + {rc = DC_STATUS_SUCCESS \/ ~ retried rc /\ rc <> DC_STATUS_SUCCESS}.
Proof.
  unfold retried; destruct rc;
    first [ left; auto; fail
          | right; left; reflexivity
          | right; right; split; [intros [H | H]; discriminate H | discriminate] ].
Qed.

Lemma transfer_attempts_stop (n : nat) (l : link) :
  ~ retried (fst (fst (packet l command asize size))) ->
  transfer_attempts link packet n l command asize size
  = packet l command asize size.
Proof.
  intros H; destruct n; cbn [transfer_attempts];
    destruct (packet l command asize size) as [[rc answer] l']; cbn [fst] in H;
    destruct rc; try reflexivity; exfalso; apply H; unfold retried; auto.
Qed.

Lemma transfer_attempts_retry (n : nat) (l : link) :
  retried (fst (fst (packet l command asize size))) ->
  transfer_attempts link packet (S n) l command asize size
  = transfer_attempts link packet n (snd (packet l command asize size))
      command asize size.
Proof.
  intros H; cbn [transfer_attempts].
  destruct (packet l command asize size) as [[rc answer] l']; cbn [fst snd] in *.
  destruct H as [-> | ->]; reflexivity.
Qed.

Lemma transfer_attempts_last (l : link) :
  transfer_attempts link packet 0 l command asize size
  = packet l command asize size.
Proof.
  cbn [transfer_attempts].
  destruct (packet l command asize size) as [[rc answer] l']; destruct rc; reflexivity.
Qed.

Lemma transfer_attempts_policy (n : nat) (l : link) :
  exists k : nat,
    (k <= n)%nat
    /\ transfer_attempts link packet n l command asize size = attempt k l
    /\ (forall j : nat, (j < k)%nat -> retried (fst (fst (attempt j l))))
    /\ ((k < n)%nat -> ~ retried (fst (fst (attempt k l)))).
Proof.
  revert l; induction n as [| n IH]; intros l.
  - exists 0%nat; repeat split; [lia | apply transfer_attempts_last | lia | lia].
  - destruct (retried_dec (fst (fst (packet l command asize size)))) as [Hr | Hs].
    + destruct (IH (snd (packet l command asize size))) as (k & Hk & Heq & Hbefore & Hstop).
      exists (S k); repeat split.
      * lia.
      * now rewrite transfer_attempts_retry.
      * intros [| j] Hj; [exact Hr | apply Hbefore; lia].
      * intros Hlt; apply Hstop; lia.
    + assert (Hn : ~ retried (fst (fst (packet l command asize size)))).
      { destruct Hs as [Hs | [Hs _]]; [rewrite Hs; intros [H | H]; discriminate H | exact Hs]. }
      exists 0%nat; repeat split; [lia | now apply transfer_attempts_stop | lia | auto].
Qed.

End SuuntoAttempts.

Section Atom2Attempts.

Import Atom2.

Context {port : Type}.
Variables (serial_write : port -> list Z -> port) (serial_drain : port -> port)
          (serial_read : port -> Z -> Z * list Z * port).
Variables (command : list Z) (asize : Z) (handshake : bool).

Local Abbreviation exchange :=
  (exchange serial_write serial_drain serial_read command asize).
Local Abbreviation port_before :=
  (port_before serial_write serial_drain serial_read command asize).
Local Abbreviation verdict := (@verdict port asize handshake).
Local Abbreviation judged := (@judged port asize handshake).

Lemma atom2_attempts_stop (n : nat) (p : port) :
  verdict (exchange p) <> OCEANIC_ERROR_TIMEOUT ->
  transfer_attempts port serial_write serial_drain serial_read n p command asize handshake
  = judged (exchange p).
Proof.
  unfold judged, verdict, exchange; intros H.
  destruct n; cbn [transfer_attempts oceanic_atom2_send oceanic_status_eqb negb];
    destruct (serial_read _ _) as [[k answer] p']; cbn [fst snd];
    destruct (negb (u32 k =? asize));
    try (destruct (k =? -1); [reflexivity | now exfalso]);
    destruct (negb (nth 0 answer 0 =? _)); try reflexivity;
    destruct (negb (bytes answer (asize - 1) =? _)); reflexivity.
Qed.

Lemma atom2_attempts_retry (n : nat) (p : port) :
  verdict (exchange p) = OCEANIC_ERROR_TIMEOUT ->
  transfer_attempts port serial_write serial_drain serial_read (S n) p command asize handshake
  = transfer_attempts port serial_write serial_drain serial_read n
      (snd (exchange p)) command asize handshake.
Proof.
  unfold verdict, exchange; intros H.
  cbn [transfer_attempts oceanic_atom2_send oceanic_status_eqb negb].
  destruct (serial_read _ _) as [[k answer] p']; cbn [fst snd].
  destruct (negb (u32 k =? asize)).
  - destruct (k =? -1); [discriminate H | reflexivity].
  - destruct (negb (nth 0 answer 0 =? _)); [discriminate H |].
    destruct (negb (bytes answer (asize - 1) =? _)); discriminate H.
Qed.

Lemma atom2_attempts_last (p : port) :
  transfer_attempts port serial_write serial_drain serial_read 0 p command asize handshake
  = judged (exchange p).
Proof.
  unfold judged, verdict, exchange.
  cbn [transfer_attempts oceanic_atom2_send oceanic_status_eqb negb].
  destruct (serial_read _ _) as [[k answer] p']; cbn [fst snd].
  destruct (negb (u32 k =? asize)); [destruct (k =? -1); reflexivity |].
  destruct (negb (nth 0 answer 0 =? _)); [reflexivity |].
  destruct (negb (bytes answer (asize - 1) =? _)); reflexivity.
Qed.

Lemma atom2_attempts_policy (n : nat) (p : port) :
  exists k : nat,
    (k <= n)%nat
    /\ transfer_attempts port serial_write serial_drain serial_read n p command asize handshake
       = judged (exchange (port_before k p))
    /\ (forall j : nat, (j < k)%nat ->
          verdict (exchange (port_before j p)) = OCEANIC_ERROR_TIMEOUT)
    /\ ((k < n)%nat ->
          verdict (exchange (port_before k p)) <> OCEANIC_ERROR_TIMEOUT).
Proof.
  revert p; induction n as [| n IH]; intros p.
  - exists 0%nat; repeat split; [lia | apply atom2_attempts_last | lia | lia].
  - destruct (oceanic_status_eqb (verdict (exchange p)) OCEANIC_ERROR_TIMEOUT) eqn:E.
    + assert (Ht : verdict (exchange p) = OCEANIC_ERROR_TIMEOUT)
        by (destruct (verdict (exchange p)); try discriminate E; reflexivity).
      destruct (IH (snd (exchange p))) as (k & Hk & Heq & Hbefore & Hstop).
      exists (S k); repeat split.
      * lia.
      * now rewrite atom2_attempts_retry.
      * intros [| j] Hj; [exact Ht | apply Hbefore; lia].
      * intros Hlt; apply Hstop; lia.
    + assert (Hn : verdict (exchange p) <> OCEANIC_ERROR_TIMEOUT)
        by (intros Ht; rewrite Ht in E; discriminate E).
      exists 0%nat; repeat split; [lia | now apply atom2_attempts_stop | lia | auto].
Qed.

End Atom2Attempts.

(** C3, as the code has it.  Family B ([suunto_common2_transfer]): the
    result is that of attempt [k] for some [k <= MAXRETRIES = 2], so of at
    most three attempts; every attempt before it ended in [TIMEOUT] or
    [PROTOCOL]; and it is the last attempt allowed unless it ended in
    something else (success, or an error such as [IO], returned at once).
    Family A ([oceanic_atom2_transfer]): the same with [k <= 2], but only a
    short read ([TIMEOUT]) is tried again; an I/O error, a wrong start byte
    and a wrong checksum ([PROTOCOL]) are returned at once. *)
Theorem transfer_retry_policy :
  Suunto.MAXRETRIES = 2%nat /\ Atom2.MAXRETRIES = 2%nat
  /\ (forall (link : Type) (packet : Suunto.packet_t link) (l : link)
             (command : list Z) (asize size : Z),
        exists k : nat,
          (k <= Suunto.MAXRETRIES)%nat
          /\ Suunto.suunto_common2_transfer link (Some packet) l command asize size
             = attempt packet command asize size k l
          /\ (forall j : nat, (j < k)%nat ->
                retried (fst (fst (attempt packet command asize size j l))))
          /\ ((k < Suunto.MAXRETRIES)%nat ->
                ~ retried (fst (fst (attempt packet command asize size k l)))))
  /\ (forall (port : Type) (serial_write : port -> list Z -> port)
             (serial_drain : port -> port)
             (serial_read : port -> Z -> Z * list Z * port)
             (p : port) (command : list Z) (asize : Z) (handshake : bool),
        let exchange := exchange serial_write serial_drain serial_read command asize in
        let before := port_before serial_write serial_drain serial_read command asize in
        exists k : nat,
          (k <= Atom2.MAXRETRIES)%nat
          /\ Atom2.oceanic_atom2_transfer port serial_write serial_drain serial_read
               p command asize handshake
             = judged asize handshake (exchange (before k p))
          /\ (forall j : nat, (j < k)%nat ->
                verdict asize handshake (exchange (before j p))
                = Atom2.OCEANIC_ERROR_TIMEOUT)
          /\ ((k < Atom2.MAXRETRIES)%nat ->
                verdict asize handshake (exchange (before k p))
                <> Atom2.OCEANIC_ERROR_TIMEOUT)).
Proof.
  split; [reflexivity |]; split; [reflexivity |]; split.
  - intros link packet l command asize size.
    apply transfer_attempts_policy.
  - intros port sw sd sr p command asize handshake; cbv zeta.
    apply atom2_attempts_policy.
Qed.

(** The specification as written fails for Family A: the first answer has
    the right length and a wrong start byte; the transfer ends in
    [OCEANIC_ERROR_PROTOCOL] after one read, although the same command sent
    again on the port it leaves behind succeeds. *)
Lemma atom2_protocol_error_not_retried :
  let s := Atom2Sim.powered Atom2Sim.one_dive [(18, repeat 0 18)] in
  let again := snd (Atom2Sim.transfer s [0xB1; 0x00; 0x24; 0x00] 18) in
  fst (fst (Atom2Sim.transfer s [0xB1; 0x00; 0x24; 0x00] 18))
  = Atom2.OCEANIC_ERROR_PROTOCOL
  /\ Atom2Sim.reads again = 1
  /\ fst (fst (Atom2Sim.transfer again [0xB1; 0x00; 0x24; 0x00] 18))
     = Atom2.OCEANIC_SUCCESS.
Proof. vm_compute. repeat split. Qed.

(** Scenario S5, Family B: the first packet times out and the second is
    answered; the transfer succeeds at its second attempt. *)
Lemma transfer_retry_policy_witness :
  let s := {| SuuntoSim.mem := SuuntoSim.three_dives; SuuntoSim.ident := [0x0E; 1; 2; 3];
              SuuntoSim.faults := [DC_STATUS_TIMEOUT]; SuuntoSim.received := [] |} in
  exists k : nat,
    (k <= 2)%nat
    /\ Suunto.suunto_common2_transfer _ (Some SuuntoSim.sim_packet) s
         Suunto.version_command 8 4
       = attempt SuuntoSim.sim_packet Suunto.version_command 8 4 k s
    /\ fst (fst (attempt SuuntoSim.sim_packet Suunto.version_command 8 4 k s))
       = DC_STATUS_SUCCESS
    /\ length (SuuntoSim.received
                 (snd (attempt SuuntoSim.sim_packet Suunto.version_command 8 4 k s)))
       = 2%nat.
Proof.
  intros s.
  destruct transfer_retry_policy as (_ & _ & Hb & _).
  destruct (Hb SuuntoSim.sim SuuntoSim.sim_packet s Suunto.version_command 8 4)
    as (k & Hk & Heq & Hbefore & Hstop).
  exists k; split; [exact Hk |]; split; [exact Heq |].
  rewrite <- Heq; vm_compute; split; reflexivity.
Defined.

(** ** Family B: the memory reader *)

Lemma u32_small (x : Z) : 0 <= x < 2 ^ 32 -> u32 x = x.
Proof. intros H; unfold u32; now apply Z.mod_small. Qed.

Lemma u32_range (x : Z) : 0 <= u32 x < 2 ^ 32.
Proof. unfold u32; apply Z.mod_pos_bound; lia. Qed.

Lemma u32_add_l (x y : Z) : u32 (u32 x + y) = u32 (x + y).
Proof. unfold u32; apply Z.add_mod_idemp_l; lia. Qed.

Lemma slice_memcpy (d : buffer) (a : Z) (src : list Z) (n k m : Z) :
  0 <= k -> k + m <= n ->
  slice (memcpy d a src n) (a + k) m = slice (bytes src) k m.
Proof.
  intros Hk Hm; unfold slice; apply map_ext_in; intros i Hi; apply in_seq in Hi.
  unfold memcpy, bytes.
  assert (Hlo : (a <=? a + k + Z.of_nat i) = true) by (apply Z.leb_le; lia).
  assert (Hhi : (a + k + Z.of_nat i <? a + n) = true) by (apply Z.ltb_lt; lia).
  assert (Hneg : (k + Z.of_nat i <? 0) = false) by (apply Z.ltb_ge; lia).
  rewrite Hlo, Hhi, Hneg; cbn [andb]; f_equal; lia.
Qed.

Lemma map_seq_shift {A : Type} (f : nat -> A) (k start n : nat) :
  map f (seq (start + k) n) = map (fun i => f (i + k)%nat) (seq start n).
Proof.
  revert start; induction n as [| n IH]; intros start; cbn [seq map];
    [reflexivity |].
  f_equal; apply (IH (S start)).
Qed.

Lemma skipn_slice (b : buffer) (off n k : Z) :
  0 <= k <= n ->
  skipn (Z.to_nat k) (slice b off n) = slice b (off + k) (n - k).
Proof.
  intros Hk; unfold slice.
  rewrite skipn_map, skipn_seq.
  replace (Z.to_nat n - Z.to_nat k)%nat with (Z.to_nat (n - k)) by lia.
  rewrite (map_seq_shift _ (Z.to_nat k) 0).
  apply map_ext; intros i; f_equal; lia.
Qed.

Lemma chunks_empty (address size : Z) : size <= 0 -> chunks address size = [].
Proof.
  intros H; unfold chunks, chunk_count, Suunto.SZ_PACKET.
  replace (Z.to_nat ((size + 120 - 1) / 120)) with 0%nat; [reflexivity |].
  assert ((size + 120 - 1) / 120 <= 0); [| lia].
  apply Z.lt_succ_r, Z.div_lt_upper_bound; lia.
Qed.

Lemma chunks_step (address size : Z) :
  0 <= address < 2 ^ 32 -> 0 < size ->
  let len := Z.min Suunto.SZ_PACKET size in
  chunks address size = (address, len) :: chunks (u32 (address + len)) (size - len).
Proof.
  intros Ha Hs len.
  assert (Hhead : chunk address size 0 = (address, len)).
  { unfold chunk; rewrite Z.mul_0_l, Z.add_0_r, Z.sub_0_r; f_equal; now apply u32_small. }
  unfold Suunto.SZ_PACKET in len.
  destruct (Z.min_spec 120 size) as [[H Hmin] | [H Hmin]]; fold len in Hmin.
  - (* more than one packet *)
    unfold chunks, chunk_count, Suunto.SZ_PACKET.
    replace (size + 120 - 1) with (size - len + 120 - 1 + 1 * 120) by lia.
    rewrite Z.div_add by lia.
    assert (Hn : 0 <= (size - len + 120 - 1) / 120) by (apply Z.div_pos; lia).
    replace (Z.to_nat ((size - len + 120 - 1) / 120 + 1))
      with (S (Z.to_nat ((size - len + 120 - 1) / 120))) by lia.
    cbn [seq map Z.of_nat].
    rewrite Hhead; f_equal.
    rewrite (map_seq_shift _ 1 0).
    apply map_ext; intros i; unfold chunk, Suunto.SZ_PACKET.
    rewrite u32_add_l; f_equal; [f_equal |]; lia.
  - (* the last packet *)
    rewrite (chunks_empty _ (size - len)) by lia.
    unfold chunks, chunk_count, Suunto.SZ_PACKET.
    replace ((size + 120 - 1) / 120) with 1.
    + change (Z.to_nat 1) with 1%nat; cbn [seq map Z.of_nat]; now rewrite Hhead.
    + apply Z.div_unique with (r := size - 1); lia.
Qed.

Section Reader.

Import Suunto.

Context {link : Type} (backend_packet : option (packet_t link)).

Local Abbreviation transfer := (suunto_common2_transfer link backend_packet).
Local Abbreviation read_loop := (read_loop link backend_packet).
Local Abbreviation device_read := (suunto_common2_device_read link backend_packet).
Local Abbreviation read_chunks := (read_chunks backend_packet).

Lemma read_loop_unfold (l : link) (address : Z) (data : buffer) (at_ size nbytes : Z) :
  read_loop l address data at_ size nbytes =
  if nbytes <? size then
    let len := if SZ_PACKET <? size - nbytes then SZ_PACKET else size - nbytes in
    let '(rc, answer, l') := transfer l (read_command address len) (len + 7) len in
    if negb (dc_status_eqb rc DC_STATUS_SUCCESS) then (rc, data, l')
    else read_loop l' (u32 (address + len)) (memcpy data at_ (skipn 6 answer) len)
           (at_ + len) size (nbytes + len)
  else (DC_STATUS_SUCCESS, data, l).
Proof.
  rewrite read_loop_equation_1.
  destruct (inspect (nbytes <? size)) as [[] e]; simp read_loop; rewrite e; reflexivity.
Qed.

(** Only the number of bytes still to read matters. *)
Lemma read_loop_shift (n : nat) :
  forall (l : link) (address : Z) (data : buffer) (at_ size nbytes : Z),
    (Z.to_nat (size - nbytes) <= n)%nat ->
    read_loop l address data at_ size nbytes
    = read_loop l address data at_ (size - nbytes) 0.
Proof.
  induction n as [| n IH]; intros l address data at_ size nbytes Hn;
    rewrite (read_loop_unfold l address data at_ size nbytes),
            (read_loop_unfold l address data at_ (size - nbytes) 0).
  - assert (E : (nbytes <? size) = false) by (apply Z.ltb_ge; lia).
    assert (E' : (0 <? size - nbytes) = false) by (apply Z.ltb_ge; lia).
    now rewrite E, E'.
  - destruct (nbytes <? size) eqn:E.
    + assert (E' : (0 <? size - nbytes) = true) by (apply Z.ltb_lt in E; apply Z.ltb_lt; lia).
      rewrite E', Z.sub_0_r; cbv zeta.
      set (len := if SZ_PACKET <? size - nbytes then SZ_PACKET else size - nbytes).
      assert (Hlen : 0 < len <= size - nbytes).
      { apply Z.ltb_lt in E; subst len; unfold SZ_PACKET.
        destruct (120 <? size - nbytes) eqn:E2;
          [apply Z.ltb_lt in E2 | apply Z.ltb_ge in E2]; lia. }
      destruct (transfer l (read_command address len) (len + 7) len) as [[rc answer] l'].
      destruct (negb (dc_status_eqb rc DC_STATUS_SUCCESS)); [reflexivity |].
      rewrite (IH l' _ _ _ size (nbytes + len)) by lia.
      rewrite (IH l' _ _ _ (size - nbytes) (0 + len)) by lia.
      f_equal; lia.
    + assert (E' : (0 <? size - nbytes) = false) by (apply Z.ltb_ge in E; apply Z.ltb_ge; lia).
      now rewrite E'.
Qed.

Lemma read_loop_chunks (n : nat) :
  forall (l : link) (address : Z) (data : buffer) (at_ size : Z),
    (Z.to_nat size <= n)%nat -> 0 <= address < 2 ^ 32 ->
    read_loop l address data at_ size 0
    = read_chunks l data at_ (chunks address size).
Proof.
  induction n as [| n IH]; intros l address data at_ size Hn Ha;
    rewrite read_loop_unfold.
  - assert (E : (0 <? size) = false) by (apply Z.ltb_ge; lia).
    rewrite E, chunks_empty by lia; reflexivity.
  - destruct (0 <? size) eqn:E.
    + apply Z.ltb_lt in E.
      rewrite (chunks_step address size Ha E); cbv zeta; cbn [read_chunks].
      rewrite Z.sub_0_r.
      assert (Hlen : (if SZ_PACKET <? size then SZ_PACKET else size) = Z.min SZ_PACKET size).
      { destruct (SZ_PACKET <? size) eqn:E2;
          [apply Z.ltb_lt in E2 | apply Z.ltb_ge in E2]; lia. }
      rewrite Hlen.
      assert (0 < Z.min SZ_PACKET size <= size) by (unfold SZ_PACKET; lia).
      destruct (transfer l _ _ _) as [[rc answer] l'].
      destruct (negb (dc_status_eqb rc DC_STATUS_SUCCESS)); [reflexivity |].
      rewrite (read_loop_shift (S n)) by lia.
      rewrite Z.add_0_l.
      apply IH; [lia | apply u32_range].
    + apply Z.ltb_ge in E; rewrite chunks_empty by lia; reflexivity.
Qed.

Lemma chunks_length (address size : Z) :
  Z.of_nat (length (chunks address size))
  = Z.max 0 ((size + SZ_PACKET - 1) / SZ_PACKET).
Proof. unfold chunks, chunk_count; rewrite length_map, length_seq; lia. Qed.

Lemma chunks_sizes (address size : Z) :
  Forall (fun c : Z * Z =>
            0 < snd c <= SZ_PACKET
            /\ nth 5 (read_command (fst c) (snd c)) 0 = snd c)
         (chunks address size).
Proof.
  apply Forall_forall; intros c Hc.
  unfold chunks in Hc; apply in_map_iff in Hc; destruct Hc as (i & <- & Hi).
  apply in_seq in Hi; unfold chunk_count, chunk, SZ_PACKET in *; cbn [fst snd].
  assert (Hle : 120 * ((size + 120 - 1) / 120) <= size + 120 - 1)
    by (apply Z.mul_div_le; lia).
  assert (Hlen : 0 < Z.min 120 (size - Z.of_nat i * 120) <= 120) by lia.
  split; [exact Hlen |].
  cbn [read_command nth app]; unfold u8; apply Z.mod_small; lia.
Qed.

(** A package shorter than [SZ_MINIMUM]: one command asks for
    [SZ_MINIMUM] bytes, [extra] bytes before the package. *)
Lemma fill_loop_short_package (fuel : nat)
    (layout : suunto_common2_layout_t) (remaining size : Z) (c : cursor link) :
  c_nbytes link c < size ->
  let len := package_len link layout remaining c in
  0 <= len < SZ_MINIMUM ->
  let extra := SZ_MINIMUM - len in
  let address := u32 (package_end link layout c - len) in
  let offset := u32 (c_offset link c - len) in
  let r := transfer (c_line link c)
             (read_command (u32 (address - extra)) SZ_MINIMUM)
             (SZ_MINIMUM + 7) SZ_MINIMUM in
  let data := memcpy (c_data link c) (offset - extra) (skipn 6 (snd (fst r))) SZ_MINIMUM in
  fill_loop link backend_packet (S fuel) layout remaining size c
  = (if negb (dc_status_eqb (fst (fst r)) DC_STATUS_SUCCESS) then
       Some (fst (fst r),
             {| c_address := address; c_offset := offset;
                c_nbytes := c_nbytes link c; c_data := c_data link c;
                c_line := snd r |})
     else
       fill_loop link backend_packet fuel layout remaining size
         {| c_address := address; c_offset := offset;
            c_nbytes := u32 (c_nbytes link c + len); c_data := data;
            c_line := snd r |})
  /\ slice data offset len
     = skipn (Z.to_nat extra) (slice (bytes (skipn 6 (snd (fst r)))) 0 SZ_MINIMUM).
Proof.
  intros Hn len Hlen extra address offset r data; split.
  - cbn [fill_loop].
    assert (E : (c_nbytes link c <? size) = true) by now apply Z.ltb_lt.
    rewrite E; fold len; fold offset; fold address.
    unfold package_extra.
    assert (E2 : (len <? SZ_MINIMUM) = true) by (apply Z.ltb_lt; lia).
    rewrite E2; fold extra.
    replace (u32 (len + extra)) with SZ_MINIMUM
      by (subst extra; replace (len + (SZ_MINIMUM - len)) with SZ_MINIMUM by lia; reflexivity).
    unfold suunto_common2_device_read.
    rewrite read_loop_unfold.
    change (0 <? SZ_MINIMUM) with true; cbv iota.
    change (if SZ_PACKET <? SZ_MINIMUM - 0 then SZ_PACKET else SZ_MINIMUM - 0)
      with SZ_MINIMUM; cbv zeta.
    subst data; fold r; destruct r as [[rc answer] l']; cbn [fst snd].
    destruct (negb (dc_status_eqb rc DC_STATUS_SUCCESS)) eqn:Erc.
    + cbv beta iota; now rewrite Erc.
    + rewrite read_loop_unfold.
      change (0 + SZ_MINIMUM <? SZ_MINIMUM) with false; cbv beta iota.
      reflexivity.
  - subst data.
    set (base := offset - extra).
    replace offset with (base + extra) by (subst base; lia).
    rewrite slice_memcpy by (subst extra; unfold SZ_MINIMUM in *; lia).
    rewrite skipn_slice by (subst extra; unfold SZ_MINIMUM in *; lia).
    f_equal; subst extra; lia.
Qed.

End Reader.

(** C8, as the code has it.  [suunto_common2_device_read] follows the plan
    of [ceil (size / SZ_PACKET)] chunks, and each chunk's command asks for
    the chunk's own length at the chunk's own address: there is no minimum.
    The minimum is kept by the caller, the package loop of
    [suunto_common2_device_foreach]: for a package of [len < SZ_MINIMUM]
    bytes it reads [SZ_MINIMUM] bytes starting [SZ_MINIMUM - len] bytes
    before the package, stores them that much before [data + offset], and
    counts [len] bytes only, so that the package is the trailing [len]
    bytes of what was read. *)
Theorem read_splits_and_caller_pads :
  forall (link : Type) (backend_packet : option (Suunto.packet_t link)),
    (forall (l : link) (address : Z) (data : buffer) (at_ size : Z),
        0 <= address < 2 ^ 32 ->
        Suunto.suunto_common2_device_read link backend_packet l address data at_ size
        = read_chunks backend_packet l data at_ (chunks address size)
        /\ Z.of_nat (length (chunks address size))
           = Z.max 0 ((size + Suunto.SZ_PACKET - 1) / Suunto.SZ_PACKET)
        /\ Forall (fun c : Z * Z =>
                     0 < snd c <= Suunto.SZ_PACKET
                     /\ nth 5 (Suunto.read_command (fst c) (snd c)) 0 = snd c)
                  (chunks address size))
    /\ (forall (fuel : nat) (layout : Suunto.suunto_common2_layout_t)
               (remaining size : Z) (c : Suunto.cursor link),
          Suunto.c_nbytes link c < size ->
          let len := Suunto.package_len link layout remaining c in
          0 <= len < Suunto.SZ_MINIMUM ->
          let extra := Suunto.SZ_MINIMUM - len in
          let address := u32 (Suunto.package_end link layout c - len) in
          let offset := u32 (Suunto.c_offset link c - len) in
          let r := Suunto.suunto_common2_transfer link backend_packet
                     (Suunto.c_line link c)
                     (Suunto.read_command (u32 (address - extra)) Suunto.SZ_MINIMUM)
                     (Suunto.SZ_MINIMUM + 7) Suunto.SZ_MINIMUM in
          let data := memcpy (Suunto.c_data link c) (offset - extra)
                        (skipn 6 (snd (fst r))) Suunto.SZ_MINIMUM in
          Suunto.fill_loop link backend_packet (S fuel) layout remaining size c
          = (if negb (dc_status_eqb (fst (fst r)) DC_STATUS_SUCCESS) then
               Some (fst (fst r),
                     {| Suunto.c_address := address; Suunto.c_offset := offset;
                        Suunto.c_nbytes := Suunto.c_nbytes link c;
                        Suunto.c_data := Suunto.c_data link c;
                        Suunto.c_line := snd r |})
             else
               Suunto.fill_loop link backend_packet fuel layout remaining size
                 {| Suunto.c_address := address; Suunto.c_offset := offset;
                    Suunto.c_nbytes := u32 (Suunto.c_nbytes link c + len);
                    Suunto.c_data := data; Suunto.c_line := snd r |})
          /\ slice data offset len
             = skipn (Z.to_nat extra)
                 (slice (bytes (skipn 6 (snd (fst r)))) 0 Suunto.SZ_MINIMUM)).
Proof.
  intros link backend_packet; split.
  - intros l address data at_ size Ha; repeat split.
    + unfold Suunto.suunto_common2_device_read.
      now apply (read_loop_chunks backend_packet (Z.to_nat size)).
    + apply chunks_length.
    + apply chunks_sizes.
  - intros fuel layout remaining size c Hn.
    exact (fill_loop_short_package backend_packet fuel layout remaining size c Hn).
Qed.

(** Two hundred and fifty bytes are read in three chunks; and the last
    package of a ring buffer holding 124 bytes, 4 bytes long, is read by a
    command for 8 bytes at address [0x0196], 4 bytes before the package. *)
Lemma read_splits_and_caller_pads_witness :
  let s := SuuntoSim.powered SuuntoSim.three_dives in
  let c := {| Suunto.c_address := 414; Suunto.c_offset := 12;
              Suunto.c_nbytes := 40; Suunto.c_data := zeroed;
              Suunto.c_line := s |} in
  (Suunto.suunto_common2_device_read _ (Some SuuntoSim.sim_packet) s 0x019A zeroed 0 250
   = read_chunks (Some SuuntoSim.sim_packet) s zeroed 0
       [(0x019A, 120); (0x0212, 120); (0x028A, 10)])
  /\ (exists c' : Suunto.cursor SuuntoSim.sim,
        Suunto.fill_loop _ (Some SuuntoSim.sim_packet) 1 SuuntoSim.d9_layout 44 44 c
        = Some (DC_STATUS_SUCCESS, c')
        /\ SuuntoSim.received (Suunto.c_line _ c') = [Suunto.read_command 0x0196 8]
        /\ Suunto.c_nbytes _ c' = 44
        /\ slice (Suunto.c_data _ c') (Suunto.c_offset _ c') 4
           = slice (SuuntoSim.mem s) 0x019A 4).
Proof.
  intros s c.
  destruct (read_splits_and_caller_pads SuuntoSim.sim (Some SuuntoSim.sim_packet))
    as [Hread Hpad].
  split.
  - destruct (Hread s 0x019A zeroed 0 250) as (-> & _ & _);
      [vm_compute; split; [discriminate | reflexivity] |].
    reflexivity.
  - destruct (Hpad 0%nat SuuntoSim.d9_layout 44 44 c) as [Hstep Hkept];
      [reflexivity | vm_compute; split; [discriminate | reflexivity] |].
    eexists; split; [rewrite Hstep; vm_compute; reflexivity |].
    vm_compute; repeat split.
Defined.

(** The specification as written fails for the reader itself: asked for 3
    bytes at [0x0200], [suunto_common2_device_read] sends one command, for
    3 bytes at [0x0200], and not for [SZ_MINIMUM] bytes at [0x01FB]. *)
Lemma short_read_is_not_padded :
  let s := SuuntoSim.powered SuuntoSim.three_dives in
  let r := Suunto.suunto_common2_device_read _ (Some SuuntoSim.sim_packet)
             s 0x0200 zeroed 0 3 in
  fst (fst r) = DC_STATUS_SUCCESS
  /\ SuuntoSim.received (snd r) = [Suunto.read_command 0x0200 3]
  /\ Suunto.read_command 0x0200 3 = [0x05; 0x00; 0x03; 0x02; 0x00; 3; 0x07]
  /\ Suunto.read_command 0x0200 3
     <> Suunto.read_command (0x0200 - (Suunto.SZ_MINIMUM - 3)) Suunto.SZ_MINIMUM.
Proof. vm_compute; repeat split; discriminate. Qed.

(** ** Family B: the header of the ring buffer *)

Lemma in_profile_true (layout : Suunto.suunto_common2_layout_t) (p : Z) :
  Suunto.in_profile layout p = true <-> within_profile layout p.
Proof.
  unfold Suunto.in_profile, within_profile.
  rewrite negb_true_iff, orb_false_iff, Z.ltb_ge, Z.leb_gt; tauto.
Qed.

Lemma in_profile_false (layout : Suunto.suunto_common2_layout_t) (p : Z) :
  Suunto.in_profile layout p = false <-> ~ within_profile layout p.
Proof.
  rewrite <- in_profile_true; destruct (Suunto.in_profile layout p); split;
    intros H;
    first [ reflexivity | discriminate H | exfalso; apply H; reflexivity
          | intros H'; discriminate H' ].
Qed.

Section Header.

Import Suunto.

Context (SZ_FINGERPRINT : Z) {link : Type} (backend_packet : option (packet_t link))
        {U : Type}.

Local Abbreviation version := (suunto_common2_device_version link backend_packet).
Local Abbreviation device_read := (suunto_common2_device_read link backend_packet).
Local Abbreviation prologue := (foreach_prologue link backend_packet U).
Local Abbreviation foreach :=
  (suunto_common2_device_foreach SZ_FINGERPRINT link backend_packet U).

(** The prologue when the three reads succeed. *)
Lemma foreach_prologue_header (device : suunto_common2_device_t)
    (heap : option buffer) (u : U) (l l1 l2 l3 : link)
    (id : list Z) (number header : buffer) :
  version l SZ_VERSION = (DC_STATUS_SUCCESS, id, l1) ->
  device_read l1 (serial (layout device)) zeroed 0 8 = (DC_STATUS_SUCCESS, number, l2) ->
  device_read l2 0x0190 zeroed 0 8 = (DC_STATUS_SUCCESS, header, l3) ->
  prologue device heap u l
  = if negb (in_profile (layout device) (array_uint16_le header 0))
       || negb (in_profile (layout device) (array_uint16_le header 4))
       || negb (in_profile (layout device) (array_uint16_le header 6))
    then inl (DC_STATUS_DATAFORMAT, u, l3)
    else
      match heap with
      | None => inl (DC_STATUS_NOMEMORY, u, l3)
      | Some block =>
          let remaining :=
            u32 (ringbuffer_distance (array_uint16_le header 6)
                   (array_uint16_le header 4)
                   (negb (array_uint16_le header 2 =? 0))
                   (rb_profile_begin (layout device))
                   (rb_profile_end (layout device))) in
          inr (nth 0 id 0,
               {| remaining := remaining; available := 0;
                  current := array_uint16_le header 0;
                  previous := array_uint16_le header 4;
                  address := array_uint16_le header 4;
                  offset := u32 (remaining + SZ_MINIMUM);
                  status := DC_STATUS_SUCCESS; data := block;
                  line := l3; userdata := u |})
      end.
Proof.
  intros Hv Hs Hh; unfold foreach_prologue.
  change (Z.max SZ_MINIMUM 4) with 8.
  rewrite Hv; cbn [dc_status_eqb negb].
  rewrite Hs; cbn [dc_status_eqb negb].
  rewrite Hh; cbn [dc_status_eqb negb].
  reflexivity.
Qed.

End Header.

(** C2, as the code has it.  Once the version, the serial number and the
    8-byte header are read, the three pointers [last], [end] and [begin]
    (header bytes 0-1, 4-5 and 6-7) are checked against
    [[rb_profile_begin, rb_profile_end)]: if one of them is outside,
    [suunto_common2_device_foreach] returns [DATAFORMAT] with the user's
    state untouched, so before any callback; if all three are inside, the
    download goes on whatever [count] (bytes 2-3) is: [count] is only
    compared with 0. *)
Theorem header_pointers_validated :
  forall (SZ_FINGERPRINT : Z) (link : Type)
         (backend_packet : option (Suunto.packet_t link)) (U : Type)
         (device : Suunto.suunto_common2_device_t) (block : buffer)
         (callback : option (Suunto.dive_callback_t U)) (u : U)
         (l l1 l2 l3 : link) (id : list Z) (number header : buffer),
    Suunto.suunto_common2_device_version link backend_packet l Suunto.SZ_VERSION
    = (DC_STATUS_SUCCESS, id, l1) ->
    Suunto.suunto_common2_device_read link backend_packet l1
      (Suunto.serial (Suunto.layout device)) zeroed 0 8
    = (DC_STATUS_SUCCESS, number, l2) ->
    Suunto.suunto_common2_device_read link backend_packet l2 0x0190 zeroed 0 8
    = (DC_STATUS_SUCCESS, header, l3) ->
    let last := array_uint16_le header 0 in
    let count := array_uint16_le header 2 in
    let end_ := array_uint16_le header 4 in
    let begin := array_uint16_le header 6 in
    let inside := within_profile (Suunto.layout device) in
    (~ inside last \/ ~ inside end_ \/ ~ inside begin ->
       Suunto.suunto_common2_device_foreach SZ_FINGERPRINT link backend_packet U
         device (Some block) callback u l
       = Some (DC_STATUS_DATAFORMAT, u, l3))
    /\ (inside last /\ inside end_ /\ inside begin ->
       exists t : Suunto.traversal link U,
         Suunto.foreach_prologue link backend_packet U device (Some block) u l
         = inr (nth 0 id 0, t)
         /\ Suunto.remaining link U t
            = u32 (ringbuffer_distance begin end_ (negb (count =? 0))
                     (Suunto.rb_profile_begin (Suunto.layout device))
                     (Suunto.rb_profile_end (Suunto.layout device)))
         /\ Suunto.current link U t = last
         /\ Suunto.previous link U t = end_
         /\ Suunto.userdata link U t = u).
Proof.
  intros fpsz link backend_packet U device block callback u l l1 l2 l3 id number
    header Hv Hs Hh last count end_ begin inside.
  pose proof (foreach_prologue_header backend_packet device (Some block) u
                l l1 l2 l3 id number header Hv Hs Hh) as Hp.
  fold last end_ begin count in Hp.
  split.
  - intros Hout.
    assert (E : negb (Suunto.in_profile (Suunto.layout device) last)
                || negb (Suunto.in_profile (Suunto.layout device) end_)
                || negb (Suunto.in_profile (Suunto.layout device) begin) = true).
    { destruct Hout as [H | [H | H]]; apply in_profile_false in H; rewrite H;
        cbn [negb orb]; rewrite ?orb_true_r; reflexivity. }
    rewrite E in Hp.
    unfold Suunto.suunto_common2_device_foreach; now rewrite Hp.
  - intros (Hl & He & Hb).
    apply in_profile_true in Hl, He, Hb.
    rewrite Hl, He, Hb in Hp; cbn [negb orb] in Hp.
    eexists; split; [exact Hp |]; cbn; repeat split.
Qed.

Lemma header_pointers_validated_witness :
  exists s' : SuuntoSim.sim,
    SuuntoSim.download (SuuntoSim.fresh SuuntoSim.d9_layout) SuuntoSim.keep_going
      (SuuntoSim.powered bad_end)
    = Some (DC_STATUS_DATAFORMAT, (tt, []), s')
    /\ length (SuuntoSim.received s') = 3%nat.
Proof.
  edestruct (header_pointers_validated 7 SuuntoSim.sim (Some SuuntoSim.sim_packet)
               (unit * call_log) (SuuntoSim.fresh SuuntoSim.d9_layout) zeroed
               (Some (recording SuuntoSim.keep_going)) (tt, [])
               (SuuntoSim.powered bad_end))
    as [Hbad _];
    [vm_compute; reflexivity | vm_compute; reflexivity | vm_compute; reflexivity |].
  eexists; split.
  - unfold SuuntoSim.download; apply Hbad.
    right; left; vm_compute; intros [_ H]; discriminate H.
  - reflexivity.
Defined.

(** The specification as written fails for [count]: the header of
    [three_dives] holds the count 3, which is not an address of the ring
    buffer [[0x019A, 0x7FFE)], and the download succeeds with three calls. *)
Lemma header_count_not_validated :
  array_uint16_le SuuntoSim.three_dives (0x0190 + 2) = 3
  /\ ~ within_profile SuuntoSim.d9_layout 3
  /\ exists (log : call_log) (s' : SuuntoSim.sim),
       SuuntoSim.download (SuuntoSim.fresh SuuntoSim.d9_layout) SuuntoSim.keep_going
         (SuuntoSim.powered SuuntoSim.three_dives)
       = Some (DC_STATUS_SUCCESS, (tt, log), s')
       /\ length log = 3%nat.
Proof.
  split; [reflexivity |]; split; [vm_compute; intros [H _]; apply H; reflexivity |].
  eexists; eexists; split; [vm_compute; reflexivity | reflexivity].
Qed.

(** ** Family B: the traversal ends *)

Lemma ringbuffer_distance_bounds (a b : Z) (mode : bool) (rb_begin rb_end : Z) :
  rb_begin <= a < rb_end -> rb_begin <= b < rb_end ->
  0 <= ringbuffer_distance a b mode rb_begin rb_end <= rb_end - rb_begin.
Proof.
  intros Ha Hb; unfold ringbuffer_distance.
  destruct (a =? b); [destruct mode; lia |].
  destruct (a <? b) eqn:E; [apply Z.ltb_lt in E | apply Z.ltb_ge in E]; lia.
Qed.

Section Termination.

Import Suunto.

Context (SZ_FINGERPRINT : Z) {link : Type} (backend_packet : option (packet_t link))
        {U : Type}.
Variables (device : suunto_common2_device_t) (model : Z)
          (callback : option (dive_callback_t U)).

Local Abbreviation lay := (layout device).
Local Abbreviation fill := (fill_loop link backend_packet).
Local Abbreviation step :=
  (dive_step SZ_FINGERPRINT link backend_packet U device model callback).
Local Abbreviation loop :=
  (fun fuel => dive_loop SZ_FINGERPRINT link backend_packet U fuel device model callback).

Hypothesis fits : layout_fits lay.

Local Abbreviation cursor_ok := (@cursor_ok link device).
Local Abbreviation traversal_ok := (@traversal_ok link U device).

Lemma package_bounds (remaining : Z) (c : cursor link) :
  cursor_ok remaining c -> c_nbytes link c < remaining ->
  remaining <= rb_profile_end lay - rb_profile_begin lay ->
  let len := package_len link lay remaining c in
  1 <= len <= SZ_PACKET
  /\ c_nbytes link c + len <= remaining
  /\ rb_profile_begin lay <= package_end link lay c - len <= rb_profile_end lay.
Proof.
  destruct fits as (Hb & Hbe & He); unfold SZ_PACKET in *.
  intros [Ha Hn] Hlt Hr; unfold package_len, package_end, SZ_PACKET.
  set (pe := if c_address link c =? rb_profile_begin lay then rb_profile_end lay
             else c_address link c).
  assert (Hpe : rb_profile_begin lay < pe <= rb_profile_end lay).
  { subst pe; destruct (c_address link c =? rb_profile_begin lay) eqn:E;
      [apply Z.eqb_eq in E | apply Z.eqb_neq in E]; lia. }
  rewrite (u32_small (rb_profile_begin lay + 120)) by lia.
  rewrite (u32_small (pe - rb_profile_begin lay)) by lia.
  set (len1 := if pe <? rb_profile_begin lay + 120 then pe - rb_profile_begin lay else 120).
  assert (Hlen1 : 1 <= len1 <= 120 /\ len1 <= pe - rb_profile_begin lay).
  { subst len1; destruct (pe <? rb_profile_begin lay + 120) eqn:E;
      [apply Z.ltb_lt in E | apply Z.ltb_ge in E]; lia. }
  rewrite (u32_small (c_nbytes link c + len1)) by lia.
  rewrite (u32_small (remaining - c_nbytes link c)) by lia.
  cbv zeta.
  destruct (remaining <? c_nbytes link c + len1) eqn:E;
    [apply Z.ltb_lt in E | apply Z.ltb_ge in E]; lia.
Qed.

Lemma fill_loop_total (remaining size : Z) (fuel : nat) :
  forall c : cursor link,
    cursor_ok remaining c -> size <= remaining ->
    remaining <= rb_profile_end lay - rb_profile_begin lay ->
    (Z.to_nat (size - c_nbytes link c) <= fuel)%nat ->
    exists (rc : dc_status_t) (c' : cursor link),
      fill fuel lay remaining size c = Some (rc, c')
      /\ (rc = DC_STATUS_SUCCESS -> cursor_ok remaining c' /\ size <= c_nbytes link c').
Proof.
  destruct fits as (Hb & Hbe & He); unfold SZ_PACKET in *.
  induction fuel as [| fuel IH]; intros c Hc Hs Hr Hf.
  - exists DC_STATUS_SUCCESS, c; cbn [fill_loop].
    assert (E : (c_nbytes link c <? size) = false) by (apply Z.ltb_ge; lia).
    rewrite E; split; [reflexivity | intros _; split; [exact Hc | lia]].
  - cbn [fill_loop].
    destruct (c_nbytes link c <? size) eqn:E;
      [apply Z.ltb_lt in E
      | apply Z.ltb_ge in E; exists DC_STATUS_SUCCESS, c; split;
        [reflexivity | intros _; split; [exact Hc | lia]]].
    destruct (package_bounds remaining c Hc) as (Hlen & Hsum & Hadr); [lia | exact Hr |].
    set (len := package_len link lay remaining c) in *.
    unfold SZ_PACKET in Hlen.
    destruct (suunto_common2_device_read _ _ _ _ _ _ _) as [[rc data'] l'].
    destruct (negb (dc_status_eqb rc DC_STATUS_SUCCESS)) eqn:Erc.
    + eexists; eexists; split; [reflexivity |].
      intros ->; discriminate Erc.
    + destruct Hc as [Ha Hn].
      apply IH; [| exact Hs | exact Hr |].
      * split; cbn [c_address c_nbytes].
        -- rewrite u32_small by lia; exact Hadr.
        -- rewrite u32_small by lia; lia.
      * cbn [c_nbytes]; rewrite u32_small by lia; lia.
Qed.

Lemma visit_dive_next (t t' : traversal link U) (size : Z) (c : cursor link) :
  visit_dive SZ_FINGERPRINT link U device model callback t size c = Next link U t' ->
  exists (prev : Z) (st : dc_status_t) (u : U),
    t' = next_dive link U t size c prev st u.
Proof.
  unfold visit_dive.
  destruct (_ || _); [discriminate |].
  destruct (_ && _); [discriminate |].
  destruct (negb (_ =? current link U t)).
  - destruct (bytes_eqb _ _); [discriminate |].
    destruct callback as [cb |].
    + destruct (cb _ _ _) as [[] u]; [| discriminate].
      intros H; injection H as <-; eauto.
    + intros H; injection H as <-; eauto.
  - intros H; injection H as <-; eauto.
Qed.

Lemma dive_step_total (t : traversal link U) :
  traversal_ok t ->
  exists r : step_result link U,
    step t = Some r
    /\ forall t' : traversal link U,
         r = Next link U t' ->
         traversal_ok t' /\ remaining link U t' + 4 <= remaining link U t.
Proof.
  destruct fits as (Hb & Hbe & He); unfold SZ_PACKET in *.
  intros (Hr & Hav & Had); unfold dive_step.
  set (size := dive_size link U lay t).
  assert (Hsize : 0 <= size < 2 ^ 32) by apply u32_range.
  destruct ((size <? 4) || (remaining link U t <? size)) eqn:E.
  { eexists; split; [reflexivity | intros t' H; discriminate H]. }
  apply orb_false_iff in E; destruct E as [E1 E2].
  apply Z.ltb_ge in E1, E2.
  destruct (fill_loop_total (remaining link U t) size (Z.to_nat size) (dive_cursor link U t))
    as (rc & c & Hfill & Hpost);
    [split; cbn [dive_cursor c_address c_nbytes]; lia | lia | lia
    | cbn [dive_cursor c_nbytes]; lia |].
  rewrite Hfill.
  destruct (negb (dc_status_eqb rc DC_STATUS_SUCCESS)) eqn:Erc.
  { eexists; split; [reflexivity | intros t' H; discriminate H]. }
  apply negb_false_iff, dc_status_eqb_eq in Erc.
  destruct (Hpost Erc) as ([Hca Hcn] & Hge).
  eexists; split; [reflexivity |].
  intros t' H.
  apply visit_dive_next in H; destruct H as (prev & st & u & ->).
  unfold traversal_ok, next_dive; cbn [remaining available address].
  rewrite (u32_small (remaining link U t - size)) by lia.
  rewrite (u32_small (c_nbytes link c - size)) by lia.
  lia.
Qed.


Lemma foreach_prologue_inr (heap : option buffer) (u : U) (l : link)
    (m : Z) (t : traversal link U) :
  foreach_prologue link backend_packet U device heap u l = inr (m, t) ->
  within_profile lay (current link U t)
  /\ within_profile lay (previous link U t)
  /\ address link U t = previous link U t
  /\ available link U t = 0
  /\ (exists (a b : Z) (mode : bool),
        within_profile lay a /\ within_profile lay b
        /\ remaining link U t
           = u32 (ringbuffer_distance a b mode (rb_profile_begin lay)
                    (rb_profile_end lay)))
  /\ status link U t = DC_STATUS_SUCCESS
  /\ userdata link U t = u.
Proof.
  unfold foreach_prologue.
  destruct (suunto_common2_device_version _ _ _ _) as [[rc1 id] l1].
  destruct (negb (dc_status_eqb rc1 _)); [discriminate |].
  destruct (suunto_common2_device_read _ _ l1 _ _ _ _) as [[rc2 number] l2].
  destruct (negb (dc_status_eqb rc2 _)); [discriminate |].
  destruct (suunto_common2_device_read _ _ l2 _ _ _ _) as [[rc3 header] l3].
  destruct (negb (dc_status_eqb rc3 _)); [discriminate |].
  destruct (_ || _) eqn:E; [discriminate |].
  apply orb_false_iff in E; destruct E as [E E3].
  apply orb_false_iff in E; destruct E as [E1 E2].
  apply negb_false_iff, in_profile_true in E1, E2, E3.
  destruct heap as [block |]; [| discriminate].
  intros H; injection H as <- <-; cbn.
  repeat split; try apply E1; try apply E2.
  exists (header_begin header), (header_end header),
         (negb (header_count header =? 0)).
  repeat split; try apply E2; apply E3.
Qed.


Lemma foreach_prologue_ok (heap : option buffer) (u : U) (l : link)
    (m : Z) (t : traversal link U) :
  foreach_prologue link backend_packet U device heap u l = inr (m, t) ->
  traversal_ok t.
Proof.
  destruct fits as (Hb & Hbe & He); unfold SZ_PACKET in *.
  intros H; apply foreach_prologue_inr in H.
  destruct H as (_ & Hp & Ha & Hav & (a & b & mode & Hwa & Hwb & Hr) & _).
  pose proof (ringbuffer_distance_bounds a b mode _ _ Hwa Hwb) as Hd.
  rewrite u32_small in Hr by lia.
  unfold traversal_ok; rewrite Ha, Hav, Hr; unfold within_profile in Hp; lia.
Qed.

End Termination.


(** ** Cancellation by the callback *)




Section Cancellation.

Import Suunto.

Context (SZ_FINGERPRINT : Z) {link : Type} (backend_packet : option (packet_t link))
        {U : Type}.
Variables (device : suunto_common2_device_t) (model : Z) (cb : dive_callback_t U).

Local Abbreviation step :=
  (dive_step SZ_FINGERPRINT link backend_packet (U * call_log) device model
     (Some (recording cb))).
Local Abbreviation loop :=
  (fun fuel => dive_loop SZ_FINGERPRINT link backend_packet (U * call_log) fuel
                 device model (Some (recording cb))).



End Cancellation.


(** ** Family A: the logbook traversal *)

Section Atom2Dives.

Import Atom2.

Context (PS : Z) (PS_positive : 0 < PS) {port : Type}.
Variables (serial_write : port -> list Z -> port) (serial_drain : port -> port)
          (serial_read : port -> Z -> Z * list Z * port).
Context {U : Type}.

Local Abbreviation dives R :=
  (dives_loop PS PS_positive port serial_write serial_drain serial_read U R).
Local Abbreviation read_dives R :=
  (oceanic_atom2_read_dives PS PS_positive port serial_write serial_drain
     serial_read U R).



End Atom2Dives.




Lemma logging_state {U R : Type} (cb : Atom2.dive_callback_t U R)
    (dive : list Z) (u : U) (log : list (list Z)) :
  snd (logging cb dive (u, log)) = (snd (cb dive u), log ++ [dive]).
Proof. unfold logging; cbn [fst snd]; now destruct (cb dive u). Qed.

Section Atom2Count.

Import Atom2.

Context (PS : Z) (PS_positive : 0 < PS) {port : Type}.
Variables (serial_write : port -> list Z -> port) (serial_drain : port -> port)
          (serial_read : port -> Z -> Z * list Z * port).
Context {U R : Type} (cb : dive_callback_t U R).

Local Abbreviation dives :=
  (dives_loop PS PS_positive port serial_write serial_drain serial_read
     (U * list (list Z)) R).

(** A loop that ends in success has called back once per entry. *)
Lemma dives_loop_count (n : nat) :
  forall (p p' : port) (logbooks : buffer) (cur : Z)
         (u u' : U) (log log' : list (list Z)),
    dives n p logbooks cur (Some (logging cb)) (u, log)
    = Done (OCEANIC_SUCCESS, (u', log'), p') ->
    length log' = (length log + n)%nat.
Proof.
  induction n as [| n IH]; intros p p' logbooks cur u u' log log';
    cbn [dives_loop].
  - intros H; injection H as _ <- _; lia.
  - destruct (oceanic_atom2_read_ringbuffer _ _ _ _ _ _ _ _ _ _ _ _ _)
      as [[[rc profile] p1] |]; [| discriminate].
    destruct (negb (oceanic_status_eqb rc OCEANIC_SUCCESS)) eqn:E.
    { intros H; injection H as -> _ _; discriminate E. }
    rewrite logging_state.
    intros H; apply IH in H; rewrite H, length_app; cbn [length]; lia.
Qed.

End Atom2Count.

(** C6.  [oceanic_atom2_read_dives] with a packet size of 2 or more, once
    the pointers block is read: if both logbook pointers are the sentinel
    [0x0230] it returns success and calls nothing; otherwise, a download
    that ends in success has called
    back [ringbuffer_distance (first, last, begin, end) / (packet_size / 2)
    + 1] times, in the code's unsigned arithmetic, which for two pointers
    inside the logbook ring buffer is that quotient plus one as it stands;
    and for [first = last] that is exactly one call. *)
Theorem read_dives_callback_count :
  forall (PS : Z) (PS_positive : 0 < PS) (port : Type)
         (serial_write : port -> list Z -> port) (serial_drain : port -> port)
         (serial_read : port -> Z -> Z * list Z * port) (U R : Type)
         (cb : Atom2.dive_callback_t U R) (p p1 : port) (u : U)
         (pointers : buffer),
    2 <= PS ->
    Atom2.oceanic_atom2_read_memory PS PS_positive port serial_write serial_drain
      serial_read p 0x0040 zeroed 0 PS
    = Atom2.Done (Atom2.OCEANIC_SUCCESS, pointers, p1) ->
    let first := Atom2.PT_LOGBOOK_FIRST pointers 0 in
    let last := Atom2.PT_LOGBOOK_LAST pointers 0 in
    let distance :=
      ringbuffer_distance first last false Atom2.RB_LOGBOOK_BEGIN Atom2.RB_LOGBOOK_END in
    let run :=
      Atom2.oceanic_atom2_read_dives PS PS_positive port serial_write serial_drain
        serial_read (U * list (list Z)) R p (Some (logging cb)) (u, []) in
    (first = Atom2.RB_LOGBOOK_EMPTY /\ last = Atom2.RB_LOGBOOK_EMPTY ->
       run = Atom2.Done (Atom2.OCEANIC_SUCCESS, (u, []), p1))
    /\ (~ (first = Atom2.RB_LOGBOOK_EMPTY /\ last = Atom2.RB_LOGBOOK_EMPTY) ->
        forall (u' : U) (log : list (list Z)) (p' : port),
          run = Atom2.Done (Atom2.OCEANIC_SUCCESS, (u', log), p') ->
          Z.of_nat (length log) = u32 (u32 distance / (PS / 2) + 1)
          /\ (Atom2.RB_LOGBOOK_BEGIN <= first < Atom2.RB_LOGBOOK_END ->
              Atom2.RB_LOGBOOK_BEGIN <= last < Atom2.RB_LOGBOOK_END ->
              Z.of_nat (length log) = distance / (PS / 2) + 1)
          /\ (first = last -> length log = 1%nat)).
Proof.
  intros PS PS_positive port sw sd sr U R cb p p1 u pointers Hsize Hptr
    first last distance run.
  assert (Hrun : run =
    if (first =? Atom2.RB_LOGBOOK_EMPTY) && (last =? Atom2.RB_LOGBOOK_EMPTY)
    then Atom2.Done (Atom2.OCEANIC_SUCCESS, (u, []), p1)
    else
      let count := Atom2.logbook_count PS first last in
      match Atom2.oceanic_atom2_read_ringbuffer PS PS_positive port sw sd sr p1
              (u32 (first / PS * PS)) zeroed 0
              (u32 (Atom2.RB_LOGBOOK_DISTANCE (u32 (first / PS * PS))
                      (u32 (last / PS * PS)) + PS))
              Atom2.RB_LOGBOOK_BEGIN Atom2.RB_LOGBOOK_END with
      | Atom2.Assertion_failed => Atom2.Assertion_failed
      | Atom2.Done (rc, logbooks, p2) =>
          if negb (Atom2.oceanic_status_eqb rc Atom2.OCEANIC_SUCCESS)
          then Atom2.Done (rc, (u, []), p2)
          else Atom2.dives_loop PS PS_positive port sw sd sr (U * list (list Z)) R
                 (Z.to_nat count) p2 logbooks
                 (first mod PS + u32 ((count - 1) * (PS / 2)))
                 (Some (logging cb)) (u, [])
      end).
  { subst run; unfold Atom2.oceanic_atom2_read_dives; rewrite Hptr.
    cbn [Atom2.oceanic_status_eqb negb]; reflexivity. }
  split.
  - intros [H1 H2]; rewrite Hrun, H1, H2; reflexivity.
  - intros Hne u' log p' Hdone; rewrite Hrun in Hdone.
    destruct ((first =? Atom2.RB_LOGBOOK_EMPTY) && (last =? Atom2.RB_LOGBOOK_EMPTY)) eqn:E.
    { apply andb_true_iff in E; destruct E as [E1 E2].
      apply Z.eqb_eq in E1, E2; exfalso; apply Hne; split; assumption. }
    cbv zeta in Hdone.
    destruct (Atom2.oceanic_atom2_read_ringbuffer _ _ _ _ _ _ _ _ _ _ _ _ _)
      as [[[rc logbooks] p2] |]; [| discriminate].
    destruct (negb (Atom2.oceanic_status_eqb rc Atom2.OCEANIC_SUCCESS)) eqn:Erc.
    { injection Hdone as -> _ _; discriminate Erc. }
    apply dives_loop_count in Hdone; cbn [length Nat.add] in Hdone.
    assert (Hcount : Z.of_nat (length log) = u32 (u32 distance / (PS / 2) + 1)).
    { rewrite Hdone, Z2Nat.id; [reflexivity |].
      unfold Atom2.logbook_count; apply u32_range. }
    split; [exact Hcount |]; split.
    + intros Hf Hl; rewrite Hcount.
      pose proof (ringbuffer_distance_bounds first last false _ _ Hf Hl) as Hd.
      fold distance in Hd; unfold Atom2.RB_LOGBOOK_BEGIN, Atom2.RB_LOGBOOK_END in Hd.
      rewrite (u32_small distance) by lia.
      apply u32_small.
      assert (0 <= distance / (PS / 2) <= distance); [| lia].
      assert (0 < PS / 2) by (apply Z.div_str_pos; lia).
      split; [apply Z.div_pos; lia | apply Z.div_le_upper_bound; nia].
    + intros Heq; apply Nat2Z.inj; rewrite Hcount.
      subst distance; unfold ringbuffer_distance.
      rewrite Heq, Z.eqb_refl; reflexivity.
Qed.

Lemma read_dives_callback_count_witness :
  (exists s' : Atom2Sim.sim,
      logged_download Atom2Sim.no_dive
      = Atom2.Done (Atom2.OCEANIC_SUCCESS, (tt, []), s'))
  /\ (exists (log : list (list Z)) (s' : Atom2Sim.sim),
        logged_download Atom2Sim.one_dive
        = Atom2.Done (Atom2.OCEANIC_SUCCESS, (tt, log), s')
        /\ length log = 1%nat)
  /\ (exists (log : list (list Z)) (s' : Atom2Sim.sim),
        logged_download Atom2Sim.two_dives
        = Atom2.Done (Atom2.OCEANIC_SUCCESS, (tt, log), s')
        /\ Z.of_nat (length log) = (0x0248 - 0x0240) / (16 / 2) + 1).
Proof.
  pose proof (fun m => read_dives_callback_count Atom2Sim.packet_size
                Atom2Sim.packet_size_positive Atom2Sim.sim Atom2Sim.sim_write
                Atom2Sim.sim_drain Atom2Sim.sim_read unit unit keep_all
                (Atom2Sim.powered m [])) as H.
  split; [| split].
  - edestruct (H Atom2Sim.no_dive) as [Hempty _];
      [vm_compute; discriminate | vm_compute; reflexivity |].
    (eexists; unfold logged_download; apply Hempty).
    (vm_compute; split; reflexivity).
  - edestruct (H Atom2Sim.one_dive) as [_ Hcount];
      [vm_compute; discriminate | vm_compute; reflexivity |].
    assert (Hrun : exists log s', logged_download Atom2Sim.one_dive
                     = Atom2.Done (Atom2.OCEANIC_SUCCESS, (tt, log), s'))
      by (eexists; eexists; vm_compute; reflexivity).
    destruct Hrun as (log & s' & Hrun); exists log, s'; split; [exact Hrun |].
    unfold logged_download in Hrun.
    edestruct Hcount as (_ & _ & Hone);
      [ | exact Hrun | ].
    + (vm_compute; intros [Hx _]; discriminate Hx).
    + (apply Hone; vm_compute; reflexivity).
  - edestruct (H Atom2Sim.two_dives) as [_ Hcount];
      [vm_compute; discriminate | vm_compute; reflexivity |].
    assert (Hrun : exists log s', logged_download Atom2Sim.two_dives
                     = Atom2.Done (Atom2.OCEANIC_SUCCESS, (tt, log), s'))
      by (eexists; eexists; vm_compute; reflexivity).
    destruct Hrun as (log & s' & Hrun); exists log, s'; split; [exact Hrun |].
    unfold logged_download in Hrun.
    edestruct Hcount as (_ & Hvalid & _);
      [ | exact Hrun | ].
    + (vm_compute; intros [Hx _]; discriminate Hx).
    + (rewrite Hvalid;
         [ vm_compute; reflexivity
         | vm_compute; split; [discriminate | reflexivity] .. ]).
Defined.

(** ** Family B: the dives of a traversal *)

Lemma bytes_eqb_eq (a b : list Z) : bytes_eqb a b = true <-> a = b.
Proof.
  revert b; induction a as [| x a IH]; intros [| y b]; cbn [bytes_eqb];
    try (split; [discriminate | discriminate]); [tauto |].
  rewrite andb_true_iff, Z.eqb_eq, IH; split;
    [intros [-> ->]; reflexivity | intros H; injection H; auto].
Qed.

Lemma nth_slice (b : buffer) (off n : Z) (k : nat) :
  Z.of_nat k < n -> nth k (slice b off n) 0 = b (off + Z.of_nat k).
Proof.
  intros Hk; unfold slice.
  set (f := fun i : nat => b (off + Z.of_nat i)).
  rewrite (nth_indep _ 0 (f 0%nat)) by (rewrite length_map, length_seq; lia).
  rewrite map_nth, seq_nth by lia; reflexivity.
Qed.

Section Walk.

Import Suunto.

Context (SZ_FINGERPRINT : Z) {link : Type} (backend_packet : option (packet_t link))
        {U : Type}.
Variables (device : suunto_common2_device_t) (model : Z)
          (callback : option (dive_callback_t U)).

Local Abbreviation lay := (layout device).
Local Abbreviation fill := (fill_loop link backend_packet).
Local Abbreviation visit :=
  (visit_dive SZ_FINGERPRINT link U device model callback).
Local Abbreviation step :=
  (dive_step SZ_FINGERPRINT link backend_packet U device model callback).
Local Abbreviation loop :=
  (fun fuel => dive_loop SZ_FINGERPRINT link backend_packet U fuel device model callback).
Local Abbreviation walk :=
  (walk SZ_FINGERPRINT backend_packet device model callback).

Lemma dive_step_next (t t' : traversal link U) :
  step t = Some (Next link U t') ->
  let size := dive_size link U lay t in
  4 <= size <= remaining link U t
  /\ exists c : cursor link,
       fill (Z.to_nat size) lay (remaining link U t) size (dive_cursor link U t)
       = Some (DC_STATUS_SUCCESS, c)
       /\ visit t size c = Next link U t'.
Proof.
  intros H; cbv zeta; unfold dive_step in H.
  set (size := dive_size link U lay t) in *.
  destruct ((size <? 4) || (remaining link U t <? size)) eqn:E; [discriminate |].
  apply orb_false_iff in E; destruct E as [E1 E2]; apply Z.ltb_ge in E1, E2.
  split; [lia |].
  destruct (fill _ _ _ _ _) as [[rc c] |]; [| discriminate].
  destruct (negb (dc_status_eqb rc DC_STATUS_SUCCESS)) eqn:Erc; [discriminate |].
  apply negb_false_iff, dc_status_eqb_eq in Erc; subst rc.
  exists c; split; [reflexivity | now injection H].
Qed.

Lemma visit_dive_next_state (t t' : traversal link U) (size : Z) (c : cursor link) :
  visit t size c = Next link U t' ->
  status link U t'
  = (if self_linked t t' then DC_STATUS_DATAFORMAT else status link U t)
  /\ (self_linked t t' = true -> userdata link U t' = userdata link U t)
  /\ remaining link U t' = u32 (remaining link U t - size).
Proof.
  unfold visit_dive, self_linked.
  destruct (_ || _); [discriminate |].
  destruct (_ && _); [discriminate |].
  rewrite Z.add_0_r.
  set (p := c_offset link c + u32 (c_nbytes link c - size)).
  destruct (array_uint16_le (c_data link c) (p + 2) =? current link U t) eqn:E;
    cbn [negb].
  - intros H; injection H as <-; cbn [next_dive status userdata remaining data offset available].
    fold p; rewrite E; auto.
  - destruct (bytes_eqb _ _); [discriminate |].
    destruct callback as [cb |].
    + destruct (cb _ _ _) as [[] u]; [| discriminate].
      intros H; injection H as <-;
        cbn [next_dive status userdata remaining data offset available].
      fold p; rewrite E; repeat split; discriminate.
    + intros H; injection H as <-;
        cbn [next_dive status userdata remaining data offset available].
      fold p; rewrite E; repeat split; discriminate.
Qed.

Lemma walk_loop (t t' : traversal link U) (flags : list bool) :
  walk t flags t' ->
  forall fuel : nat,
    (length flags <= fuel)%nat ->
    loop fuel t = loop (fuel - length flags)%nat t'.
Proof.
  induction 1 as [t | t t1 t2 flags Hrem Hstep _ IH]; intros fuel Hfuel.
  - now rewrite Nat.sub_0_r.
  - cbn [length] in *; destruct fuel as [| fuel]; [lia |].
    cbn [dive_loop Nat.sub].
    apply Z.eqb_neq in Hrem; rewrite Hrem, Hstep.
    apply IH; lia.
Qed.

Lemma walk_remaining (t t' : traversal link U) (flags : list bool) :
  walk t flags t' ->
  0 <= remaining link U t < 2 ^ 32 ->
  0 <= remaining link U t'
  /\ Z.of_nat (length flags) + remaining link U t' <= remaining link U t.
Proof.
  induction 1 as [t | t t1 t2 flags Hrem Hstep _ IH]; intros Hr.
  - cbn [length]; lia.
  - apply dive_step_next in Hstep; destruct Hstep as (Hsize & c & _ & Hvisit).
    apply visit_dive_next_state in Hvisit; destruct Hvisit as (_ & _ & Hr1).
    rewrite u32_small in Hr1 by lia.
    destruct IH as [H0 Hsum]; [lia |].
    cbn [length]; lia.
Qed.

Lemma walk_status (t t' : traversal link U) (flags : list bool) :
  walk t flags t' ->
  status link U t'
  = if existsb (fun flag => flag) flags then DC_STATUS_DATAFORMAT
    else status link U t.
Proof.
  induction 1 as [t | t t1 t2 flags Hrem Hstep _ IH]; [reflexivity |].
  apply dive_step_next in Hstep; destruct Hstep as (_ & c & _ & Hvisit).
  apply visit_dive_next_state in Hvisit; destruct Hvisit as (Hst & _ & _).
  cbn [existsb]; rewrite IH, Hst.
  destruct (self_linked t t1), (existsb _ flags); reflexivity.
Qed.

(** The download, seen from a state that the traversal reaches. *)
Lemma foreach_from (heap : option buffer) (u : U) (l : link)
    (t0 t : traversal link U) (flags : list bool) :
  foreach_prologue link backend_packet U device heap u l = inr (model, t0) ->
  walk t0 flags t ->
  exists fuel : nat,
    (Z.to_nat (remaining link U t) <= fuel)%nat
    /\ suunto_common2_device_foreach SZ_FINGERPRINT link backend_packet U
         device heap callback u l
       = loop fuel t.
Proof.
  intros Hp Hw; unfold suunto_common2_device_foreach; rewrite Hp.
  assert (Hr : 0 <= remaining link U t0 < 2 ^ 32).
  { apply foreach_prologue_inr in Hp.
    destruct Hp as (_ & _ & _ & _ & (a & b & mode & _ & _ & ->) & _).
    apply u32_range. }
  destruct (walk_remaining t0 t flags Hw Hr) as [H0 Hsum].
  exists (Z.to_nat (remaining link U t0) - length flags)%nat; split; [lia |].
  apply (walk_loop t0 t flags Hw); lia.
Qed.

End Walk.

(** C5.  A dive whose [next] pointer is [current] (both pointers being
    addresses of the ring buffer) latches [DATAFORMAT], is not given to the
    callback, and the loop goes on with the older dive: [previous] becomes
    [current] and [current] becomes the dive's [prev] pointer.  And a
    traversal that goes through all the dives, each iteration ending at
    "next dive", returns [DATAFORMAT] if one of them was self-linked and
    [SUCCESS] if none was. *)
Theorem incomplete_dive_latches_error :
  forall (SZ_FINGERPRINT : Z) (link U : Type)
         (backend_packet : option (Suunto.packet_t link))
         (device : Suunto.suunto_common2_device_t) (model : Z)
         (callback : option (Suunto.dive_callback_t U)),
    (forall (t : Suunto.traversal link U) (size : Z) (c : Suunto.cursor link),
        let p := Suunto.c_offset link c + u32 (Suunto.c_nbytes link c - size) in
        let prev := array_uint16_le (Suunto.c_data link c) p in
        let next := array_uint16_le (Suunto.c_data link c) (p + 2) in
        within_profile (Suunto.layout device) prev ->
        within_profile (Suunto.layout device) next ->
        next = Suunto.current link U t ->
        exists t' : Suunto.traversal link U,
          Suunto.visit_dive SZ_FINGERPRINT link U device model callback t size c
          = Suunto.Next link U t'
          /\ Suunto.status link U t' = DC_STATUS_DATAFORMAT
          /\ Suunto.userdata link U t' = Suunto.userdata link U t
          /\ Suunto.previous link U t' = Suunto.current link U t
          /\ Suunto.current link U t' = prev)
    /\ (forall (heap : option buffer) (u : U) (l : link)
               (t0 t : Suunto.traversal link U) (flags : list bool),
          Suunto.foreach_prologue link backend_packet U device heap u l
          = inr (model, t0) ->
          walk SZ_FINGERPRINT backend_packet device model callback t0 flags t ->
          Suunto.remaining link U t = 0 ->
          Suunto.suunto_common2_device_foreach SZ_FINGERPRINT link backend_packet U
            device heap callback u l
          = Some (if existsb (fun self_linked => self_linked) flags
                  then DC_STATUS_DATAFORMAT else DC_STATUS_SUCCESS,
                  Suunto.userdata link U t, Suunto.line link U t)).
Proof.
  intros fpsz link U backend_packet device model callback; split.
  - intros t size c p prev next Hprev Hnext Hself.
    apply in_profile_true in Hprev, Hnext.
    eexists; split.
    + unfold Suunto.visit_dive; rewrite Z.add_0_r; fold p; fold prev; fold next.
      rewrite Hprev, Hnext; cbn [negb orb].
      apply Z.eqb_eq in Hself; rewrite Hself, andb_false_r; cbn [negb].
      reflexivity.
    + cbn; auto.
  - intros heap u l t0 t flags Hp Hw Hend.
    destruct (foreach_from fpsz backend_packet device model callback heap u l
                t0 t flags Hp Hw) as (fuel & _ & ->).
    pose proof (walk_status fpsz backend_packet device model callback t0 t flags Hw)
      as Hst.
    apply (foreach_prologue_inr backend_packet device) in Hp.
    destruct Hp as (_ & _ & _ & _ & _ & Hs0 & _); rewrite Hs0 in Hst.
    apply Z.eqb_eq in Hend.
    destruct fuel; cbn [Suunto.dive_loop]; rewrite Hend, Hst; reflexivity.
Qed.

Lemma incomplete_dive_latches_error_witness :
  exists (log : call_log) (s' : SuuntoSim.sim),
    SuuntoSim.download (SuuntoSim.fresh SuuntoSim.d9_layout) SuuntoSim.keep_going
      (SuuntoSim.powered middle_incomplete)
    = Some (DC_STATUS_DATAFORMAT, (tt, log), s')
    /\ map (fun call => fst (fst call)) log = [repeat 3 36; repeat 1 36].
Proof.
  destruct (incomplete_dive_latches_error 7 SuuntoSim.sim (unit * call_log)
              (Some SuuntoSim.sim_packet) (SuuntoSim.fresh SuuntoSim.d9_layout)
              0x0E (Some (recording SuuntoSim.keep_going))) as [_ Hall].
  eassert (Hrun : _).
  { eapply (Hall (Some zeroed) (tt, []) (SuuntoSim.powered middle_incomplete)).
    - vm_compute; reflexivity.
    - eapply walk_on; [vm_compute; discriminate | vm_compute; reflexivity |].
      eapply walk_on; [vm_compute; discriminate | vm_compute; reflexivity |].
      eapply walk_on; [vm_compute; discriminate | vm_compute; reflexivity |].
      apply walk_stay.
    - vm_compute; reflexivity. }
  eexists; eexists; split.
  - unfold SuuntoSim.download; rewrite Hrun; vm_compute; reflexivity.
  - vm_compute; reflexivity.
Defined.

(** C4.  A dive of normal linkage, that is, one that reaches the
    fingerprint test: its two pointers have passed the range check, its
    [next] pointer is [previous], and it is not taken by the self-link test
    ([next] is not [current]).  When its bytes at [fp_offset] (0x15, and 6
    more for the model 0x15) from its start equal the stored fingerprint,
    the function ends with [SUCCESS] and the user's state as it was before
    this dive: neither this dive nor an older one is given to the callback.
    The same holds of the download from any state the traversal reaches. *)
Theorem fingerprint_match_stops :
  forall (SZ_FINGERPRINT : Z) (link U : Type)
         (backend_packet : option (Suunto.packet_t link))
         (device : Suunto.suunto_common2_device_t) (model : Z)
         (callback : option (Suunto.dive_callback_t U)),
    (forall (t : Suunto.traversal link U) (size : Z) (c : Suunto.cursor link),
        let p := Suunto.c_offset link c + u32 (Suunto.c_nbytes link c - size) in
        let prev := array_uint16_le (Suunto.c_data link c) p in
        let next := array_uint16_le (Suunto.c_data link c) (p + 2) in
        let fp_offset := Suunto.FP_OFFSET + (if model =? 0x15 then 6 else 0) in
        within_profile (Suunto.layout device) prev ->
        within_profile (Suunto.layout device) next ->
        next = Suunto.previous link U t ->
        next <> Suunto.current link U t ->
        slice (Suunto.c_data link c) (p + fp_offset) SZ_FINGERPRINT
        = Suunto.fingerprint device ->
        Suunto.visit_dive SZ_FINGERPRINT link U device model callback t size c
        = Suunto.Return link U DC_STATUS_SUCCESS (Suunto.userdata link U t)
            (Suunto.c_line link c))
    /\ (forall (heap : option buffer) (u : U) (l : link)
               (t0 t : Suunto.traversal link U) (flags : list bool)
               (c : Suunto.cursor link),
          Suunto.foreach_prologue link backend_packet U device heap u l
          = inr (model, t0) ->
          walk SZ_FINGERPRINT backend_packet device model callback t0 flags t ->
          Suunto.remaining link U t <> 0 ->
          let size := Suunto.dive_size link U (Suunto.layout device) t in
          4 <= size <= Suunto.remaining link U t ->
          Suunto.fill_loop link backend_packet (Z.to_nat size) (Suunto.layout device)
            (Suunto.remaining link U t) size (Suunto.dive_cursor link U t)
          = Some (DC_STATUS_SUCCESS, c) ->
          let p := Suunto.c_offset link c + u32 (Suunto.c_nbytes link c - size) in
          let prev := array_uint16_le (Suunto.c_data link c) p in
          let next := array_uint16_le (Suunto.c_data link c) (p + 2) in
          let fp_offset := Suunto.FP_OFFSET + (if model =? 0x15 then 6 else 0) in
          within_profile (Suunto.layout device) prev ->
          within_profile (Suunto.layout device) next ->
          next = Suunto.previous link U t ->
          next <> Suunto.current link U t ->
          slice (Suunto.c_data link c) (p + fp_offset) SZ_FINGERPRINT
          = Suunto.fingerprint device ->
          Suunto.suunto_common2_device_foreach SZ_FINGERPRINT link backend_packet U
            device heap callback u l
          = Some (DC_STATUS_SUCCESS, Suunto.userdata link U t, Suunto.c_line link c)).
Proof.
  intros fpsz link U backend_packet device model callback.
  assert (Hvisit : forall (t : Suunto.traversal link U) (size : Z)
                          (c : Suunto.cursor link),
             let p := Suunto.c_offset link c + u32 (Suunto.c_nbytes link c - size) in
             let prev := array_uint16_le (Suunto.c_data link c) p in
             let next := array_uint16_le (Suunto.c_data link c) (p + 2) in
             let fp_offset := Suunto.FP_OFFSET + (if model =? 0x15 then 6 else 0) in
             within_profile (Suunto.layout device) prev ->
             within_profile (Suunto.layout device) next ->
             next = Suunto.previous link U t ->
             next <> Suunto.current link U t ->
             slice (Suunto.c_data link c) (p + fp_offset) fpsz
             = Suunto.fingerprint device ->
             Suunto.visit_dive fpsz link U device model callback t size c
             = Suunto.Return link U DC_STATUS_SUCCESS (Suunto.userdata link U t)
                 (Suunto.c_line link c)).
  { intros t size c p prev next fp_offset Hprev Hnext Hlink Hnew Hfp.
    apply in_profile_true in Hprev, Hnext.
    apply Z.eqb_eq in Hlink; apply Z.eqb_neq in Hnew; apply bytes_eqb_eq in Hfp.
    unfold Suunto.visit_dive; rewrite Z.add_0_r.
    fold p; fold prev; fold next; fold fp_offset.
    rewrite Hprev, Hnext, Hlink, Hnew, Hfp; reflexivity. }
  split; [exact Hvisit |].
  intros heap u l t0 t flags c Hp Hw Hrem size Hsize Hfill p prev next fp_offset
    Hprev Hnext Hlink Hnew Hfp.
  destruct (foreach_from fpsz backend_packet device model callback heap u l
              t0 t flags Hp Hw) as (fuel & Hfuel & ->).
  assert (Hr : 0 <= Suunto.remaining link U t).
  { assert (Hr0 : 0 <= Suunto.remaining link U t0 < 2 ^ 32).
    { apply (foreach_prologue_inr backend_packet device) in Hp.
      destruct Hp as (_ & _ & _ & _ & (a & b & mode & _ & _ & ->) & _).
      apply u32_range. }
    apply (walk_remaining fpsz backend_packet device model callback t0 t flags Hw Hr0). }
  destruct fuel as [| fuel]; [lia |].
  cbn [Suunto.dive_loop].
  apply Z.eqb_neq in Hrem; rewrite Hrem.
  unfold Suunto.dive_step; fold size.
  assert (E : (size <? 4) || (Suunto.remaining link U t <? size) = false).
  { apply orb_false_iff; split; apply Z.ltb_ge; lia. }
  rewrite E, Hfill; cbn [dc_status_eqb negb].
  now rewrite (Hvisit t size c Hprev Hnext Hlink Hnew Hfp).
Qed.

Lemma fingerprint_match_stops_witness :
  exists (log : call_log) (s' : SuuntoSim.sim),
    SuuntoSim.download seen_oldest SuuntoSim.keep_going
      (SuuntoSim.powered SuuntoSim.three_dives)
    = Some (DC_STATUS_SUCCESS, (tt, log), s')
    /\ map (fun call => fst (fst call)) log = [repeat 3 36; repeat 2 36].
Proof.
  destruct (fingerprint_match_stops 7 SuuntoSim.sim (unit * call_log)
              (Some SuuntoSim.sim_packet) seen_oldest
              0x0E (Some (recording SuuntoSim.keep_going))) as [_ Hstop].
  eassert (Hrun : _).
  { eapply (Hstop (Some zeroed) (tt, []) (SuuntoSim.powered SuuntoSim.three_dives)).
    - vm_compute; reflexivity.
    - eapply walk_on; [vm_compute; discriminate | vm_compute; reflexivity |].
      eapply walk_on; [vm_compute; discriminate | vm_compute; reflexivity |].
      apply walk_stay.
    - vm_compute; discriminate.
    - vm_compute; split; discriminate.
    - vm_compute; reflexivity.
    - vm_compute; split; [discriminate | reflexivity].
    - vm_compute; split; [discriminate | reflexivity].
    - vm_compute; reflexivity.
    - vm_compute; discriminate.
    - vm_compute; reflexivity. }
  eexists; eexists; split.
  - unfold SuuntoSim.download; rewrite Hrun; vm_compute; reflexivity.
  - vm_compute; reflexivity.
Defined.

(** Where the self-link test comes first: when [next] is [previous] and
    [current] at once, as for the one dive of [full_ring], the dive counts
    as incomplete whatever its bytes at [FP_OFFSET], the fingerprint is not
    looked at and the result is [DATAFORMAT]. *)
Lemma fingerprint_ignored_on_self_link :
  match first_dive (SuuntoSim.fresh SuuntoSim.d9_layout)
          (SuuntoSim.powered full_ring) with
  | Some (model, t, c) =>
      let size := Suunto.dive_size _ _ SuuntoSim.d9_layout t in
      let p := Suunto.c_offset _ c + u32 (Suunto.c_nbytes _ c - size) in
      let next := array_uint16_le (Suunto.c_data _ c) (p + 2) in
      next = Suunto.previous _ _ t
      /\ slice (Suunto.c_data _ c) (p + Suunto.FP_OFFSET) 7
         = Suunto.fingerprint (SuuntoSim.fresh SuuntoSim.d9_layout)
      /\ exists s' : SuuntoSim.sim,
           SuuntoSim.download (SuuntoSim.fresh SuuntoSim.d9_layout)
             SuuntoSim.keep_going (SuuntoSim.powered full_ring)
           = Some (DC_STATUS_DATAFORMAT, (tt, []), s')
  | None => False
  end.
Proof.
  vm_compute; split; [reflexivity | split; [reflexivity |]].
  eexists; reflexivity.
Qed.

Lemma recording_call {U : Type} (cb : Suunto.dive_callback_t U)
    (dive fp : list Z) (st : U * call_log) :
  recording cb dive fp st
  = (fst (cb dive fp (fst st)),
     (snd (cb dive fp (fst st)),
      snd st ++ [(dive, fp, fst (cb dive fp (fst st)))])).
Proof. unfold recording; now destruct (cb dive fp (fst st)). Qed.

(** C1, as the code has it.  In an iteration of the traversal loop either
    nothing is called back, or the package loop has ended in success with
    the cursor [c] and, [available] being [nbytes - size], the dive is the
    region [buffer[offset + available .. offset + available + size)]: its
    first four bytes are the [prev] and [next] pointers, little-endian,
    both addresses of the ring buffer, and the callback is called once,
    with the rest of the region, [buffer[offset + available + 4 .. offset +
    available + size)] of length [size - 4]. *)
Theorem dive_starts_with_its_links :
  forall (SZ_FINGERPRINT : Z) (link U : Type)
         (backend_packet : option (Suunto.packet_t link))
         (device : Suunto.suunto_common2_device_t) (model : Z)
         (cb : Suunto.dive_callback_t U)
         (t : Suunto.traversal link (U * call_log))
         (r : Suunto.step_result link (U * call_log)),
    Suunto.dive_step SZ_FINGERPRINT link backend_packet (U * call_log) device model
      (Some (recording cb)) t = Some r ->
    let size := Suunto.dive_size link (U * call_log) (Suunto.layout device) t in
    let before := Suunto.userdata link (U * call_log) t in
    snd (state_after r) = snd before
    \/ exists (c : Suunto.cursor link) (more : bool),
         Suunto.fill_loop link backend_packet (Z.to_nat size) (Suunto.layout device)
           (Suunto.remaining link (U * call_log) t) size
           (Suunto.dive_cursor link (U * call_log) t)
         = Some (DC_STATUS_SUCCESS, c)
         /\ let offset := Suunto.c_offset link c in
            let available := u32 (Suunto.c_nbytes link c - size) in
            let buffer := Suunto.c_data link c in
            let region := slice buffer (offset + available) size in
            let prev := nth 0 region 0 + Z.shiftl (nth 1 region 0) 8 in
            let next := nth 2 region 0 + Z.shiftl (nth 3 region 0) 8 in
            let fp :=
              slice buffer
                (offset + available + (Suunto.FP_OFFSET + (if model =? 0x15 then 6 else 0)))
                SZ_FINGERPRINT in
            let dive := slice buffer (offset + available + 4) (size - 4) in
            within_profile (Suunto.layout device) prev
            /\ within_profile (Suunto.layout device) next
            /\ next = Suunto.previous link (U * call_log) t
            /\ dive = skipn 4 region
            /\ Z.of_nat (length dive) = size - 4
            /\ cb dive fp (fst before) = (more, fst (state_after r))
            /\ snd (state_after r) = snd before ++ [(dive, fp, more)].
Proof.
  intros fpsz link U backend_packet device model cb t r Hstep size before.
  unfold Suunto.dive_step in Hstep; fold size in Hstep.
  destruct ((size <? 4) || (Suunto.remaining link (U * call_log) t <? size)) eqn:E.
  { injection Hstep as <-; left; reflexivity. }
  apply orb_false_iff in E; destruct E as [E1 _]; apply Z.ltb_ge in E1.
  assert (Hsize : 0 <= size < 2 ^ 32) by apply u32_range.
  destruct (Suunto.fill_loop _ _ _ _ _ _ _) as [[rc c] |] eqn:Hfill; [| discriminate].
  destruct (negb (dc_status_eqb rc DC_STATUS_SUCCESS)) eqn:Erc.
  { injection Hstep as <-; left; reflexivity. }
  apply negb_false_iff, dc_status_eqb_eq in Erc; subst rc.
  injection Hstep as <-; unfold Suunto.visit_dive.
  rewrite Z.add_0_r, (u32_small (size - 4)) by lia.
  set (p := Suunto.c_offset link c + u32 (Suunto.c_nbytes link c - size)).
  set (buffer := Suunto.c_data link c).
  destruct (negb (Suunto.in_profile _ (array_uint16_le buffer p))
            || negb (Suunto.in_profile _ (array_uint16_le buffer (p + 2)))) eqn:Ein;
    [left; reflexivity |].
  apply orb_false_iff in Ein; destruct Ein as [Ep En].
  apply negb_false_iff, in_profile_true in Ep, En.
  destruct (negb (array_uint16_le buffer (p + 2) =? Suunto.previous _ _ t)
            && negb (array_uint16_le buffer (p + 2) =? Suunto.current _ _ t)) eqn:Elink;
    [left; reflexivity |].
  destruct (array_uint16_le buffer (p + 2) =? Suunto.current _ _ t) eqn:Eself;
    cbn [negb]; [left; reflexivity |].
  rewrite andb_true_r in Elink; apply negb_false_iff, Z.eqb_eq in Elink.
  destruct (bytes_eqb _ _); [left; reflexivity |].
  right.
  assert (Hprev : nth 0 (slice buffer p size) 0
                  + Z.shiftl (nth 1 (slice buffer p size) 0) 8
                  = array_uint16_le buffer p).
  { rewrite !nth_slice by lia; unfold array_uint16_le; cbn [Z.of_nat Pos.of_succ_nat Pos.succ].
    now rewrite Z.add_0_r. }
  assert (Hnext : nth 2 (slice buffer p size) 0
                  + Z.shiftl (nth 3 (slice buffer p size) 0) 8
                  = array_uint16_le buffer (p + 2)).
  { rewrite !nth_slice by lia; unfold array_uint16_le; cbn [Z.of_nat Pos.of_succ_nat Pos.succ].
    now rewrite <- Z.add_assoc. }
  set (fp := slice buffer (p + (Suunto.FP_OFFSET + (if model =? 21 then 6 else 0))) fpsz).
  set (dive := slice buffer (p + 4) (size - 4)).
  rewrite recording_call.
  destruct (cb dive fp (fst (Suunto.userdata _ _ t))) as [more u'] eqn:Ecb;
    cbn [fst snd].
  exists c, more; split; [reflexivity |]; cbv zeta; fold p buffer dive fp.
  rewrite Hprev, Hnext.
  repeat split; try apply Ep; try apply En; try exact Elink.
  - subst dive; symmetry; apply (skipn_slice buffer p size 4); lia.
  - subst dive; rewrite slice_length; lia.
  - subst before; rewrite Ecb; destruct more; reflexivity.
  - destruct more; reflexivity.
Qed.

Lemma dive_starts_with_its_links_witness :
  exists (r : Suunto.step_result SuuntoSim.sim (unit * call_log))
         (dive fp : list Z) (more : bool),
    Suunto.dive_step 7 SuuntoSim.sim (Some SuuntoSim.sim_packet) (unit * call_log)
      (SuuntoSim.fresh SuuntoSim.d9_layout) 0x0E
      (Some (recording SuuntoSim.keep_going)) at_oldest_dive
    = Some r
    /\ snd (state_after r) = [(dive, fp, more)]
    /\ Z.of_nat (length dive) = 36.
Proof.
  eassert (Hs : Suunto.dive_step 7 SuuntoSim.sim (Some SuuntoSim.sim_packet)
                  (unit * call_log) (SuuntoSim.fresh SuuntoSim.d9_layout) 0x0E
                  (Some (recording SuuntoSim.keep_going)) at_oldest_dive
                = Some _)
    by (vm_compute; reflexivity).
  destruct (dive_starts_with_its_links 7 SuuntoSim.sim unit
              (Some SuuntoSim.sim_packet) (SuuntoSim.fresh SuuntoSim.d9_layout)
              0x0E SuuntoSim.keep_going _ _ Hs)
    as [H | (c & more & _ & _ & _ & _ & _ & Hlen & _ & Hlog)].
  - exfalso; revert H; vm_compute; discriminate.
  - eexists; eexists; eexists; exists more.
    split; [exact Hs |]; split; [exact Hlog |].
    rewrite Hlen; vm_compute; reflexivity.
Defined.

(** The specification as written fails when the package just read holds
    more than one dive.  At the first dive of [three_dives] the dive has 40
    bytes and [offset] is 8; [buffer[offset + 4 .. offset + size)] holds
    bytes of the oldest dive, and the last four bytes of [buffer[offset ..
    offset + size)] decode to 0x0101, no address of the ring buffer; the
    callback is given the 36 bytes of the newest dive, which is 80 bytes
    further.  There the pointers 450 and 530 are the first four bytes; the
    last four bytes of the dive are bytes of its profile, 0x0303 twice,
    which is neither [previous] nor [current]; and the download succeeds. *)
Lemma dive_is_not_at_offset :
  match first_dive (SuuntoSim.fresh SuuntoSim.d9_layout)
          (SuuntoSim.powered SuuntoSim.three_dives) with
  | Some (model, t, c) =>
      let size := Suunto.dive_size _ _ SuuntoSim.d9_layout t in
      let offset := Suunto.c_offset _ c in
      let available := u32 (Suunto.c_nbytes _ c - size) in
      let buffer := Suunto.c_data _ c in
      size = 40 /\ offset = 8
      /\ slice buffer (offset + 4) (size - 4) = repeat 1 36
      /\ array_uint16_le buffer (offset + size - 4) = 0x0101
      /\ ~ within_profile SuuntoSim.d9_layout 0x0101
      /\ available = 80
      /\ array_uint16_le buffer (offset + available) = 450
      /\ array_uint16_le buffer (offset + available + 2) = 530
      /\ array_uint16_le buffer (offset + available + size - 4) = 0x0303
      /\ array_uint16_le buffer (offset + available + size - 2) = 0x0303
      /\ Suunto.previous _ _ t = 530 /\ Suunto.current _ _ t = 490
      /\ exists (log : call_log) (s' : SuuntoSim.sim),
           SuuntoSim.download (SuuntoSim.fresh SuuntoSim.d9_layout)
             SuuntoSim.keep_going (SuuntoSim.powered SuuntoSim.three_dives)
           = Some (DC_STATUS_SUCCESS, (tt, log), s')
           /\ map (fun call => fst (fst call)) log
              = [repeat 3 36; repeat 2 36; repeat 1 36]
  | None => False
  end.
Proof.
  vm_compute; repeat (split; [reflexivity |]).
  split; [intros [H _]; apply H; reflexivity |].
  repeat (split; [reflexivity |]).
  eexists; eexists; split; reflexivity.
Qed.

(** ** Family B: reading and writing the memory *)

Lemma memcpy_inside (d : buffer) (a : Z) (src : list Z) (n i : Z) :
  0 <= i < n -> memcpy d a src n (a + i) = nth (Z.to_nat i) src 0.
Proof.
  intros Hi; unfold memcpy.
  replace ((a <=? a + i) && (a + i <? a + n)) with true
    by (symmetry; apply andb_true_iff; split; [apply Z.leb_le | apply Z.ltb_lt]; lia).
  f_equal; lia.
Qed.

Lemma memcpy_outside (d : buffer) (a : Z) (src : list Z) (n i : Z) :
  i < a \/ a + n <= i -> memcpy d a src n i = d i.
Proof.
  intros Hi; unfold memcpy.
  destruct ((a <=? i) && (i <? a + n)) eqn:E; [| reflexivity].
  apply andb_true_iff in E; destruct E as [E1 E2].
  apply Z.leb_le in E1; apply Z.ltb_lt in E2; lia.
Qed.

Lemma nth_skipn_Z (k : nat) (l : list Z) (i : nat) :
  nth i (skipn k l) 0 = nth (k + i) l 0.
Proof.
  revert l; induction k as [| k IH]; intros l; [reflexivity |].
  destruct l as [| x l]; [destruct i; reflexivity | apply IH].
Qed.

Section ReaderFrame.

Local Abbreviation read_loop_body := (@read_loop_unfold).

Import Suunto.

Context {link : Type} (backend_packet : option (packet_t link)).

Lemma read_loop_frame (n : nat) :
  forall (l : link) (address : Z) (data : buffer) (at_ size : Z),
    (Z.to_nat size <= n)%nat ->
    forall i : Z, i < at_ \/ at_ + size <= i ->
      snd (fst (read_loop link backend_packet l address data at_ size 0)) i = data i.
Proof.
  induction n as [| n IH]; intros l address data at_ size Hn i Hi;
    rewrite (read_loop_body link backend_packet l address data at_ size 0).
  - assert (E : (0 <? size) = false) by (apply Z.ltb_ge; lia).
    rewrite E; reflexivity.
  - destruct (0 <? size) eqn:E; [| reflexivity].
    apply Z.ltb_lt in E; cbv zeta; rewrite Z.sub_0_r.
    set (len := if SZ_PACKET <? size then SZ_PACKET else size).
    assert (Hlen : 0 < len <= size).
    { subst len; unfold SZ_PACKET; destruct (120 <? size) eqn:E2;
        [apply Z.ltb_lt in E2 | apply Z.ltb_ge in E2]; lia. }
    destruct (suunto_common2_transfer _ _ _ _ _ _) as [[rc answer] l'].
    destruct (negb (dc_status_eqb rc DC_STATUS_SUCCESS)); [reflexivity |].
    rewrite Z.add_0_l, (read_loop_shift backend_packet n) by lia.
    rewrite IH by lia.
    apply memcpy_outside; lia.
Qed.

End ReaderFrame.

Lemma transfer_first_success {link : Type} (packet : Suunto.packet_t link)
    (l l' : link) (command answer : list Z) (asize size : Z) :
  packet l command asize size = (DC_STATUS_SUCCESS, answer, l') ->
  Suunto.suunto_common2_transfer link (Some packet) l command asize size
  = (DC_STATUS_SUCCESS, answer, l').
Proof.
  intros H; unfold Suunto.suunto_common2_transfer, Suunto.MAXRETRIES.
  cbn [Suunto.transfer_attempts]; rewrite H; reflexivity.
Qed.

Section ReaderMemory.

Local Abbreviation read_loop_body := (@read_loop_unfold).

Import Suunto.

Context {link : Type} (packet : packet_t link) (holds : link -> buffer -> Prop).
Hypothesis faithful : answers_reads packet holds.
Variable mem : buffer.

Lemma read_loop_memory (n : nat) :
  forall (l : link) (address : Z) (data : buffer) (at_ size : Z),
    (Z.to_nat size <= n)%nat ->
    holds l mem -> 0 <= address -> address + size <= 2 ^ 16 ->
    exists (data' : buffer) (l' : link),
      read_loop link (Some packet) l address data at_ size 0
      = (DC_STATUS_SUCCESS, data', l')
      /\ holds l' mem
      /\ (forall i : Z, 0 <= i < size -> data' (at_ + i) = mem (address + i))
      /\ (forall i : Z, i < at_ \/ at_ + size <= i -> data' i = data i).
Proof.
  induction n as [| n IH]; intros l address data at_ size Hn Hl Ha Hend;
    rewrite (read_loop_body link (Some packet) l address data at_ size 0).
  - assert (E : (0 <? size) = false) by (apply Z.ltb_ge; lia).
    rewrite E; exists data, l; repeat split; [exact Hl | intros; lia].
  - destruct (0 <? size) eqn:E.
    2:{ apply Z.ltb_ge in E; exists data, l; repeat split; [exact Hl | intros; lia]. }
    apply Z.ltb_lt in E; cbv zeta; rewrite Z.sub_0_r.
    set (len := if SZ_PACKET <? size then SZ_PACKET else size).
    assert (Hlen : 0 < len <= size /\ len <= SZ_PACKET).
    { subst len; unfold SZ_PACKET; destruct (120 <? size) eqn:E2;
        [apply Z.ltb_lt in E2 | apply Z.ltb_ge in E2]; lia. }
    destruct (faithful l mem address len Hl) as (answer & l1 & Hp & Hans & Hl1);
      [lia | lia |].
    rewrite (transfer_first_success packet l l1 _ answer _ _ Hp).
    cbn [dc_status_eqb negb].
    rewrite Z.add_0_l, (read_loop_shift (Some packet) n) by lia.
    rewrite u32_small by lia.
    destruct (IH l1 (address + len) (memcpy data at_ (skipn 6 answer) len)
                (at_ + len) (size - len)) as (data' & l' & Hrun & Hl' & Hin & Hout);
      [lia | exact Hl1 | lia | lia |].
    exists data', l'; split; [exact Hrun |]; split; [exact Hl' |]; split.
    + intros i Hi.
      destruct (Z_lt_le_dec i len) as [Hlt | Hge].
      * rewrite Hout by lia.
        rewrite memcpy_inside by lia.
        rewrite nth_skipn_Z, <- Hans by lia.
        f_equal; lia.
      * replace (at_ + i) with (at_ + len + (i - len)) by lia.
        rewrite Hin by lia; f_equal; lia.
    + intros i Hi; rewrite Hout by lia.
      apply memcpy_outside; lia.
Qed.

End ReaderMemory.

Section Writer.

Import Suunto.

Context {link : Type} (backend_packet : option (packet_t link)).

Lemma write_loop_step (l : link) (address : Z) (data : buffer) (at_ size nbytes : Z) :
  write_loop link backend_packet l address data at_ size nbytes =
  if nbytes <? size then
    let len := if SZ_PACKET <? size - nbytes then SZ_PACKET else size - nbytes in
    let '(rc, _, l') :=
      suunto_common2_transfer link backend_packet l
        (write_command address len (slice data at_ len)) 7 0 in
    if negb (dc_status_eqb rc DC_STATUS_SUCCESS) then (rc, l')
    else write_loop link backend_packet l' (u32 (address + len)) data (at_ + len)
           size (nbytes + len)
  else (DC_STATUS_SUCCESS, l).
Proof.
  rewrite write_loop_equation_1.
  destruct (inspect (nbytes <? size)) as [[] e]; simp write_loop; rewrite e; reflexivity.
Qed.

Lemma write_loop_shift (n : nat) :
  forall (l : link) (address : Z) (data : buffer) (at_ size nbytes : Z),
    (Z.to_nat (size - nbytes) <= n)%nat ->
    write_loop link backend_packet l address data at_ size nbytes
    = write_loop link backend_packet l address data at_ (size - nbytes) 0.
Proof.
  induction n as [| n IH]; intros l address data at_ size nbytes Hn;
    rewrite (write_loop_step l address data at_ size nbytes),
            (write_loop_step l address data at_ (size - nbytes) 0).
  - assert (E1 : (nbytes <? size) = false) by (apply Z.ltb_ge; lia).
    assert (E2 : (0 <? size - nbytes) = false) by (apply Z.ltb_ge; lia).
    now rewrite E1, E2.
  - destruct (nbytes <? size) eqn:E1.
    + apply Z.ltb_lt in E1.
      assert (E2 : (0 <? size - nbytes) = true) by (apply Z.ltb_lt; lia).
      rewrite E2; cbv zeta; rewrite Z.sub_0_r.
      set (len := if SZ_PACKET <? size - nbytes then SZ_PACKET else size - nbytes).
      assert (Hlen : 0 < len <= size - nbytes).
      { subst len; unfold SZ_PACKET; destruct (120 <? size - nbytes) eqn:E3;
          [apply Z.ltb_lt in E3 | apply Z.ltb_ge in E3]; lia. }
      destruct (suunto_common2_transfer _ _ _ _ _ _) as [[rc answer] l'].
      destruct (negb (dc_status_eqb rc DC_STATUS_SUCCESS)); [reflexivity |].
      rewrite (IH l' _ data _ size (nbytes + len)) by lia.
      rewrite (IH l' _ data _ (size - nbytes) (0 + len)) by lia.
      f_equal; lia.
    + apply Z.ltb_ge in E1.
      assert (E2 : (0 <? size - nbytes) = false) by (apply Z.ltb_ge; lia).
      now rewrite E2.
Qed.

End Writer.

Section WriterMemory.

Import Suunto.

Context {link : Type} (packet : packet_t link) (holds : link -> buffer -> Prop).
Hypothesis obedient : accepts_writes packet holds.

Lemma write_loop_memory (n : nat) :
  forall (l : link) (mem : buffer) (address : Z) (data : buffer) (at_ size : Z),
    (Z.to_nat size <= n)%nat ->
    holds l mem -> 0 <= address -> address + size <= 2 ^ 16 ->
    exists (l' : link) (mem' : buffer),
      write_loop link (Some packet) l address data at_ size 0 = (DC_STATUS_SUCCESS, l')
      /\ holds l' mem'
      /\ (forall i : Z, 0 <= i < size -> mem' (address + i) = data (at_ + i))
      /\ (forall i : Z, i < address \/ address + size <= i -> mem' i = mem i).
Proof.
  induction n as [| n IH]; intros l mem address data at_ size Hn Hl Ha Hend;
    rewrite write_loop_step.
  - assert (E : (0 <? size) = false) by (apply Z.ltb_ge; lia).
    rewrite E; exists l, mem; repeat split; [exact Hl | intros; lia].
  - destruct (0 <? size) eqn:E.
    2:{ apply Z.ltb_ge in E; exists l, mem; repeat split; [exact Hl | intros; lia]. }
    apply Z.ltb_lt in E; cbv zeta; rewrite Z.sub_0_r.
    set (len := if SZ_PACKET <? size then SZ_PACKET else size).
    assert (Hlen : 0 < len <= size /\ len <= SZ_PACKET).
    { subst len; unfold SZ_PACKET; destruct (120 <? size) eqn:E2;
        [apply Z.ltb_lt in E2 | apply Z.ltb_ge in E2]; lia. }
    destruct (obedient l mem address len (slice data at_ len) Hl)
      as (answer & l1 & Hp & Hl1);
      [lia | lia | lia | rewrite slice_length; lia |].
    rewrite (transfer_first_success packet l l1 _ answer _ _ Hp).
    cbn [dc_status_eqb negb].
    rewrite Z.add_0_l, (write_loop_shift (Some packet) n) by lia.
    rewrite u32_small by lia.
    destruct (IH l1 (memcpy mem address (slice data at_ len) len) (address + len) data
                (at_ + len) (size - len)) as (l' & mem' & Hrun & Hl' & Hin & Hout);
      [lia | exact Hl1 | lia | lia |].
    exists l', mem'; split; [exact Hrun |]; split; [exact Hl' |]; split.
    + intros i Hi.
      destruct (Z_lt_le_dec i len) as [Hlt | Hge].
      * rewrite Hout by lia.
        rewrite memcpy_inside by lia.
        replace i with (Z.of_nat (Z.to_nat i)) at 2 by lia.
        rewrite nth_slice by lia; f_equal; lia.
      * replace (address + i) with (address + len + (i - len)) by lia.
        rewrite Hin by lia; f_equal; lia.
    + intros i Hi; rewrite Hout by lia.
      apply memcpy_outside; lia.
Qed.

End WriterMemory.

Lemma address_bytes (a : Z) :
  0 <= a < 2 ^ 16 -> Z.land (Z.shiftr a 8) 0xFF * 256 + Z.land a 0xFF = a.
Proof.
  intros Ha.
  change 0xFF with (Z.ones 8).
  rewrite !Z.land_ones, Z.shiftr_div_pow2 by lia.
  change (2 ^ 8) with 256.
  rewrite (Z.mod_small (a / 256)).
  - rewrite Z.mul_comm; symmetry; apply Z.div_mod; lia.
  - split; [apply Z.div_pos; lia | apply Z.div_lt_upper_bound; lia].
Qed.

Lemma u8_small (x : Z) : 0 <= x < 256 -> u8 x = x.
Proof. intros H; unfold u8; now apply Z.mod_small. Qed.

Lemma mem_packet_answers_reads :
  answers_reads SuuntoMem.mem_packet SuuntoMem.same.
Proof.
  intros m mem a len Hm Ha Hlen; unfold Suunto.SZ_PACKET in Hlen.
  unfold Suunto.read_command; cbn [app SuuntoMem.mem_packet].
  rewrite address_bytes, u8_small by lia.
  eexists; eexists; split; [reflexivity |]; split; [| exact Hm].
  intros i Hi.
  replace (Z.to_nat (6 + i)) with (6 + Z.to_nat i)%nat by lia.
  cbn [nth Nat.add app].
  rewrite app_nth1 by (rewrite slice_length; lia).
  rewrite nth_slice by lia.
  rewrite Hm; f_equal; lia.
Qed.

Lemma mem_packet_accepts_writes :
  accepts_writes SuuntoMem.mem_packet SuuntoMem.same.
Proof.
  intros m mem a len payload Hm Ha Hend Hlen Hpay; unfold Suunto.SZ_PACKET in Hlen.
  unfold Suunto.write_command; cbn [app SuuntoMem.mem_packet].
  rewrite address_bytes, !u8_small by lia.
  eexists; eexists; split; [reflexivity |].
  intros i; unfold memcpy.
  destruct ((a <=? i) && (i <? a + len)) eqn:E; [| apply Hm].
  apply andb_true_iff in E; destruct E as [E1 E2].
  apply Z.leb_le in E1; apply Z.ltb_lt in E2.
  apply app_nth1; lia.
Qed.

(** X1.  [suunto_common2_device_read] changes its destination only: whatever
    the backend does, and whether the read succeeds or fails on the way,
    the bytes of [data] before [data + at_] and from [data + at_ + size] on
    are what they were. *)
Theorem read_changes_only_its_destination :
  forall (link : Type) (backend_packet : option (Suunto.packet_t link))
         (l : link) (address : Z) (data : buffer) (at_ size : Z) (i : Z),
    i < at_ \/ at_ + size <= i ->
    snd (fst (Suunto.suunto_common2_device_read link backend_packet l address
                data at_ size)) i
    = data i.
Proof.
  intros link backend_packet l address data at_ size i Hi.
  unfold Suunto.suunto_common2_device_read.
  now apply (read_loop_frame backend_packet (Z.to_nat size)).
Qed.

Lemma read_changes_only_its_destination_witness :
  let s := {| SuuntoSim.mem := SuuntoSim.three_dives; SuuntoSim.ident := [0x0E; 1; 2; 3];
              SuuntoSim.faults := [DC_STATUS_IO]; SuuntoSim.received := [] |} in
  let r := Suunto.suunto_common2_device_read _ (Some SuuntoSim.sim_packet) s
             410 (bytes [7; 7; 7; 7]) 1 2 in
  snd (fst r) 0 = 7 /\ snd (fst r) 3 = 7.
Proof.
  intros s r; subst r; split.
  - apply (read_changes_only_its_destination SuuntoSim.sim (Some SuuntoSim.sim_packet)
             s 410 (bytes [7; 7; 7; 7]) 1 2 0); lia.
  - apply (read_changes_only_its_destination SuuntoSim.sim (Some SuuntoSim.sim_packet)
             s 410 (bytes [7; 7; 7; 7]) 1 2 3); lia.
Defined.

(** X2.  On a device that answers every read command with the bytes of its
    memory, [suunto_common2_device_read] succeeds and the destination holds
    the [size] bytes of the memory from [address] on, for every range of
    the 16-bit address space and however many packets it takes. *)
Theorem read_returns_device_memory :
  forall (link : Type) (packet : Suunto.packet_t link)
         (holds : link -> buffer -> Prop),
    answers_reads packet holds ->
    forall (l : link) (mem : buffer) (address : Z) (data : buffer) (at_ size : Z),
      holds l mem -> 0 <= address -> address + size <= 2 ^ 16 ->
      exists (data' : buffer) (l' : link),
        Suunto.suunto_common2_device_read link (Some packet) l address data at_ size
        = (DC_STATUS_SUCCESS, data', l')
        /\ holds l' mem
        /\ forall i : Z, 0 <= i < size -> data' (at_ + i) = mem (address + i).
Proof.
  intros link packet holds faithful l mem address data at_ size Hl Ha Hend.
  destruct (read_loop_memory packet holds faithful mem (Z.to_nat size)
              l address data at_ size) as (data' & l' & Hrun & Hl' & Hin & _);
    [lia | exact Hl | exact Ha | exact Hend |].
  exists data', l'; auto.
Qed.

Lemma read_returns_device_memory_witness :
  exists (data' : buffer) (m' : buffer),
    Suunto.suunto_common2_device_read buffer (Some SuuntoMem.mem_packet)
      SuuntoSim.three_dives 410 zeroed 0 250
    = (DC_STATUS_SUCCESS, data', m')
    /\ forall i : Z, 0 <= i < 250 -> data' (0 + i) = SuuntoSim.three_dives (410 + i).
Proof.
  destruct (read_returns_device_memory buffer SuuntoMem.mem_packet SuuntoMem.same
              mem_packet_answers_reads SuuntoSim.three_dives SuuntoSim.three_dives
              410 zeroed 0 250) as (data' & m' & Hrun & _ & Hin).
  - intros i; reflexivity.
  - lia.
  - lia.
  - exists data', m'; split; [exact Hrun | exact Hin].
Defined.

(** X3.  On a device that stores what a write command carries,
    [suunto_common2_device_write] succeeds and afterwards the device memory
    holds the [size] bytes of [data] from [address] on and is unchanged
    everywhere else. *)
Theorem write_stores_the_bytes :
  forall (link : Type) (packet : Suunto.packet_t link)
         (holds : link -> buffer -> Prop),
    accepts_writes packet holds ->
    forall (l : link) (mem : buffer) (address : Z) (data : buffer) (at_ size : Z),
      holds l mem -> 0 <= address -> address + size <= 2 ^ 16 ->
      exists (l' : link) (mem' : buffer),
        Suunto.suunto_common2_device_write link (Some packet) l address data at_ size
        = (DC_STATUS_SUCCESS, l')
        /\ holds l' mem'
        /\ (forall i : Z, 0 <= i < size -> mem' (address + i) = data (at_ + i))
        /\ (forall i : Z, i < address \/ address + size <= i -> mem' i = mem i).
Proof.
  intros link packet holds obedient l mem address data at_ size Hl Ha Hend.
  unfold Suunto.suunto_common2_device_write.
  apply (write_loop_memory packet holds obedient (Z.to_nat size)); [lia | assumption ..].
Qed.

Lemma write_stores_the_bytes_witness :
  exists m' : buffer,
    Suunto.suunto_common2_device_write buffer (Some SuuntoMem.mem_packet)
      zeroed 0x0100 (bytes (repeat 9 300)) 0 300
    = (DC_STATUS_SUCCESS, m')
    /\ m' 0x00FF = 0 /\ m' 0x0100 = 9 /\ m' 0x022B = 9 /\ m' 0x022C = 0.
Proof.
  destruct (write_stores_the_bytes buffer SuuntoMem.mem_packet SuuntoMem.same
              mem_packet_accepts_writes zeroed zeroed 0x0100 (bytes (repeat 9 300)) 0 300)
    as (m' & mem' & Hrun & Hm' & Hin & Hout).
  - intros i; reflexivity.
  - lia.
  - lia.
  - exists m'; split; [exact Hrun |].
    rewrite !Hm'.
    rewrite (Hout 0x00FF), (Hout 0x022C) by lia.
    change 0x0100 with (0x0100 + 0); change 0x022B with (0x0100 + 299).
    rewrite !Hin by lia.
    repeat split.
Defined.

(** X4.  What [suunto_common2_device_write] has written,
    [suunto_common2_device_read] reads back: on a device that stores
    writes and answers reads from its memory, a write of [size] bytes at
    [address] followed by a read of the same range gives the bytes
    written. *)
Theorem read_after_write :
  forall (link : Type) (packet : Suunto.packet_t link)
         (holds : link -> buffer -> Prop),
    answers_reads packet holds -> accepts_writes packet holds ->
    forall (l : link) (mem : buffer) (address : Z) (data back : buffer)
           (at_ to size : Z),
      holds l mem -> 0 <= address -> address + size <= 2 ^ 16 ->
      exists (l1 l2 : link) (back' : buffer),
        Suunto.suunto_common2_device_write link (Some packet) l address data at_ size
        = (DC_STATUS_SUCCESS, l1)
        /\ Suunto.suunto_common2_device_read link (Some packet) l1 address back to size
           = (DC_STATUS_SUCCESS, back', l2)
        /\ forall i : Z, 0 <= i < size -> back' (to + i) = data (at_ + i).
Proof.
  intros link packet holds faithful obedient l mem address data back at_ to size
    Hl Ha Hend.
  destruct (write_loop_memory packet holds obedient (Z.to_nat size)
              l mem address data at_ size) as (l1 & mem' & Hw & Hl1 & Hin & _);
    [lia | assumption .. |].
  destruct (read_loop_memory packet holds faithful mem' (Z.to_nat size)
              l1 address back to size) as (back' & l2 & Hr & _ & Hback & _);
    [lia | assumption .. |].
  exists l1, l2, back'; split; [exact Hw |]; split; [exact Hr |].
  intros i Hi; rewrite Hback, Hin by lia; reflexivity.
Qed.

Lemma read_after_write_witness :
  exists (m1 m2 : buffer) (back' : buffer),
    Suunto.suunto_common2_device_write buffer (Some SuuntoMem.mem_packet)
      SuuntoSim.three_dives 0x7F00 (bytes (repeat 5 200)) 0 200
    = (DC_STATUS_SUCCESS, m1)
    /\ Suunto.suunto_common2_device_read buffer (Some SuuntoMem.mem_packet)
         m1 0x7F00 zeroed 8 200
       = (DC_STATUS_SUCCESS, back', m2)
    /\ forall i : Z, 0 <= i < 200 -> back' (8 + i) = bytes (repeat 5 200) (0 + i).
Proof.
  apply (read_after_write buffer SuuntoMem.mem_packet SuuntoMem.same
           mem_packet_answers_reads mem_packet_accepts_writes
           SuuntoSim.three_dives SuuntoSim.three_dives).
  - intros i; reflexivity.
  - lia.
  - lia.
Defined.

(** ** Family B: downloads without dives, packets or callback *)

(** X5.  A backend without a packet function: the version query, the reset
    of the maximum depth, every read and write of one byte or more and the
    download return [UNSUPPORTED], the line and the caller's data being
    untouched and no callback being called. *)
Theorem no_packet_function_is_unsupported :
  forall (SZ_FINGERPRINT : Z) (link U : Type)
         (device : Suunto.suunto_common2_device_t) (heap : option buffer)
         (callback : option (Suunto.dive_callback_t U)) (u : U) (l : link)
         (address : Z) (data : buffer) (at_ size : Z),
    Suunto.suunto_common2_device_version link None l Suunto.SZ_VERSION
    = (DC_STATUS_UNSUPPORTED, [], l)
    /\ Suunto.suunto_common2_device_reset_maxdepth link None l
       = (DC_STATUS_UNSUPPORTED, l)
    /\ (0 < size ->
        Suunto.suunto_common2_device_read link None l address data at_ size
        = (DC_STATUS_UNSUPPORTED, data, l))
    /\ (0 < size ->
        Suunto.suunto_common2_device_write link None l address data at_ size
        = (DC_STATUS_UNSUPPORTED, l))
    /\ Suunto.suunto_common2_device_foreach SZ_FINGERPRINT link None U device heap
         callback u l
       = Some (DC_STATUS_UNSUPPORTED, u, l).
Proof.
  intros fpsz link U device heap callback u l address data at_ size.
  split; [reflexivity |]; split; [reflexivity |]; split; [| split].
  - intros Hs; unfold Suunto.suunto_common2_device_read.
    rewrite read_loop_unfold.
    apply Z.ltb_lt in Hs; rewrite Hs; reflexivity.
  - intros Hs; unfold Suunto.suunto_common2_device_write.
    rewrite write_loop_step.
    apply Z.ltb_lt in Hs; rewrite Hs; reflexivity.
  - reflexivity.
Qed.

Lemma no_packet_function_is_unsupported_witness :
  Suunto.suunto_common2_device_read unit None tt 0x0190 zeroed 0 8
  = (DC_STATUS_UNSUPPORTED, zeroed, tt)
  /\ Suunto.suunto_common2_device_write unit None tt 0x0190 zeroed 0 8
     = (DC_STATUS_UNSUPPORTED, tt).
Proof.
  destruct (no_packet_function_is_unsupported 7 unit unit
              (SuuntoSim.fresh SuuntoSim.d9_layout) None None tt tt 0x0190 zeroed 0 8)
    as (_ & _ & Hr & Hw & _).
  split; [apply Hr | apply Hw]; lia.
Defined.

(** X6.  An empty ring buffer: when the header says [count = 0] and
    [begin = end] (and the three pointers are addresses of the ring
    buffer), the download returns [SUCCESS] right after the header, with no
    further read and no callback. *)
Theorem empty_ring_buffer_downloads_nothing :
  forall (SZ_FINGERPRINT : Z) (link : Type)
         (backend_packet : option (Suunto.packet_t link)) (U : Type)
         (device : Suunto.suunto_common2_device_t) (block : buffer)
         (callback : option (Suunto.dive_callback_t U)) (u : U)
         (l l1 l2 l3 : link) (id : list Z) (number header : buffer),
    Suunto.suunto_common2_device_version link backend_packet l Suunto.SZ_VERSION
    = (DC_STATUS_SUCCESS, id, l1) ->
    Suunto.suunto_common2_device_read link backend_packet l1
      (Suunto.serial (Suunto.layout device)) zeroed 0 8
    = (DC_STATUS_SUCCESS, number, l2) ->
    Suunto.suunto_common2_device_read link backend_packet l2 0x0190 zeroed 0 8
    = (DC_STATUS_SUCCESS, header, l3) ->
    within_profile (Suunto.layout device) (Suunto.header_last header) ->
    within_profile (Suunto.layout device) (Suunto.header_end header) ->
    Suunto.header_begin header = Suunto.header_end header ->
    Suunto.header_count header = 0 ->
    Suunto.suunto_common2_device_foreach SZ_FINGERPRINT link backend_packet U
      device (Some block) callback u l
    = Some (DC_STATUS_SUCCESS, u, l3).
Proof.
  intros fpsz link backend_packet U device block callback u l l1 l2 l3 id number
    header Hv Hs Hh Hlast Hend Hbegin Hcount.
  unfold Suunto.suunto_common2_device_foreach.
  rewrite (foreach_prologue_header backend_packet device (Some block) u
             l l1 l2 l3 id number header Hv Hs Hh).
  unfold Suunto.header_last, Suunto.header_end, Suunto.header_begin,
    Suunto.header_count in *.
  rewrite Hbegin, Hcount.
  apply in_profile_true in Hlast, Hend; rewrite Hlast, Hend; cbn [negb orb].
  unfold ringbuffer_distance; rewrite Z.eqb_refl; cbn [Z.eqb negb].
  reflexivity.
Qed.

Lemma empty_ring_buffer_downloads_nothing_witness :
  exists s' : SuuntoSim.sim,
    SuuntoSim.download (SuuntoSim.fresh SuuntoSim.d9_layout) SuuntoSim.keep_going
      (SuuntoSim.powered empty_ring)
    = Some (DC_STATUS_SUCCESS, (tt, []), s')
    /\ length (SuuntoSim.received s') = 3%nat.
Proof.
  eexists; split.
  - unfold SuuntoSim.download.
    eapply (empty_ring_buffer_downloads_nothing 7 SuuntoSim.sim
              (Some SuuntoSim.sim_packet) (unit * call_log)
              (SuuntoSim.fresh SuuntoSim.d9_layout) zeroed
              (Some (recording SuuntoSim.keep_going)) (tt, [])
              (SuuntoSim.powered empty_ring));
      [ vm_compute; reflexivity | vm_compute; reflexivity | vm_compute; reflexivity
      | vm_compute; split; [discriminate | reflexivity]
      | vm_compute; split; [discriminate | reflexivity]
      | reflexivity | reflexivity ].
  - reflexivity.
Defined.

Section NullCallback.

Import Suunto.

Context (SZ_FINGERPRINT : Z) {link : Type} (backend_packet : option (packet_t link))
        {U : Type}.
Variables (device : suunto_common2_device_t) (model : Z).

Lemma dive_loop_null_callback (fuel : nat) :
  forall t : traversal link U,
    dive_loop SZ_FINGERPRINT link backend_packet U fuel device model None t
    = dive_loop SZ_FINGERPRINT link backend_packet U fuel device model
        (Some always_more) t.
Proof.
  induction fuel as [| fuel IH]; intros t; cbn [dive_loop]; [reflexivity |].
  destruct (remaining link U t =? 0); [reflexivity |].
  assert (Hstep : dive_step SZ_FINGERPRINT link backend_packet U device model None t
                  = dive_step SZ_FINGERPRINT link backend_packet U device model
                      (Some always_more) t).
  { unfold dive_step.
    destruct (_ || _); [reflexivity |].
    destruct (fill_loop _ _ _ _ _ _ _) as [[rc c] |]; [| reflexivity].
    destruct (negb (dc_status_eqb rc DC_STATUS_SUCCESS)); reflexivity. }
  rewrite Hstep.
  destruct (dive_step _ _ _ _ _ _ _ _) as [[t' | rc u l] |]; [apply IH | reflexivity ..].
Qed.

End NullCallback.

(** X7.  A download without a callback ([callback == NULL]) goes through the
    dives exactly as one whose callback asks for more at every dive: the
    same packets are exchanged and the same status is returned. *)
Theorem null_callback_downloads_all :
  forall (SZ_FINGERPRINT : Z) (link U : Type)
         (backend_packet : option (Suunto.packet_t link))
         (device : Suunto.suunto_common2_device_t) (heap : option buffer)
         (u : U) (l : link),
    Suunto.suunto_common2_device_foreach SZ_FINGERPRINT link backend_packet U
      device heap None u l
    = Suunto.suunto_common2_device_foreach SZ_FINGERPRINT link backend_packet U
        device heap (Some always_more) u l.
Proof.
  intros fpsz link U backend_packet device heap u l.
  unfold Suunto.suunto_common2_device_foreach.
  destruct (Suunto.foreach_prologue _ _ _ _ _ _ _) as [r | [m t]]; [reflexivity |].
  apply dive_loop_null_callback.
Qed.

(** ** Family B: the block of a download *)

Section Block.

Import Suunto.

Context (SZ_FINGERPRINT : Z) {link : Type} (backend_packet : option (packet_t link))
        {U : Type}.
Variables (device : suunto_common2_device_t) (model : Z)
          (callback : option (dive_callback_t U)) (block : buffer).

Local Abbreviation lay := (layout device).
Local Abbreviation fill := (fill_loop link backend_packet).
Local Abbreviation step :=
  (dive_step SZ_FINGERPRINT link backend_packet U device model callback).
Local Abbreviation walk :=
  (walk SZ_FINGERPRINT backend_packet device model callback).
Local Abbreviation cursor_ok := (@cursor_ok link device).
Local Abbreviation traversal_ok := (@traversal_ok link U device).
Local Abbreviation traversal_in_block := (@traversal_in_block link U device block).
Local Abbreviation block_kept := (block_kept device block).

Hypothesis fits : layout_fits lay.

(** The package loop writes below the offset it starts from, and not
    below the block. *)
Lemma fill_loop_frame (remaining size : Z) (fuel : nat) :
  forall c : cursor link,
    cursor_ok remaining c -> size <= remaining ->
    remaining <= rb_profile_end lay - rb_profile_begin lay ->
    c_offset link c + c_nbytes link c = remaining + SZ_MINIMUM ->
    (Z.to_nat (size - c_nbytes link c) <= fuel)%nat ->
    exists (rc : dc_status_t) (c' : cursor link),
      fill fuel lay remaining size c = Some (rc, c')
      /\ (forall j : Z, j < 0 \/ c_offset link c <= j ->
            c_data link c' j = c_data link c j)
      /\ (rc = DC_STATUS_SUCCESS ->
          cursor_ok remaining c' /\ size <= c_nbytes link c'
          /\ c_offset link c' + c_nbytes link c' = remaining + SZ_MINIMUM).
Proof.
  destruct fits as (Hb & Hbe & He); unfold SZ_PACKET, SZ_MINIMUM in *.
  induction fuel as [| fuel IH]; intros c Hc Hs Hr Hoff Hf.
  - exists DC_STATUS_SUCCESS, c; cbn [fill_loop].
    assert (E : (c_nbytes link c <? size) = false) by (apply Z.ltb_ge; lia).
    rewrite E; split; [reflexivity |]; split; [reflexivity |].
    intros _; split; [exact Hc | split; [lia | exact Hoff]].
  - cbn [fill_loop].
    destruct (c_nbytes link c <? size) eqn:E;
      [apply Z.ltb_lt in E
      | apply Z.ltb_ge in E; exists DC_STATUS_SUCCESS, c; split;
        [reflexivity | split; [reflexivity
                              | intros _; split; [exact Hc | split; [lia | exact Hoff]]]]].
    destruct (package_bounds device fits remaining c Hc) as (Hlen & Hsum & Hadr);
      [lia | exact Hr |].
    set (len := package_len link lay remaining c) in *.
    unfold SZ_PACKET in Hlen.
    assert (Hextra : 0 <= package_extra len <= 8 /\ 8 <= len + package_extra len).
    { unfold package_extra, SZ_MINIMUM; destruct (len <? 8) eqn:E8;
        [apply Z.ltb_lt in E8 | apply Z.ltb_ge in E8]; lia. }
    set (extra := package_extra len) in *.
    destruct Hc as [Ha Hn].
    assert (Hoff' : u32 (c_offset link c - len) = c_offset link c - len)
      by (apply u32_small; lia).
    rewrite Hoff'.
    pose proof (read_loop_frame backend_packet
                  (Z.to_nat (u32 (len + extra))) (c_line link c)
                  (u32 (u32 (package_end link lay c - len) - extra))
                  (c_data link c) (c_offset link c - len - extra)
                  (u32 (len + extra)) (Nat.le_refl _)) as Hframe.
    fold (suunto_common2_device_read link backend_packet (c_line link c)
            (u32 (u32 (package_end link lay c - len) - extra))
            (c_data link c) (c_offset link c - len - extra)
            (u32 (len + extra))) in Hframe.
    rewrite (u32_small (len + extra)) in * by lia.
    destruct (suunto_common2_device_read _ _ _ _ _ _ _) as [[rc data'] l'].
    cbn [fst snd] in Hframe.
    assert (Hkept : forall j : Z, j < 0 \/ c_offset link c <= j ->
                      data' j = c_data link c j).
    { intros j Hj; apply Hframe; lia. }
    destruct (negb (dc_status_eqb rc DC_STATUS_SUCCESS)) eqn:Erc.
    + eexists; eexists; split; [reflexivity |]; cbn [c_data].
      split; [exact Hkept | intros ->; discriminate Erc].
    + destruct (IH {| c_address := u32 (package_end link lay c - len);
                      c_offset := c_offset link c - len;
                      c_nbytes := u32 (c_nbytes link c + len);
                      c_data := data'; c_line := l' |})
        as (rc' & c' & Hrun & Hkept' & Hpost).
      * split; cbn [c_address c_nbytes].
        -- rewrite u32_small by lia; exact Hadr.
        -- rewrite u32_small by lia; lia.
      * exact Hs.
      * exact Hr.
      * cbn [c_offset c_nbytes]; rewrite u32_small by lia; lia.
      * cbn [c_nbytes]; rewrite u32_small by lia; lia.
      * exists rc', c'; split; [exact Hrun |]; split; [| exact Hpost].
        intros j Hj; cbn [c_offset c_data] in Hkept'.
        rewrite Hkept' by lia; apply Hkept; lia.
Qed.

Lemma dive_step_in_block (t t' : traversal link U) :
  traversal_in_block t -> step t = Some (Next link U t') -> traversal_in_block t'.
Proof.
  destruct fits as (Hb & Hbe & He); unfold SZ_PACKET in *.
  intros (Hok & Hoff & Hkept) Hstep.
  pose proof Hok as (Hr & Hav & Had).
  destruct (dive_step_total SZ_FINGERPRINT backend_packet device model callback fits t Hok)
    as (r & Hr' & Hnext).
  rewrite Hstep in Hr'; injection Hr' as <-.
  destruct (Hnext t' eq_refl) as [Hok' _].
  apply dive_step_next in Hstep; cbv zeta in Hstep.
  destruct Hstep as (Hsize & c & Hfill & Hvisit).
  set (size := dive_size link U lay t) in *.
  destruct (fill_loop_frame (remaining link U t) size (Z.to_nat size)
              (dive_cursor link U t)) as (rc & c' & Hfill' & Hframe & Hpost);
    [ split; cbn [dive_cursor c_address c_nbytes]; lia | lia | lia
    | cbn [dive_cursor c_offset c_nbytes]; exact Hoff
    | cbn [dive_cursor c_nbytes]; lia |].
  rewrite Hfill in Hfill'; injection Hfill' as <- <-.
  destruct (Hpost eq_refl) as ([Hca Hcn] & Hge & Hoff').
  apply visit_dive_next in Hvisit; destruct Hvisit as (prev & st & u & ->).
  split; [exact Hok' |]; split.
  - cbn [next_dive offset available remaining].
    rewrite (u32_small (remaining link U t - size)) by lia.
    rewrite (u32_small (c_nbytes link c - size)) by lia.
    lia.
  - cbn [next_dive data]; intros j Hj.
    cbn [dive_cursor c_offset c_data] in Hframe.
    unfold block_size, SZ_MINIMUM in *.
    rewrite Hframe by lia.
    apply Hkept; unfold block_size, SZ_MINIMUM; exact Hj.
Qed.

Lemma walk_in_block (t t' : traversal link U) (flags : list bool) :
  walk t flags t' -> traversal_in_block t -> traversal_in_block t'.
Proof.
  induction 1 as [t | t t1 t2 flags Hrem Hstep _ IH]; intros Hin; [exact Hin |].
  apply IH; now apply (dive_step_in_block t t1).
Qed.

Lemma foreach_prologue_block (u : U) (l : link) (m : Z) (t : traversal link U) :
  foreach_prologue link backend_packet U device (Some block) u l = inr (m, t) ->
  traversal_in_block t.
Proof.
  destruct fits as (Hb & Hbe & He); unfold SZ_PACKET in *.
  intros H.
  pose proof (foreach_prologue_ok backend_packet device fits (Some block) u l m t H)
    as Hok.
  split; [exact Hok |].
  destruct Hok as (Hr & _ & _).
  revert H Hr; unfold foreach_prologue.
  destruct (suunto_common2_device_version _ _ _ _) as [[rc1 id] l1].
  destruct (negb (dc_status_eqb rc1 _)); [discriminate |].
  destruct (suunto_common2_device_read _ _ l1 _ _ _ _) as [[rc2 number] l2].
  destruct (negb (dc_status_eqb rc2 _)); [discriminate |].
  destruct (suunto_common2_device_read _ _ l2 _ _ _ _) as [[rc3 header] l3].
  destruct (negb (dc_status_eqb rc3 _)); [discriminate |].
  destruct (_ || _); [discriminate |].
  intros H; injection H as <- <-; cbn [remaining offset available data].
  intros Hr; unfold SZ_MINIMUM in *.
  rewrite (u32_small (_ + 8)) by lia.
  split; [lia | intros j _; reflexivity].
Qed.

End Block.

(** X8.  The download writes inside the block it allocates only,
    [rb_profile_end - rb_profile_begin + SZ_MINIMUM] bytes: at every dive
    the traversal reaches, and after the package loop of that dive whether
    it succeeds or fails, the memory before the block and after it has not
    been written, the padded short reads included; and the [size] bytes of
    the dive at [data + offset + available] lie inside the block.  Nothing
    is said of the bytes the loop body reads at [p + fp_offset], which the
    code does not test against [size]. *)
Theorem download_writes_inside_its_block :
  forall (SZ_FINGERPRINT : Z) (link U : Type)
         (backend_packet : option (Suunto.packet_t link))
         (device : Suunto.suunto_common2_device_t) (model : Z)
         (callback : option (Suunto.dive_callback_t U)) (block : buffer)
         (u : U) (l : link) (t0 t : Suunto.traversal link U) (flags : list bool),
    layout_fits (Suunto.layout device) ->
    Suunto.foreach_prologue link backend_packet U device (Some block) u l
    = inr (model, t0) ->
    walk SZ_FINGERPRINT backend_packet device model callback t0 flags t ->
    let size := Suunto.dive_size link U (Suunto.layout device) t in
    let allocated :=
      Suunto.rb_profile_end (Suunto.layout device)
      - Suunto.rb_profile_begin (Suunto.layout device) + Suunto.SZ_MINIMUM in
    (forall j : Z, j < 0 \/ allocated <= j -> Suunto.data link U t j = block j)
    /\ forall (rc : dc_status_t) (c : Suunto.cursor link),
         size <= Suunto.remaining link U t ->
         Suunto.fill_loop link backend_packet (Z.to_nat size) (Suunto.layout device)
           (Suunto.remaining link U t) size (Suunto.dive_cursor link U t)
         = Some (rc, c) ->
         (forall j : Z, j < 0 \/ allocated <= j -> Suunto.c_data link c j = block j)
         /\ (rc = DC_STATUS_SUCCESS ->
             let p := Suunto.c_offset link c + u32 (Suunto.c_nbytes link c - size) in
             0 <= p /\ p + size <= allocated).
Proof.
  intros fpsz link U backend_packet device model callback block u l t0 t flags
    fits Hp Hw size allocated.
  pose proof (foreach_prologue_block backend_packet device block fits u l model t0 Hp)
    as H0.
  pose proof (walk_in_block fpsz backend_packet device model callback block fits
                t0 t flags Hw H0) as (Hok & Hoff & Hkept).
  split; [exact Hkept |].
  intros rc c Hsize Hfill.
  pose proof Hok as (Hr & Hav & Had).
  assert (Hs : 0 <= size < 2 ^ 32) by apply u32_range.
  destruct (fill_loop_frame backend_packet device fits (Suunto.remaining link U t)
              size (Z.to_nat size) (Suunto.dive_cursor link U t))
    as (rc' & c' & Hfill' & Hframe & Hpost);
    [ split; cbn [Suunto.dive_cursor Suunto.c_address Suunto.c_nbytes]; lia | lia | lia
    | cbn [Suunto.dive_cursor Suunto.c_offset Suunto.c_nbytes]; exact Hoff
    | cbn [Suunto.dive_cursor Suunto.c_nbytes]; lia |].
  fold size in Hfill'; rewrite Hfill in Hfill'; injection Hfill' as <- <-.
  cbn [Suunto.dive_cursor Suunto.c_offset Suunto.c_data] in Hframe.
  unfold Suunto.SZ_MINIMUM in *; subst allocated.
  split.
  - intros j Hj.
    rewrite Hframe by lia.
    apply Hkept; unfold block_size, Suunto.SZ_MINIMUM; exact Hj.
  - intros ->; destruct (Hpost eq_refl) as ([Hca Hcn] & Hge & Hoff'); cbv zeta.
    destruct fits as (Hb & Hbe & He); unfold Suunto.SZ_PACKET in *.
    rewrite (u32_small (Suunto.c_nbytes link c - size)) by lia.
    lia.
Qed.

Lemma download_writes_inside_its_block_witness :
  exists (model : Z) (t0 t : Suunto.traversal SuuntoSim.sim (unit * call_log))
         (flags : list bool),
    Suunto.foreach_prologue SuuntoSim.sim (Some SuuntoSim.sim_packet) (unit * call_log)
      (SuuntoSim.fresh SuuntoSim.d9_layout) (Some (bytes [])) (tt, [])
      (SuuntoSim.powered SuuntoSim.three_dives)
    = inr (model, t0)
    /\ walk 7 (Some SuuntoSim.sim_packet) (SuuntoSim.fresh SuuntoSim.d9_layout) model
         (Some (recording SuuntoSim.keep_going)) t0 flags t
    /\ length flags = 2%nat
    /\ Suunto.data _ _ t (-1) = 0
    /\ Suunto.data _ _ t (0x7FFE - 0x019A + 8) = 0.
Proof.
  eassert (Hp : Suunto.foreach_prologue SuuntoSim.sim (Some SuuntoSim.sim_packet)
                  (unit * call_log) (SuuntoSim.fresh SuuntoSim.d9_layout)
                  (Some (bytes [])) (tt, []) (SuuntoSim.powered SuuntoSim.three_dives)
                = inr (_, _)) by (vm_compute; reflexivity).
  match type of Hp with
  | _ = inr (?m, ?t0) =>
      eassert (Hw : walk 7 (Some SuuntoSim.sim_packet)
                      (SuuntoSim.fresh SuuntoSim.d9_layout) m
                      (Some (recording SuuntoSim.keep_going)) t0 _ _)
  end.
  { eapply walk_on; [vm_compute; discriminate | vm_compute; reflexivity |].
    eapply walk_on; [vm_compute; discriminate | vm_compute; reflexivity |].
    apply walk_stay. }
  destruct (download_writes_inside_its_block 7 SuuntoSim.sim (unit * call_log)
              (Some SuuntoSim.sim_packet) (SuuntoSim.fresh SuuntoSim.d9_layout) _
              (Some (recording SuuntoSim.keep_going)) (bytes []) (tt, [])
              (SuuntoSim.powered SuuntoSim.three_dives) _ _ _
              ltac:(cbv; repeat split; intros H; discriminate H) Hp Hw)
    as [Hkept _].
  eexists; eexists; eexists; eexists; split; [exact Hp |]; split; [exact Hw |].
  split; [reflexivity |].
  split; [apply (Hkept (-1)) | apply (Hkept (0x7FFE - 0x019A + 8))];
    cbn; lia.
Defined.

(** ** Family B: the dives are the stored bytes *)

Lemma ring_address_shift (layout : Suunto.suunto_common2_layout_t) (x k : Z) :
  ring_address layout
    (x + k * (Suunto.rb_profile_end layout - Suunto.rb_profile_begin layout))
  = ring_address layout x.
Proof.
  unfold ring_address; f_equal.
  set (S := Suunto.rb_profile_end layout - Suunto.rb_profile_begin layout).
  replace (x + k * S - Suunto.rb_profile_begin layout)
    with (x - Suunto.rb_profile_begin layout + k * S) by lia.
  apply Z_mod_plus_full.
Qed.

Lemma ring_address_inside (layout : Suunto.suunto_common2_layout_t) (a : Z) :
  within_profile layout a -> ring_address layout a = a.
Proof.
  unfold within_profile, ring_address; intros H.
  rewrite Z.mod_small by lia; lia.
Qed.

Lemma ring_address_of (layout : Suunto.suunto_common2_layout_t) (a x k : Z) :
  within_profile layout a ->
  a = x + k * (Suunto.rb_profile_end layout - Suunto.rb_profile_begin layout) ->
  ring_address layout x = a.
Proof.
  intros Ha Heq.
  rewrite <- (ring_address_shift layout x k), <- Heq.
  now apply ring_address_inside.
Qed.

Lemma ringbuffer_distance_full (a b rb_begin rb_end : Z) :
  rb_begin <= a < rb_end -> rb_begin <= b < rb_end ->
  exists m : Z,
    ringbuffer_distance a b true rb_begin rb_end = b - a + m * (rb_end - rb_begin).
Proof.
  intros Ha Hb; unfold ringbuffer_distance.
  destruct (a =? b) eqn:E; [apply Z.eqb_eq in E; exists 1; lia |].
  destruct (a <? b); [exists 0 | exists 1]; lia.
Qed.

Section Mirror.

Import Suunto.

Context (SZ_FINGERPRINT : Z) {link : Type} (packet : packet_t link)
        (holds : link -> buffer -> Prop) {U : Type}.
Variables (device : suunto_common2_device_t) (model : Z)
          (callback : option (dive_callback_t U)) (mem : buffer)
          (end0 remaining0 : Z).

Local Abbreviation lay := (layout device).
Local Abbreviation span := (rb_profile_end lay - rb_profile_begin lay).
Local Abbreviation base := (end0 - (remaining0 + SZ_MINIMUM)).
Local Abbreviation fill := (fill_loop link (Some packet)).
Local Abbreviation step :=
  (dive_step SZ_FINGERPRINT link (Some packet) U device model callback).
Local Abbreviation walk :=
  (walk SZ_FINGERPRINT (Some packet) device model callback).
Local Abbreviation cursor_ok := (@cursor_ok link device).
Local Abbreviation mirrors := (mirrors device mem end0 remaining0).
Local Abbreviation cursor_mirrors :=
  (@cursor_mirrors link holds device mem end0 remaining0).
Local Abbreviation traversal_mirrors :=
  (@traversal_mirrors link U holds device mem end0 remaining0).

Hypothesis faithful : answers_reads packet holds.
Hypothesis reach : layout_addressable lay.

Lemma addressable_fits : layout_fits lay.
Proof.
  destruct reach as (Hb & Hbe & He); unfold SZ_MINIMUM in Hb.
  unfold layout_fits, SZ_PACKET; lia.
Qed.

(** The package loop on a device that answers reads: it succeeds, and what
    it adds to the buffer is what the ring buffer holds there. *)
Lemma fill_loop_mirrors (remaining size : Z) (fuel : nat) :
  forall c : cursor link,
    cursor_mirrors remaining c -> size <= remaining -> remaining <= span ->
    (Z.to_nat (size - c_nbytes link c) <= fuel)%nat ->
    exists c' : cursor link,
      fill fuel lay remaining size c = Some (DC_STATUS_SUCCESS, c')
      /\ cursor_mirrors remaining c' /\ size <= c_nbytes link c'.
Proof.
  pose proof addressable_fits as fits.
  destruct reach as (Hb & Hbe & He); unfold SZ_PACKET, SZ_MINIMUM in *.
  induction fuel as [| fuel IH]; intros c Hc Hs Hr Hf.
  - exists c; cbn [fill_loop].
    assert (E : (c_nbytes link c <? size) = false) by (apply Z.ltb_ge; lia).
    rewrite E; split; [reflexivity | split; [exact Hc | lia]].
  - cbn [fill_loop].
    destruct (c_nbytes link c <? size) eqn:E;
      [apply Z.ltb_lt in E
      | apply Z.ltb_ge in E; exists c; split; [reflexivity | split; [exact Hc | lia]]].
    destruct Hc as (Hok & Hoff & Hr0 & (k & Hpos) & Hmir & Hl).
    unfold mirrors in Hmir; unfold SZ_MINIMUM in *.
    destruct (package_bounds device fits remaining c Hok) as (Hlen & Hsum & Hadr);
      [lia | exact Hr |].
    set (len := package_len link lay remaining c) in *.
    unfold SZ_PACKET in Hlen.
    assert (Hextra : 0 <= package_extra len <= 8 /\ 8 <= len + package_extra len <= 120).
    { unfold package_extra, SZ_MINIMUM; destruct (len <? 8) eqn:E8;
        [apply Z.ltb_lt in E8 | apply Z.ltb_ge in E8]; lia. }
    set (extra := package_extra len) in *.
    set (pe := package_end link lay c) in *.
    destruct Hok as [Ha Hn].
    assert (Hpe : pe <= rb_profile_end lay
                  /\ exists k' : Z, pe - c_offset link c = base + k' * span).
    { subst pe; unfold package_end.
      destruct (c_address link c =? rb_profile_begin lay) eqn:Ea.
      - apply Z.eqb_eq in Ea; split; [lia |].
        exists (k + 1); unfold SZ_MINIMUM; nia.
      - split; [lia | exists k; exact Hpos]. }
    unfold SZ_MINIMUM in Hpe.
    destruct Hpe as (Hpe_le & k' & Hpe).
    rewrite (u32_small (c_offset link c - len)) by lia.
    rewrite (u32_small (pe - len)) by lia.
    rewrite (u32_small (pe - len - extra)) by lia.
    rewrite (u32_small (len + extra)) by lia.
    unfold suunto_common2_device_read.
    destruct (read_loop_memory packet holds faithful mem (Z.to_nat (len + extra))
                (c_line link c) (pe - len - extra) (c_data link c)
                (c_offset link c - len - extra) (len + extra))
      as (data' & l' & Hrun & Hl' & Hin & Hout);
      [lia | exact Hl | lia | lia |].
    rewrite Hrun; cbn [dc_status_eqb negb].
    apply IH; [| exact Hs | exact Hr |].
    + split; [| split; [| split; [exact Hr0 | split; [| split]]]];
        cbn [c_address c_offset c_nbytes c_data c_line]; unfold SZ_MINIMUM.
      * split; cbn [c_address c_nbytes]; [exact Hadr |].
        rewrite u32_small by lia; lia.
      * rewrite u32_small by lia; lia.
      * exists k'; lia.
      * intros j Hj; unfold SZ_MINIMUM in Hj.
        destruct (Z_lt_le_dec j (c_offset link c)) as [Hlt | Hge].
        -- replace j with (c_offset link c - len - extra
                           + (j - (c_offset link c - len - extra))) at 1 by lia.
           rewrite Hin by lia.
           symmetry; f_equal; apply (ring_address_of lay _ _ k').
           ++ unfold within_profile; lia.
           ++ unfold SZ_MINIMUM; lia.
        -- rewrite Hout by lia; apply Hmir; lia.
      * exact Hl'.
    + cbn [c_nbytes]; rewrite u32_small by lia; lia.
Qed.

End Mirror.

Section MirrorWalk.

Import Suunto.

Context (SZ_FINGERPRINT : Z) {link : Type} (packet : packet_t link)
        (holds : link -> buffer -> Prop) {U : Type}.
Variables (device : suunto_common2_device_t) (model : Z)
          (callback : option (dive_callback_t U)) (mem : buffer)
          (end0 remaining0 : Z).

Local Abbreviation lay := (layout device).
Local Abbreviation span := (rb_profile_end lay - rb_profile_begin lay).
Local Abbreviation fill := (fill_loop link (Some packet)).
Local Abbreviation visit :=
  (visit_dive SZ_FINGERPRINT link U device model callback).
Local Abbreviation step :=
  (dive_step SZ_FINGERPRINT link (Some packet) U device model callback).
Local Abbreviation walk :=
  (walk SZ_FINGERPRINT (Some packet) device model callback).
Local Abbreviation cursor_mirrors :=
  (@cursor_mirrors link holds device mem end0 remaining0).
Local Abbreviation traversal_mirrors :=
  (@traversal_mirrors link U holds device mem end0 remaining0).

Hypothesis faithful : answers_reads packet holds.
Hypothesis reach : layout_addressable lay.

Lemma visit_dive_next_links (t t' : traversal link U) (size : Z) (c : cursor link) :
  visit t size c = Next link U t' ->
  exists (prev : Z) (st : dc_status_t) (u : U),
    t' = next_dive link U t size c prev st u /\ within_profile lay prev.
Proof.
  unfold visit_dive.
  destruct (_ || _) eqn:E; [discriminate |].
  apply orb_false_iff in E; destruct E as [E _].
  apply negb_false_iff, in_profile_true in E.
  destruct (_ && _); [discriminate |].
  destruct (negb (_ =? current link U t)).
  - destruct (bytes_eqb _ _); [discriminate |].
    destruct callback as [cb |].
    + destruct (cb _ _ _) as [[] u]; [| discriminate].
      intros H; injection H as <-; eauto.
    + intros H; injection H as <-; eauto.
  - intros H; injection H as <-; eauto.
Qed.

Lemma dive_size_links (t : traversal link U) :
  within_profile lay (current link U t) -> within_profile lay (previous link U t) ->
  exists m : Z,
    dive_size link U lay t
    = previous link U t - current link U t + m * span.
Proof.
  destruct reach as (Hb & Hbe & He); unfold SZ_MINIMUM in Hb.
  intros Hc Hp; unfold dive_size.
  pose proof (ringbuffer_distance_bounds _ _ true _ _ Hc Hp) as Hd.
  rewrite u32_small by lia.
  now apply ringbuffer_distance_full.
Qed.

Lemma dive_region_mirrors (t : traversal link U) :
  traversal_mirrors t ->
  let size := dive_size link U lay t in
  size <= remaining link U t ->
  exists c : cursor link,
    fill (Z.to_nat size) lay (remaining link U t) size (dive_cursor link U t)
    = Some (DC_STATUS_SUCCESS, c)
    /\ cursor_mirrors (remaining link U t) c
    /\ size <= c_nbytes link c
    /\ slice (c_data link c) (c_offset link c + u32 (c_nbytes link c - size)) size
       = ring_slice lay mem (current link U t) size.
Proof.
  destruct reach as (Hb & Hbe & He); unfold SZ_MINIMUM in Hb.
  intros (Hcur & Hspan & Hc & Hp & (k1 & Hprev)) size Hsize.
  assert (Hs : 0 <= size < 2 ^ 32) by apply u32_range.
  destruct (dive_size_links t Hc Hp) as (m & Hm); fold size in Hm.
  destruct (fill_loop_mirrors packet holds device mem end0 remaining0 faithful reach
              (remaining link U t) size (Z.to_nat size) (dive_cursor link U t))
    as (c & Hfill & Hmir & Hge);
    [exact Hcur | exact Hsize | exact Hspan | cbn [dive_cursor c_nbytes];
     destruct Hcur as ((_ & Hn) & _); cbn [dive_cursor c_nbytes] in Hn; lia |].
  exists c; split; [exact Hfill |]; split; [exact Hmir |]; split; [exact Hge |].
  destruct Hmir as ((Ha & Hn) & Hoff & Hr0 & _ & Hdata & _).
  unfold mirrors, SZ_MINIMUM in *.
  rewrite (u32_small (c_nbytes link c - size)) by lia.
  unfold slice, ring_slice; apply map_ext_in; intros i Hi; apply in_seq in Hi.
  rewrite Hdata by lia; f_equal.
  rewrite <- (ring_address_shift lay (current link U t + Z.of_nat i) (- (k1 + m))).
  f_equal; nia.
Qed.

Lemma dive_step_mirrors (t t' : traversal link U) :
  traversal_mirrors t -> step t = Some (Next link U t') -> traversal_mirrors t'.
Proof.
  destruct reach as (Hb & Hbe & He); unfold SZ_MINIMUM in Hb.
  intros Ht Hstep.
  apply dive_step_next in Hstep; cbv zeta in Hstep.
  destruct Hstep as (Hsize & c & Hfill & Hvisit).
  set (size := dive_size link U lay t) in *.
  destruct (dive_region_mirrors t Ht) as (c' & Hfill' & Hmir & Hge & _);
    [fold size; lia |].
  fold size in Hfill', Hge; rewrite Hfill in Hfill'; injection Hfill' as <-.
  destruct Ht as (Hcur & Hspan & Hc & Hp & (k1 & Hprev)).
  destruct (dive_size_links t Hc Hp) as (m & Hm); fold size in Hm.
  apply visit_dive_next_links in Hvisit.
  destruct Hvisit as (prev & st & u & -> & Hprev').
  destruct Hmir as ((Ha & Hn) & Hoff & Hr0 & Hpos & Hdata & Hl).
  assert (Hs : 0 <= size < 2 ^ 32) by apply u32_range.
  unfold SZ_MINIMUM in *.
  unfold traversal_mirrors, cursor_mirrors, cursor_ok.
  cbn [next_dive dive_cursor remaining available current previous address offset
       data line c_address c_offset c_nbytes c_data c_line].
  rewrite (u32_small (remaining link U t - size)) by lia.
  rewrite (u32_small (c_nbytes link c - size)) by lia.
  unfold SZ_MINIMUM.
  repeat split; try lia; try assumption; try apply Ha; try apply Hc; try apply Hprev'.
  exists (k1 + m); nia.
Qed.

Lemma walk_mirrors (t t' : traversal link U) (flags : list bool) :
  walk t flags t' -> traversal_mirrors t -> traversal_mirrors t'.
Proof.
  induction 1 as [t | t t1 t2 flags Hrem Hstep _ IH]; intros Hin; [exact Hin |].
  apply IH; now apply (dive_step_mirrors t t1).
Qed.

End MirrorWalk.

Section MirrorStart.

Import Suunto.

Context {link : Type} (packet : packet_t link)
        (holds : link -> buffer -> Prop) {U : Type}.
Variables (device : suunto_common2_device_t) (mem : buffer).

Local Abbreviation lay := (layout device).

Hypothesis reach : layout_addressable lay.

Lemma foreach_prologue_mirrors (heap : option buffer) (u : U) (l : link)
    (m : Z) (t : traversal link U) :
  foreach_prologue link (Some packet) U device heap u l = inr (m, t) ->
  holds (line link U t) mem ->
  traversal_mirrors holds device mem (previous link U t) (remaining link U t) t.
Proof.
  pose proof (addressable_fits device reach) as fits.
  destruct reach as (Hb & Hbe & He); unfold SZ_MINIMUM in Hb.
  intros H Hl.
  pose proof (foreach_prologue_ok (Some packet) device fits heap u l m t H) as Hok.
  pose proof (foreach_prologue_inr (Some packet) device heap u l m t H)
    as (Hc & Hp & Ha & Hav & _ & _ & _).
  assert (Hoff : offset link U t = remaining link U t + SZ_MINIMUM).
  { destruct Hok as (Hr & _ & _).
    revert H Hr; unfold foreach_prologue.
    destruct (suunto_common2_device_version _ _ _ _) as [[rc1 id] l1].
    destruct (negb (dc_status_eqb rc1 _)); [discriminate |].
    destruct (suunto_common2_device_read _ _ l1 _ _ _ _) as [[rc2 number] l2].
    destruct (negb (dc_status_eqb rc2 _)); [discriminate |].
    destruct (suunto_common2_device_read _ _ l2 _ _ _ _) as [[rc3 header] l3].
    destruct (negb (dc_status_eqb rc3 _)); [discriminate |].
    destruct (_ || _); [discriminate |].
    destruct heap as [block |]; [| discriminate].
    intros H; injection H as <- <-; cbn [remaining offset].
    intros Hr; unfold SZ_MINIMUM, SZ_PACKET in *; apply u32_small; lia. }
  pose proof Hok as (Hr & Havl & Had).
  unfold traversal_mirrors, cursor_mirrors, cursor_ok, mirrors.
  cbn [dive_cursor c_address c_offset c_nbytes c_data c_line].
  rewrite Hoff, Hav, Ha.
  repeat split; try lia; try assumption; try apply Hp; try apply Hc.
  - exists 0; lia.
  - exists 0; lia.
Qed.

End MirrorStart.

(** X9.  On a device that answers every read command with the bytes of its
    memory, at every dive the traversal reaches the package loop succeeds,
    and the dive the loop body then looks at, the [size] bytes at
    [data + offset + available], is the dive stored in the device: the
    [size] bytes of the ring buffer from the address [current] on, going
    round at [rb_profile_end]. *)
Theorem dive_region_is_the_stored_dive :
  forall (SZ_FINGERPRINT : Z) (link U : Type) (packet : Suunto.packet_t link)
         (holds : link -> buffer -> Prop)
         (device : Suunto.suunto_common2_device_t) (model : Z)
         (callback : option (Suunto.dive_callback_t U)) (heap : option buffer)
         (u : U) (l : link) (mem : buffer)
         (t0 t : Suunto.traversal link U) (flags : list bool),
    answers_reads packet holds ->
    layout_addressable (Suunto.layout device) ->
    Suunto.foreach_prologue link (Some packet) U device heap u l = inr (model, t0) ->
    holds (Suunto.line link U t0) mem ->
    walk SZ_FINGERPRINT (Some packet) device model callback t0 flags t ->
    let size := Suunto.dive_size link U (Suunto.layout device) t in
    size <= Suunto.remaining link U t ->
    exists c : Suunto.cursor link,
      Suunto.fill_loop link (Some packet) (Z.to_nat size) (Suunto.layout device)
        (Suunto.remaining link U t) size (Suunto.dive_cursor link U t)
      = Some (DC_STATUS_SUCCESS, c)
      /\ holds (Suunto.c_line link c) mem
      /\ slice (Suunto.c_data link c)
           (Suunto.c_offset link c + u32 (Suunto.c_nbytes link c - size)) size
         = ring_slice (Suunto.layout device) mem (Suunto.current link U t) size.
Proof.
  intros fpsz link U packet holds device model callback heap u l mem t0 t flags
    faithful reach Hp Hl Hw size Hsize.
  pose proof (foreach_prologue_mirrors packet holds device mem reach heap u l
                model t0 Hp Hl) as H0.
  pose proof (walk_mirrors fpsz packet holds device model callback mem _ _
                faithful reach t0 t flags Hw H0) as Ht.
  destruct (dive_region_mirrors packet holds device mem _ _ faithful reach t Ht Hsize)
    as (c & Hfill & Hmir & _ & Hregion).
  exists c; split; [exact Hfill |]; split; [| exact Hregion].
  now destruct Hmir as (_ & _ & _ & _ & _ & Hc).
Qed.

Lemma dive_region_is_the_stored_dive_witness :
  exists c : Suunto.cursor buffer,
    Suunto.fill_loop buffer (Some SuuntoMem.mem_packet) 40 SuuntoSim.d9_layout
      40 40 (Suunto.dive_cursor buffer unit at_wrapped_dive)
    = Some (DC_STATUS_SUCCESS, c)
    /\ slice (Suunto.c_data buffer c)
         (Suunto.c_offset buffer c + u32 (Suunto.c_nbytes buffer c - 40)) 40
       = SuuntoSim.dive 0x7FEA 0x01AE 1 16 ++ repeat 2 20.
Proof.
  destruct (dive_region_is_the_stored_dive 7 buffer unit SuuntoMem.mem_packet
              SuuntoMem.same (SuuntoSim.fresh SuuntoSim.d9_layout) 0x0E None
              (Some zeroed) tt wrapped_dive wrapped_dive
              at_wrapped_dive at_wrapped_dive [] mem_packet_answers_reads)
    as (c & Hfill & _ & Hregion).
  - cbv; repeat split; intros H; discriminate H.
  - vm_compute; reflexivity.
  - intros i; reflexivity.
  - apply walk_stay.
  - vm_compute; discriminate.
  - exists c; split; [exact Hfill |].
    etransitivity; [exact Hregion | vm_compute; reflexivity].
Defined.

(** ** Family A: framing, pages and entries *)

Lemma checksum_is_the_sum (data : list Z) (init : Z) :
  0 <= init < 256 ->
  Atom2.oceanic_atom2_checksum data init = (init + byte_sum data) mod 256.
Proof.
  unfold Atom2.oceanic_atom2_checksum.
  revert init; induction data as [| b data IH]; intros init Hi; cbn [fold_left byte_sum fold_right].
  - rewrite Z.add_0_r, Z.mod_small by lia; reflexivity.
  - rewrite IH by (unfold u8; apply Z.mod_pos_bound; lia).
    unfold u8; change (2 ^ 8) with 256.
    rewrite Zplus_mod_idemp_l; f_equal; unfold byte_sum; lia.
Qed.

Section Atom2Framing.

Import Atom2.

Context {port : Type}.
Variables (serial_write : port -> list Z -> port) (serial_drain : port -> port)
          (serial_read : port -> Z -> Z * list Z * port).

Local Abbreviation transfer :=
  (oceanic_atom2_transfer port serial_write serial_drain serial_read).

Lemma transfer_success_verdict (p p' : port) (command answer : list Z)
    (asize : Z) (handshake : bool) :
  transfer p command asize handshake = (OCEANIC_SUCCESS, answer, p') ->
  exists (n : Z) (k : nat),
    (k <= MAXRETRIES)%nat
    /\ exchange serial_write serial_drain serial_read command asize
         (port_before serial_write serial_drain serial_read command asize k p)
       = (n, answer, p')
    /\ verdict asize handshake (n, answer, p') = OCEANIC_SUCCESS.
Proof.
  unfold oceanic_atom2_transfer; intros H.
  destruct (atom2_attempts_policy serial_write serial_drain serial_read command asize
              handshake MAXRETRIES p) as (k & Hk & Heq & _).
  rewrite H in Heq; unfold judged in Heq.
  destruct (exchange _ _ _ _ _ _) as [[n answer'] p''] eqn:E.
  cbn [fst snd] in Heq; injection Heq as Hv <- <-.
  exists n, k; split; [exact Hk |]; split; [exact E | now symmetry].
Qed.

Lemma verdict_success (asize : Z) (handshake : bool) (n : Z) (answer : list Z)
    (p : port) :
  verdict asize handshake (n, answer, p) = OCEANIC_SUCCESS ->
  u32 n = asize
  /\ nth 0 answer 0 = (if handshake then 0xA5 else 0x5A)
  /\ bytes answer (asize - 1)
     = oceanic_atom2_checksum (slice (bytes answer) 1 (asize - 2)) 0x00.
Proof.
  unfold verdict.
  destruct (negb (u32 n =? asize)) eqn:E1;
    [destruct (n =? -1); discriminate |].
  destruct (negb (nth 0 answer 0 =? _)) eqn:E2; [discriminate |].
  destruct (negb (bytes answer (asize - 1) =? _)) eqn:E3; [discriminate |].
  intros _.
  apply negb_false_iff, Z.eqb_eq in E1, E2, E3; auto.
Qed.

End Atom2Framing.

(** X10.  An answer that [oceanic_atom2_transfer] returns with success has
    been verified: its first byte is the start byte ([0xA5] in a handshake,
    [0x5A] otherwise) and its last byte is the sum, modulo 256, of the
    bytes between the two. *)
Theorem transfer_success_is_verified :
  forall (port : Type) (serial_write : port -> list Z -> port)
         (serial_drain : port -> port)
         (serial_read : port -> Z -> Z * list Z * port)
         (p p' : port) (command answer : list Z) (asize : Z) (handshake : bool),
    Atom2.oceanic_atom2_transfer port serial_write serial_drain serial_read
      p command asize handshake
    = (Atom2.OCEANIC_SUCCESS, answer, p') ->
    nth 0 answer 0 = (if handshake then 0xA5 else 0x5A)
    /\ bytes answer (asize - 1)
       = byte_sum (slice (bytes answer) 1 (asize - 2)) mod 256.
Proof.
  intros port sw sd sr p p' command answer asize handshake H.
  apply transfer_success_verdict in H; destruct H as (n & k & _ & _ & Hv).
  apply verdict_success in Hv; destruct Hv as (_ & Hh & Hc).
  split; [exact Hh |].
  rewrite Hc, checksum_is_the_sum by lia; reflexivity.
Qed.

Lemma transfer_success_is_verified_witness :
  exists (answer : list Z) (s' : Atom2Sim.sim),
    Atom2Sim.transfer (Atom2Sim.powered Atom2Sim.one_dive []) [0xB1; 0x00; 0x24; 0x00] 18
    = (Atom2.OCEANIC_SUCCESS, answer, s')
    /\ nth 0 answer 0 = 0x5A
    /\ bytes answer 17 = byte_sum (slice (bytes answer) 1 16) mod 256.
Proof.
  eassert (Hrun : Atom2Sim.transfer (Atom2Sim.powered Atom2Sim.one_dive [])
                    [0xB1; 0x00; 0x24; 0x00] 18 = (Atom2.OCEANIC_SUCCESS, _, _))
    by (vm_compute; reflexivity).
  eexists; eexists; split; [exact Hrun |].
  exact (transfer_success_is_verified _ _ _ _ _ _ _ _ 18 false Hrun).
Defined.

(** X11.  [oceanic_atom2_handshake] succeeds only on the answer [A5 A5 A5]:
    when it returns success, the three bytes read last are the start byte
    [0xA5], the handshake byte [0xA5] and their checksum, [0xA5] again. *)
Theorem handshake_needs_three_A5 :
  forall (port : Type) (serial_write : port -> list Z -> port)
         (serial_drain : port -> port)
         (serial_read : port -> Z -> Z * list Z * port) (p p' : port),
    Atom2.oceanic_atom2_handshake port serial_write serial_drain serial_read p
    = (Atom2.OCEANIC_SUCCESS, p') ->
    exists answer : list Z,
      Atom2.oceanic_atom2_transfer port serial_write serial_drain serial_read
        p [0xA8; 0x99; 0x00] 3 true
      = (Atom2.OCEANIC_SUCCESS, answer, p')
      /\ nth 0 answer 0 = 0xA5 /\ nth 1 answer 0 = 0xA5 /\ nth 2 answer 0 = 0xA5.
Proof.
  intros port sw sd sr p p'; unfold Atom2.oceanic_atom2_handshake.
  destruct (Atom2.oceanic_atom2_transfer _ _ _ _ _ _ _ _) as [[rc answer] p1] eqn:Ht.
  destruct (negb (Atom2.oceanic_status_eqb rc Atom2.OCEANIC_SUCCESS)) eqn:Erc.
  { intros H; injection H as -> _; discriminate Erc. }
  destruct rc; try discriminate Erc.
  destruct (negb (nth 1 answer 0 =? 0xA5)) eqn:E1; [discriminate |].
  intros H; injection H as <-.
  apply negb_false_iff, Z.eqb_eq in E1.
  exists answer; split; [reflexivity |].
  apply transfer_success_verdict in Ht; destruct Ht as (n & k & _ & _ & Hv).
  apply verdict_success in Hv; destruct Hv as (_ & Hh & Hc).
  split; [exact Hh |]; split; [exact E1 |].
  change (bytes answer (3 - 1)) with (nth 2 answer 0) in Hc.
  change (slice (bytes answer) 1 (3 - 2)) with [nth 1 answer 0] in Hc.
  rewrite Hc, E1; reflexivity.
Qed.

Lemma handshake_needs_three_A5_witness :
  exists (answer : list Z) (s' : Atom2Sim.sim),
    Atom2.oceanic_atom2_transfer Atom2Sim.sim Atom2Sim.sim_write Atom2Sim.sim_drain
      Atom2Sim.sim_read (Atom2Sim.powered Atom2Sim.no_dive [(0, []); (3, [0xA5; 0xA5; 0xA5])])
      [0xA8; 0x99; 0x00] 3 true
    = (Atom2.OCEANIC_SUCCESS, answer, s')
    /\ nth 0 answer 0 = 0xA5 /\ nth 1 answer 0 = 0xA5 /\ nth 2 answer 0 = 0xA5.
Proof.
  eassert (Hrun : Atom2.oceanic_atom2_handshake Atom2Sim.sim Atom2Sim.sim_write
                    Atom2Sim.sim_drain Atom2Sim.sim_read
                    (Atom2Sim.powered Atom2Sim.no_dive [(0, []); (3, [0xA5; 0xA5; 0xA5])])
                  = (Atom2.OCEANIC_SUCCESS, _))
    by (vm_compute; reflexivity).
  destruct (handshake_needs_three_A5 _ _ _ _ _ _ Hrun) as (answer & Ht & H).
  eexists; eexists; split; [exact Ht | exact H].
Defined.

Lemma nth_bytes (l : list Z) (i : Z) : 0 <= i -> bytes l i = nth (Z.to_nat i) l 0.
Proof.
  intros Hi; unfold bytes.
  destruct (i <? 0) eqn:E; [apply Z.ltb_lt in E; lia | reflexivity].
Qed.

Lemma slice_framed (x : Z) (page tail : list Z) :
  slice (bytes (x :: page ++ tail)) 1 (Z.of_nat (length page)) = page.
Proof.
  unfold slice; rewrite Nat2Z.id.
  rewrite <- (map_nth_seq page 0) at 2.
  apply map_ext_in; intros k Hk; apply in_seq in Hk.
  rewrite nth_bytes by lia.
  replace (Z.to_nat (1 + Z.of_nat k)) with (S k) by lia.
  cbn [nth]; rewrite app_nth1 by lia; f_equal; lia.
Qed.

Section Atom2Memory.

Import Atom2.

Context (PS : Z) (PS_positive : 0 < PS) {port : Type}.
Variables (serial_write : port -> list Z -> port) (serial_drain : port -> port)
          (serial_read : port -> Z -> Z * list Z * port).
Variable holds : port -> buffer -> Prop.

Local Abbreviation transfer :=
  (oceanic_atom2_transfer port serial_write serial_drain serial_read).
Local Abbreviation loop :=
  (read_memory_loop PS PS_positive port serial_write serial_drain serial_read).
Local Abbreviation read_memory :=
  (oceanic_atom2_read_memory PS PS_positive port serial_write serial_drain serial_read).
Local Abbreviation read_ringbuffer :=
  (oceanic_atom2_read_ringbuffer PS PS_positive port serial_write serial_drain
     serial_read).

Lemma read_memory_loop_step (p : port) (address : Z) (data : buffer)
    (at_ size nbytes : Z) :
  loop p address data at_ size nbytes =
  if nbytes <? size then
    let '(rc, answer, p') := transfer p (read_packet_command PS address) (PS + 2) false in
    if negb (oceanic_status_eqb rc OCEANIC_SUCCESS) then (rc, data, p')
    else loop p' (u32 (address + PS)) (memcpy data at_ (skipn 1 answer) PS)
           (at_ + PS) size (nbytes + PS)
  else (OCEANIC_SUCCESS, data, p).
Proof.
  rewrite read_memory_loop_equation_1.
  destruct (inspect (nbytes <? size)) as [[] e]; simp read_memory_loop; rewrite e;
    reflexivity.
Qed.

Lemma read_memory_loop_shift (n : nat) :
  forall (p : port) (address : Z) (data : buffer) (at_ size nbytes : Z),
    (Z.to_nat (size - nbytes) <= n)%nat ->
    loop p address data at_ size nbytes = loop p address data at_ (size - nbytes) 0.
Proof.
  induction n as [| n IH]; intros p address data at_ size nbytes Hn;
    rewrite (read_memory_loop_step p address data at_ size nbytes),
            (read_memory_loop_step p address data at_ (size - nbytes) 0).
  - assert (E1 : (nbytes <? size) = false) by (apply Z.ltb_ge; lia).
    assert (E2 : (0 <? size - nbytes) = false) by (apply Z.ltb_ge; lia).
    now rewrite E1, E2.
  - destruct (nbytes <? size) eqn:E1.
    + apply Z.ltb_lt in E1.
      assert (E2 : (0 <? size - nbytes) = true) by (apply Z.ltb_lt; lia).
      rewrite E2.
      destruct (transfer _ _ _ _) as [[rc answer] p'].
      destruct (negb (oceanic_status_eqb rc OCEANIC_SUCCESS)); [reflexivity |].
      rewrite (IH p' _ _ _ size (nbytes + PS)) by lia.
      rewrite (IH p' _ _ _ (size - nbytes) (0 + PS)) by lia.
      f_equal; lia.
    + apply Z.ltb_ge in E1.
      assert (E2 : (0 <? size - nbytes) = false) by (apply Z.ltb_ge; lia).
      now rewrite E2.
Qed.

Hypothesis faithful : serves_pages PS serial_write serial_drain serial_read holds.
Hypothesis PS_small : PS <= 2 ^ 15.
Variable mem : buffer.

Lemma transfer_page (p : port) (number : Z) :
  holds p mem -> 0 <= number < 2 ^ 16 ->
  exists p' : port,
    transfer p (read_packet_command PS (number * PS)) (PS + 2) false
    = (OCEANIC_SUCCESS,
       0x5A :: slice mem (number * PS) PS
         ++ [oceanic_atom2_checksum (slice mem (number * PS) PS) 0x00],
       p')
    /\ holds p' mem.
Proof.
  intros Hp Hn.
  destruct (faithful p mem number Hp Hn) as (p' & Hread & Hp').
  exists p'; split; [| exact Hp'].
  unfold oceanic_atom2_transfer, MAXRETRIES.
  cbn [transfer_attempts oceanic_atom2_send oceanic_status_eqb negb].
  rewrite Hread.
  rewrite (u32_small (PS + 2)), Z.eqb_refl by lia; cbn [negb nth].
  cbn [Z.eqb Pos.eqb negb].
  replace (PS + 2 - 2) with (Z.of_nat (length (slice mem (number * PS) PS)))
    by (rewrite slice_length; lia).
  rewrite slice_framed.
  rewrite nth_bytes by lia.
  replace (Z.to_nat (PS + 2 - 1)) with (S (length (slice mem (number * PS) PS)))
    by (rewrite slice_length; lia).
  cbn [nth]; rewrite app_nth2, Nat.sub_diag by lia; cbn [nth].
  rewrite Z.eqb_refl; reflexivity.
Qed.

Lemma read_memory_loop_memory (n : nat) :
  forall (p : port) (first : Z) (data : buffer) (at_ : Z),
    holds p mem -> 0 <= first -> first + Z.of_nat n <= 2 ^ 16 ->
    exists (data' : buffer) (p' : port),
      loop p (first * PS) data at_ (Z.of_nat n * PS) 0 = (OCEANIC_SUCCESS, data', p')
      /\ holds p' mem
      /\ (forall i : Z, 0 <= i < Z.of_nat n * PS -> data' (at_ + i) = mem (first * PS + i))
      /\ (forall i : Z, i < at_ \/ at_ + Z.of_nat n * PS <= i -> data' i = data i).
Proof.
  induction n as [| n IH]; intros p first data at_ Hp Hf Hend;
    rewrite read_memory_loop_step.
  - cbn [Z.of_nat Z.mul Z.ltb Z.compare].
    exists data, p; repeat split; [exact Hp | intros; lia].
  - assert (Hsize : Z.of_nat (S n) * PS = PS + Z.of_nat n * PS) by lia.
    assert (E : (0 <? Z.of_nat (S n) * PS) = true) by (apply Z.ltb_lt; nia).
    rewrite E.
    destruct (transfer_page p first Hp) as (p1 & Ht & Hp1); [lia |].
    rewrite Ht; cbn [oceanic_status_eqb negb skipn].
    rewrite (read_memory_loop_shift (Z.to_nat (Z.of_nat (S n) * PS))) by lia.
    rewrite (u32_small (first * PS + PS)) by nia.
    replace (first * PS + PS) with ((first + 1) * PS) by lia.
    replace (Z.of_nat (S n) * PS - (0 + PS)) with (Z.of_nat n * PS) by lia.
    set (page := slice mem (first * PS) PS).
    destruct (IH p1 (first + 1)
                (memcpy data at_ (page ++ [oceanic_atom2_checksum page 0]) PS)
                (at_ + PS) Hp1) as (data' & p' & Hrun & Hp' & Hin & Hout);
      [lia | lia |].
    exists data', p'; split; [exact Hrun |]; split; [exact Hp' |]; split.
    + intros i Hi.
      destruct (Z_lt_le_dec i PS) as [Hlt | Hge].
      * rewrite Hout by lia.
        rewrite memcpy_inside by lia.
        rewrite app_nth1 by (subst page; rewrite slice_length; lia).
        subst page.
        replace i with (Z.of_nat (Z.to_nat i)) at 2 by lia.
        rewrite nth_slice by lia; f_equal; lia.
      * replace (at_ + i) with (at_ + PS + (i - PS)) by lia.
        rewrite Hin by lia; f_equal; lia.
    + intros i Hi; rewrite Hout by lia.
      apply memcpy_outside; lia.
Qed.

Lemma read_memory_memory (p : port) (address : Z) (data : buffer) (at_ size : Z) :
  holds p mem -> 0 <= address -> 0 <= size -> address + size <= 2 ^ 16 * PS ->
  address mod PS = 0 -> size mod PS = 0 ->
  exists (data' : buffer) (p' : port),
    read_memory p address data at_ size = Done (OCEANIC_SUCCESS, data', p')
    /\ holds p' mem
    /\ (forall i : Z, 0 <= i < size -> data' (at_ + i) = mem (address + i))
    /\ (forall i : Z, i < at_ \/ at_ + size <= i -> data' i = data i).
Proof.
  intros Hp Ha Hs Hend Hma Hms.
  unfold oceanic_atom2_read_memory.
  rewrite Hma, Hms; cbn [Z.eqb negb].
  apply Z.mod_divide in Hma, Hms; try lia.
  destruct Hma as (first & ->), Hms as (pages & ->).
  assert (Hf : 0 <= first) by nia.
  assert (Hn : 0 <= pages) by nia.
  destruct (read_memory_loop_memory (Z.to_nat pages) p first data at_ Hp Hf)
    as (data' & p' & Hrun & Hp' & Hin & Hout); [nia |].
  rewrite Z2Nat.id in * by lia.
  exists data', p'; rewrite Hrun; auto.
Qed.

End Atom2Memory.

Lemma atom2_sim_serves_pages :
  serves_pages Atom2Sim.packet_size Atom2Sim.sim_write Atom2Sim.sim_drain
    Atom2Sim.sim_read atom2_idle.
Proof.
  intros s m number [Hscript Hmem] Hn.
  unfold Atom2Sim.sim_drain, Atom2Sim.sim_write, Atom2Sim.sim_read,
    Atom2.read_packet_command, Atom2Sim.packet_size.
  cbn [Atom2Sim.script Atom2Sim.sent Atom2Sim.mem Atom2Sim.reads].
  rewrite Hscript, Z.div_mul, address_bytes, Hmem by lia.
  eexists; split; [reflexivity |].
  split; reflexivity.
Qed.

Section Atom2Ring.

Import Atom2.

Context (PS : Z) (PS_positive : 0 < PS) {port : Type}.
Variables (serial_write : port -> list Z -> port) (serial_drain : port -> port)
          (serial_read : port -> Z -> Z * list Z * port).
Variable holds : port -> buffer -> Prop.

Local Abbreviation read_memory :=
  (oceanic_atom2_read_memory PS PS_positive port serial_write serial_drain serial_read).
Local Abbreviation read_ringbuffer :=
  (oceanic_atom2_read_ringbuffer PS PS_positive port serial_write serial_drain
     serial_read).

Hypothesis faithful : serves_pages PS serial_write serial_drain serial_read holds.
Hypothesis PS_small : PS <= 2 ^ 15.
Variable mem : buffer.

Lemma read_ringbuffer_memory (p : port) (address : Z) (data : buffer)
    (at_ size rb_begin rb_end : Z) :
  holds p mem ->
  0 <= rb_begin -> rb_end <= 2 ^ 16 * PS ->
  rb_begin <= address < rb_end -> 0 <= size <= rb_end - rb_begin ->
  rb_begin mod PS = 0 -> rb_end mod PS = 0 -> address mod PS = 0 -> size mod PS = 0 ->
  exists (data' : buffer) (p' : port),
    read_ringbuffer p address data at_ size rb_begin rb_end
    = Done (OCEANIC_SUCCESS, data', p')
    /\ holds p' mem
    /\ (forall i : Z, 0 <= i < size ->
          data' (at_ + i) = mem (ring_wrap rb_begin rb_end (address + i)))
    /\ (forall i : Z, i < at_ \/ at_ + size <= i -> data' i = data i).
Proof.
  intros Hp Hb He Ha Hs Hmb Hme Hma Hms.
  assert (Hbig : 2 ^ 16 * PS <= 2 ^ 31) by nia.
  unfold oceanic_atom2_read_ringbuffer.
  replace ((rb_begin <=? address) && (address <? rb_end)) with true
    by (symmetry; apply andb_true_iff; split; [apply Z.leb_le | apply Z.ltb_lt]; lia).
  rewrite (u32_small (rb_end - rb_begin)) by lia.
  replace (size <=? rb_end - rb_begin) with true by (symmetry; apply Z.leb_le; lia).
  cbn [negb].
  rewrite (u32_small (address + size)) by lia.
  destruct (rb_end <? address + size) eqn:E;
    [apply Z.ltb_lt in E | apply Z.ltb_ge in E].
  - rewrite (u32_small (rb_end - address)) by lia.
    rewrite (u32_small (size - (rb_end - address))) by lia.
    assert (Hmod_a : (rb_end - address) mod PS = 0).
    { apply Z.mod_divide in Hme, Hma; try lia; apply Z.mod_divide; [lia |].
      now apply Z.divide_sub_r. }
    assert (Hmod_b : (size - (rb_end - address)) mod PS = 0).
    { apply Z.mod_divide in Hms, Hmod_a; try lia; apply Z.mod_divide; [lia |].
      now apply Z.divide_sub_r. }
    destruct (read_memory_memory PS PS_positive serial_write serial_drain serial_read
                holds faithful PS_small mem p address data at_ (rb_end - address) Hp)
      as (data1 & p1 & Hrun1 & Hp1 & Hin1 & Hout1); [lia | lia | lia | exact Hma | exact Hmod_a |].
    rewrite Hrun1; cbn [oceanic_status_eqb negb].
    destruct (read_memory_memory PS PS_positive serial_write serial_drain serial_read
                holds faithful PS_small mem p1 rb_begin data1 (at_ + (rb_end - address))
                (size - (rb_end - address)) Hp1)
      as (data2 & p2 & Hrun2 & Hp2 & Hin2 & Hout2);
      [lia | lia | lia | exact Hmb | exact Hmod_b |].
    rewrite Hrun2; cbn [oceanic_status_eqb negb].
    exists data2, p2; split; [reflexivity |]; split; [exact Hp2 |]; split.
    + intros i Hi; unfold ring_wrap.
      destruct (address + i <? rb_end) eqn:Ei;
        [apply Z.ltb_lt in Ei | apply Z.ltb_ge in Ei].
      * rewrite Hout2 by lia; apply Hin1; lia.
      * replace (at_ + i) with (at_ + (rb_end - address) + (i - (rb_end - address)))
          by lia.
        rewrite Hin2 by lia; f_equal; lia.
    + intros i Hi; rewrite Hout2 by lia; apply Hout1; lia.
  - destruct (read_memory_memory PS PS_positive serial_write serial_drain serial_read
                holds faithful PS_small mem p address data at_ size Hp)
      as (data1 & p1 & Hrun1 & Hp1 & Hin1 & Hout1); [lia | lia | lia | exact Hma | exact Hms |].
    rewrite Hrun1; cbn [oceanic_status_eqb negb].
    exists data1, p1; split; [reflexivity |]; split; [exact Hp1 |]; split.
    + intros i Hi; unfold ring_wrap.
      replace (address + i <? rb_end) with true by (symmetry; apply Z.ltb_lt; lia).
      apply Hin1; lia.
    + exact Hout1.
Qed.

End Atom2Ring.

(** X12.  On a device that answers the read command of every page with the
    bytes of that page, [oceanic_atom2_read_memory] of a range made of
    whole pages succeeds, and the destination holds the bytes of the device
    memory from [address] on; nothing else of the destination changes. *)
Theorem atom2_read_memory_returns_device_memory :
  forall (PS : Z) (PS_positive : 0 < PS) (port : Type)
         (serial_write : port -> list Z -> port) (serial_drain : port -> port)
         (serial_read : port -> Z -> Z * list Z * port)
         (holds : port -> buffer -> Prop),
    serves_pages PS serial_write serial_drain serial_read holds ->
    PS <= 2 ^ 15 ->
    forall (p : port) (mem : buffer) (address : Z) (data : buffer) (at_ size : Z),
      holds p mem -> 0 <= address -> 0 <= size -> address + size <= 2 ^ 16 * PS ->
      address mod PS = 0 -> size mod PS = 0 ->
      exists (data' : buffer) (p' : port),
        Atom2.oceanic_atom2_read_memory PS PS_positive port serial_write serial_drain
          serial_read p address data at_ size
        = Atom2.Done (Atom2.OCEANIC_SUCCESS, data', p')
        /\ holds p' mem
        /\ (forall i : Z, 0 <= i < size -> data' (at_ + i) = mem (address + i))
        /\ (forall i : Z, i < at_ \/ at_ + size <= i -> data' i = data i).
Proof.
  intros PS PS_positive port sw sd sr holds faithful Hsmall p mem address data at_ size.
  now apply read_memory_memory.
Qed.

Lemma atom2_read_memory_returns_device_memory_witness :
  exists (data' : buffer) (s' : Atom2Sim.sim),
    Atom2.oceanic_atom2_read_memory Atom2Sim.packet_size Atom2Sim.packet_size_positive
      Atom2Sim.sim Atom2Sim.sim_write Atom2Sim.sim_drain Atom2Sim.sim_read
      (Atom2Sim.powered Atom2Sim.two_dives []) 0x0A50 zeroed 8 48
    = Atom2.Done (Atom2.OCEANIC_SUCCESS, data', s')
    /\ (forall i : Z, 0 <= i < 48 -> data' (8 + i) = Atom2Sim.two_dives (0x0A50 + i))
    /\ data' 7 = 0 /\ data' 56 = 0.
Proof.
  destruct (atom2_read_memory_returns_device_memory Atom2Sim.packet_size
              Atom2Sim.packet_size_positive Atom2Sim.sim Atom2Sim.sim_write
              Atom2Sim.sim_drain Atom2Sim.sim_read atom2_idle atom2_sim_serves_pages
              ltac:(vm_compute; discriminate)
              (Atom2Sim.powered Atom2Sim.two_dives []) Atom2Sim.two_dives
              0x0A50 zeroed 8 48)
    as (data' & s' & Hrun & _ & Hin & Hout);
    [ split; reflexivity | lia | lia | vm_compute; discriminate
    | reflexivity | reflexivity |].
  exists data', s'; split; [exact Hrun |]; split; [exact Hin |].
  split; apply Hout; lia.
Defined.

(** X13.  On such a device [oceanic_atom2_read_ringbuffer], asked for whole
    pages from an address of a ring buffer whose begin and end are page
    boundaries, succeeds and gives the bytes of the ring buffer in their
    order: those from [address] to the end, followed by those from the
    begin on when the range goes past the end. *)
Theorem atom2_read_ringbuffer_goes_round :
  forall (PS : Z) (PS_positive : 0 < PS) (port : Type)
         (serial_write : port -> list Z -> port) (serial_drain : port -> port)
         (serial_read : port -> Z -> Z * list Z * port)
         (holds : port -> buffer -> Prop),
    serves_pages PS serial_write serial_drain serial_read holds ->
    PS <= 2 ^ 15 ->
    forall (p : port) (mem : buffer) (address : Z) (data : buffer)
           (at_ size rb_begin rb_end : Z),
      holds p mem ->
      0 <= rb_begin -> rb_end <= 2 ^ 16 * PS ->
      rb_begin <= address < rb_end -> 0 <= size <= rb_end - rb_begin ->
      rb_begin mod PS = 0 -> rb_end mod PS = 0 ->
      address mod PS = 0 -> size mod PS = 0 ->
      exists (data' : buffer) (p' : port),
        Atom2.oceanic_atom2_read_ringbuffer PS PS_positive port serial_write
          serial_drain serial_read p address data at_ size rb_begin rb_end
        = Atom2.Done (Atom2.OCEANIC_SUCCESS, data', p')
        /\ holds p' mem
        /\ forall i : Z, 0 <= i < size ->
             data' (at_ + i) = mem (ring_wrap rb_begin rb_end (address + i)).
Proof.
  intros PS PS_positive port sw sd sr holds faithful Hsmall p mem address data
    at_ size rb_begin rb_end Hp Hb He Ha Hs Hmb Hme Hma Hms.
  destruct (read_ringbuffer_memory PS PS_positive sw sd sr holds faithful Hsmall mem
              p address data at_ size rb_begin rb_end Hp Hb He Ha Hs Hmb Hme Hma Hms)
    as (data' & p' & Hrun & Hp' & Hin & _).
  exists data', p'; auto.
Qed.

Lemma atom2_read_ringbuffer_goes_round_witness :
  exists (data' : buffer) (s' : Atom2Sim.sim),
    Atom2.oceanic_atom2_read_ringbuffer Atom2Sim.packet_size
      Atom2Sim.packet_size_positive Atom2Sim.sim Atom2Sim.sim_write
      Atom2Sim.sim_drain Atom2Sim.sim_read
      (Atom2Sim.powered Atom2Sim.two_dives []) 0xFFE0 zeroed 0 48
      Atom2.RB_PROFILE_BEGIN Atom2.RB_PROFILE_END
    = Atom2.Done (Atom2.OCEANIC_SUCCESS, data', s')
    /\ data' 15 = Atom2Sim.two_dives 0xFFEF
    /\ data' 16 = Atom2Sim.two_dives 0x0A50
    /\ data' 47 = Atom2Sim.two_dives 0x0A6F.
Proof.
  destruct (atom2_read_ringbuffer_goes_round Atom2Sim.packet_size
              Atom2Sim.packet_size_positive Atom2Sim.sim Atom2Sim.sim_write
              Atom2Sim.sim_drain Atom2Sim.sim_read atom2_idle atom2_sim_serves_pages
              ltac:(vm_compute; discriminate)
              (Atom2Sim.powered Atom2Sim.two_dives []) Atom2Sim.two_dives
              0xFFE0 zeroed 0 48 Atom2.RB_PROFILE_BEGIN Atom2.RB_PROFILE_END)
    as (data' & s' & Hrun & _ & Hin);
    [ split; reflexivity | vm_compute; discriminate | vm_compute; discriminate
    | vm_compute; split; [discriminate | reflexivity]
    | vm_compute; split; discriminate
    | reflexivity | reflexivity | reflexivity | reflexivity |].
  exists data', s'; split; [exact Hrun |].
  split; [apply (Hin 15); lia |].
  split; [apply (Hin 16); lia | apply (Hin 47); lia].
Defined.

Lemma firstn_slice (b : buffer) (off n k : Z) :
  0 <= k <= n -> firstn (Z.to_nat k) (slice b off n) = slice b off k.
Proof.
  intros Hk; unfold slice.
  rewrite firstn_map; f_equal.
  replace (Z.to_nat n) with (Z.to_nat k + (Z.to_nat n - Z.to_nat k))%nat by lia.
  rewrite seq_app, firstn_app, length_seq, Nat.sub_diag, firstn_O, app_nil_r.
  apply firstn_all2; rewrite length_seq; lia.
Qed.

Section Atom2Entries.

Import Atom2.

Context (PS : Z) (PS_positive : 0 < PS) {port : Type}.
Variables (serial_write : port -> list Z -> port) (serial_drain : port -> port)
          (serial_read : port -> Z -> Z * list Z * port).
Context {U R : Type} (cb : dive_callback_t U R).

Local Abbreviation dives :=
  (dives_loop PS PS_positive port serial_write serial_drain serial_read
     (U * list (list Z)) R).
Local Abbreviation read_ringbuffer :=
  (oceanic_atom2_read_ringbuffer PS PS_positive port serial_write serial_drain
     serial_read).

Lemma read_ringbuffer_done (p : port) (address : Z) (data : buffer)
    (at_ size rb_begin rb_end : Z) (r : oceanic_status * buffer * port) :
  read_ringbuffer p address data at_ size rb_begin rb_end = Done r ->
  size <= u32 (rb_end - rb_begin).
Proof.
  unfold oceanic_atom2_read_ringbuffer.
  destruct (negb (_ && _)); [discriminate |].
  destruct (size <=? u32 (rb_end - rb_begin)) eqn:E; [| discriminate].
  intros _; now apply Z.leb_le.
Qed.

(** A loop that ends in success has given the callback, entry after entry
    from [cur] downwards, the eight bytes of the entry and then its
    profile. *)
Lemma dives_loop_entries (n : nat) :
  forall (p p' : port) (logbooks : buffer) (cur : Z)
         (u u' : U) (log log' : list (list Z)),
    dives n p logbooks cur (Some (logging cb)) (u, log)
    = Done (OCEANIC_SUCCESS, (u', log'), p') ->
    exists ds : list (list Z),
      log' = log ++ ds /\ length ds = n
      /\ forall k : nat, (k < n)%nat ->
           let entry := cur - Z.of_nat k * (PS / 2) in
           firstn 8 (nth k ds []) = slice logbooks entry 8
           /\ Z.of_nat (length (nth k ds [])) = profile_length PS logbooks entry + 8.
Proof.
  induction n as [| n IH]; intros p p' logbooks cur u u' log log';
    cbn [dives_loop].
  - intros H; injection H as _ <- _.
    exists []; rewrite app_nil_r; split; [reflexivity |].
    split; [reflexivity |]; intros k Hk; lia.
  - fold (profile_length PS logbooks cur).
    destruct (oceanic_atom2_read_ringbuffer _ _ _ _ _ _ _ _ _ _ _ _ _)
      as [[[rc profile] p1] |] eqn:Hread; [| discriminate].
    apply read_ringbuffer_done in Hread.
    change (u32 (RB_PROFILE_END - RB_PROFILE_BEGIN)) with 0xF5A0 in Hread.
    pose proof (u32_range (RB_PROFILE_DISTANCE
                             (u32 (PT_PROFILE_FIRST logbooks cur * PS))
                             (u32 (PT_PROFILE_LAST logbooks cur * PS)) + PS)) as Hlen.
    fold (profile_length PS logbooks cur) in Hlen.
    set (len := profile_length PS logbooks cur) in *.
    destruct (negb (oceanic_status_eqb rc OCEANIC_SUCCESS)) eqn:E.
    { intros H; injection H as -> _ _; discriminate E. }
    rewrite logging_state.
    set (d := slice (memcpy profile 0 (slice logbooks cur 8) 8) 0 (u32 (len + 8))).
    intros H; apply IH in H; destruct H as (ds & -> & Hn & Hds).
    exists (d :: ds); split; [now rewrite <- app_assoc |].
    split; [cbn [length]; now rewrite Hn |].
    intros [| k] Hk; cbv zeta; cbn [nth].
    + rewrite Z.mul_0_l, Z.sub_0_r; subst d.
      rewrite (u32_small (len + 8)) by lia; split.
      * change 8%nat with (Z.to_nat 8); rewrite firstn_slice by lia.
        change 0 with (0 + 0) at 2; rewrite slice_memcpy by lia.
        change 8 with (Z.of_nat (length (slice logbooks cur 8))) at 2.
        apply slice_bytes.
      * rewrite slice_length; lia.
    + destruct (Hds k) as [Hfirst Hsize]; [lia |].
      replace (cur - Z.of_nat (S k) * (PS / 2))
        with (cur - PS / 2 - Z.of_nat k * (PS / 2)) by lia.
      split; assumption.
Qed.

End Atom2Entries.

(** X14.  The dives that a successful [oceanic_atom2_read_dives] hands to the
    callback: as many as there are logbook entries, the newest entry
    first; each one starts with the eight bytes of its logbook entry and is
    8 bytes longer than the profile the entry points to. *)
Theorem read_dives_hands_over_the_entries :
  forall (PS : Z) (PS_positive : 0 < PS) (port : Type)
         (serial_write : port -> list Z -> port) (serial_drain : port -> port)
         (serial_read : port -> Z -> Z * list Z * port) (U R : Type)
         (cb : Atom2.dive_callback_t U R) (p p1 p2 p' : port) (u u' : U)
         (pointers logbooks : buffer) (log : list (list Z)),
    Atom2.oceanic_atom2_read_memory PS PS_positive port serial_write serial_drain
      serial_read p 0x0040 zeroed 0 PS
    = Atom2.Done (Atom2.OCEANIC_SUCCESS, pointers, p1) ->
    let first := Atom2.PT_LOGBOOK_FIRST pointers 0 in
    let last := Atom2.PT_LOGBOOK_LAST pointers 0 in
    let count := Atom2.logbook_count PS first last in
    let page_first := u32 (first / PS * PS) in
    let page_last := u32 (last / PS * PS) in
    let newest := first mod PS + u32 ((count - 1) * (PS / 2)) in
    ~ (first = Atom2.RB_LOGBOOK_EMPTY /\ last = Atom2.RB_LOGBOOK_EMPTY) ->
    Atom2.oceanic_atom2_read_ringbuffer PS PS_positive port serial_write serial_drain
      serial_read p1 page_first zeroed 0
      (u32 (Atom2.RB_LOGBOOK_DISTANCE page_first page_last + PS))
      Atom2.RB_LOGBOOK_BEGIN Atom2.RB_LOGBOOK_END
    = Atom2.Done (Atom2.OCEANIC_SUCCESS, logbooks, p2) ->
    Atom2.oceanic_atom2_read_dives PS PS_positive port serial_write serial_drain
      serial_read (U * list (list Z)) R p (Some (logging cb)) (u, [])
    = Atom2.Done (Atom2.OCEANIC_SUCCESS, (u', log), p') ->
    Z.of_nat (length log) = count
    /\ forall k : nat, Z.of_nat k < count ->
         let entry := newest - Z.of_nat k * (PS / 2) in
         firstn 8 (nth k log []) = slice logbooks entry 8
         /\ Z.of_nat (length (nth k log []))
            = profile_length PS logbooks entry + 8.
Proof.
  intros PS PS_positive port sw sd sr U R cb p p1 p2 p' u u' pointers logbooks log
    Hptr first last count page_first page_last newest Hne Hlog.
  unfold Atom2.oceanic_atom2_read_dives; rewrite Hptr.
  cbn [Atom2.oceanic_status_eqb negb].
  fold first last.
  destruct ((first =? Atom2.RB_LOGBOOK_EMPTY) && (last =? Atom2.RB_LOGBOOK_EMPTY)) eqn:E.
  { apply andb_true_iff in E; destruct E as [E1 E2].
    apply Z.eqb_eq in E1, E2; exfalso; apply Hne; split; assumption. }
  cbv zeta; fold count page_first page_last.
  rewrite Hlog; cbn [Atom2.oceanic_status_eqb negb]; fold newest.
  intros Hrun; apply dives_loop_entries in Hrun.
  destruct Hrun as (ds & -> & Hn & Hds); cbn [app].
  assert (Hcount : 0 <= count) by (unfold count, Atom2.logbook_count; apply u32_range).
  split; [lia |].
  intros k Hk; apply Hds; lia.
Qed.

Lemma read_dives_hands_over_the_entries_witness :
  exists (log : list (list Z)) (s' : Atom2Sim.sim),
    logged_download Atom2Sim.two_dives
    = Atom2.Done (Atom2.OCEANIC_SUCCESS, (tt, log), s')
    /\ firstn 8 (nth 0 log []) = Atom2Sim.entry 0xA6 0xA7 8
    /\ length (nth 0 log []) = 40%nat
    /\ firstn 8 (nth 1 log []) = Atom2Sim.entry 0xA5 0xA5 7
    /\ length (nth 1 log []) = 24%nat.
Proof.
  assert (Hrun : exists log s', logged_download Atom2Sim.two_dives
                   = Atom2.Done (Atom2.OCEANIC_SUCCESS, (tt, log), s'))
    by (eexists; eexists; vm_compute; reflexivity).
  destruct Hrun as (log & s' & Hrun); exists log, s'; split; [exact Hrun |].
  unfold logged_download in Hrun.
  edestruct (read_dives_hands_over_the_entries Atom2Sim.packet_size
               Atom2Sim.packet_size_positive Atom2Sim.sim Atom2Sim.sim_write
               Atom2Sim.sim_drain Atom2Sim.sim_read unit unit keep_all
               (Atom2Sim.powered Atom2Sim.two_dives [])) as [_ Hentries];
    [ vm_compute; reflexivity
    | vm_compute; intros [Hx _]; discriminate Hx
    | vm_compute; reflexivity
    | exact Hrun
    | ].
  destruct (Hentries 0%nat) as [H0 L0]; [vm_compute; reflexivity |].
  destruct (Hentries 1%nat) as [H1 L1]; [vm_compute; reflexivity |].
  split; [rewrite H0; vm_compute; reflexivity |].
  split; [apply Nat2Z.inj; rewrite L0; vm_compute; reflexivity |].
  split; [rewrite H1; vm_compute; reflexivity |].
  apply Nat2Z.inj; rewrite L1; vm_compute; reflexivity.
Defined.

(** ** The record parser: samples and depth *)

Section Samples.

Import Memomouse.

Lemma samples_loop_body {U : Type} (fuel : nat) (data : list byte) (size : Z)
    (oxygen : bool) (callback : option (sample_callback_t U))
    (offset time : Z) (u : U) :
  samples_loop fuel data size oxygen callback offset time u
  = if u32 (offset + 2) <=? size then
      match fuel with
      | O => None
      | S fuel' =>
          let value := array_uint16_be data (Z.to_nat offset) in
          let depth := Z.shiftr (Z.land value 0xFFC0) 6 in
          let warnings := Z.land value 0x3F in
          let offset := u32 (offset + 2) in
          let u := emit callback (SAMPLE_TYPE_TIME time) u in
          let u := emit callback (SAMPLE_TYPE_DEPTH (double_of depth * 10 / 64)%float) u in
          let u := warning_events callback warnings u in
          if time mod 60 =? 0 then
            let vendor := offset in
            if size <? u32 (offset + 1) then Some (DC_STATUS_DATAFORMAT, u)
            else
              let offset := u32 (offset + 1) in
              if oxygen then
                if size <? u32 (offset + 1) then Some (DC_STATUS_DATAFORMAT, u)
                else
                  let offset := u32 (offset + 1) in
                  samples_loop fuel' data size oxygen callback offset (u32 (time + 20))
                    (emit callback (SAMPLE_TYPE_VENDOR vendor 2) u)
              else
                samples_loop fuel' data size oxygen callback offset (u32 (time + 20))
                  (emit callback (SAMPLE_TYPE_VENDOR vendor 1) u)
          else samples_loop fuel' data size oxygen callback offset (u32 (time + 20)) u
      end
    else Some (DC_STATUS_SUCCESS, u).
Proof. destruct fuel; reflexivity. Qed.

Lemma sample_times_app (l1 l2 : list sample_t) :
  sample_times (l1 ++ l2) = sample_times l1 ++ sample_times l2.
Proof. apply flat_map_app. Qed.

(** The warnings of a sample: events only. *)
Lemma warning_events_recorded (warnings : Z) (log : list sample_t) :
  exists events : list sample_t,
    warning_events (Some record_samples) warnings log = log ++ events
    /\ Forall (fun sample => exists e, sample = SAMPLE_TYPE_EVENT e) events.
Proof.
  unfold warning_events; cbn [fold_left emit]; unfold record_samples.
  repeat match goal with
         | |- context [if ?c then _ else _] => destruct c
         end;
    rewrite <- ?app_assoc; cbn [app];
    (eexists; split; [try reflexivity; symmetry; apply app_nil_r |]);
    repeat constructor; eexists; reflexivity.
Qed.

Lemma events_no_times (events : list sample_t) :
  Forall (fun sample => exists e, sample = SAMPLE_TYPE_EVENT e) events ->
  sample_times events = [].
Proof.
  induction 1 as [| s l [e ->] _ IH]; [reflexivity | exact IH].
Qed.

Lemma events_in_record (data : list byte) (events : list sample_t) :
  Forall (fun sample => exists e, sample = SAMPLE_TYPE_EVENT e) events ->
  Forall (vendor_in_record data) events.
Proof.
  intros H; eapply Forall_impl; [| exact H]; intros s [e ->]; exact I.
Qed.

Lemma times_from (j : Z) (n : nat) :
  map (fun k => 20 * (j + 1 + Z.of_nat k)) (seq 0 (S n))
  = 20 * (j + 1) :: map (fun k => 20 * (j + 1 + 1 + Z.of_nat k)) (seq 0 n).
Proof.
  cbn [seq map]; f_equal; [f_equal; lia |].
  rewrite <- seq_shift, map_map; apply map_ext; intros k; f_equal; lia.
Qed.

(** One sample as the callback sees it: the time, the depth and the
    warnings. *)
Lemma sample_recorded (data : list byte) (time : Z) (depth : float) (warnings : Z)
    (log : list sample_t) :
  exists sample : list sample_t,
    warning_events (Some record_samples) warnings
      (record_samples (SAMPLE_TYPE_DEPTH depth)
         (record_samples (SAMPLE_TYPE_TIME time) log))
    = log ++ sample
    /\ Forall (vendor_in_record data) sample.
Proof.
  destruct (warning_events_recorded warnings
              (record_samples (SAMPLE_TYPE_DEPTH depth)
                 (record_samples (SAMPLE_TYPE_TIME time) log)))
    as (events & -> & Hev).
  exists ([SAMPLE_TYPE_TIME time; SAMPLE_TYPE_DEPTH depth] ++ events); split.
  - unfold record_samples; rewrite <- !app_assoc; reflexivity.
  - apply Forall_app; split; [repeat constructor | now apply events_in_record].
Qed.

Variables (data : list byte) (oxygen : bool).

Local Abbreviation size := (Z.of_nat (length data)).
Local Abbreviation period := (if oxygen then 8 else 7).

(** From the sample numbered [j], [offset] bytes into the record: the status
    and the time samples still to come, when the seconds do not wrap. *)
Lemma samples_loop_count (fuel : nat) :
  forall (offset j : Z) (log : list sample_t),
    size + 3 < 2 ^ 32 ->
    0 <= j -> 0 <= offset <= size -> size - offset <= 2 * Z.of_nat fuel ->
    20 * (j + 1) + 10 * (size - offset) < 2 ^ 32 ->
    let rest := size - offset + 2 * (j mod 3) in
    exists log' : list sample_t,
      samples_loop fuel data size oxygen (Some record_samples) offset
        (20 * (j + 1)) log
      = Some (if 6 <=? rest mod period then DC_STATUS_DATAFORMAT
              else DC_STATUS_SUCCESS, log')
      /\ sample_times log'
         = sample_times log
           ++ map (fun k => 20 * (j + 1 + Z.of_nat k))
                (seq 0 (Z.to_nat (3 * (rest / period) + rest mod period / 2
                                  - j mod 3))).
Proof.
  induction fuel as [| fuel IH]; intros offset j log Hsize Hj Hoff Hfuel Hwrap rest;
    rewrite samples_loop_body; rewrite (u32_small (offset + 2)) by lia.
  1: destruct (offset + 2 <=? size) eqn:T; [apply Z.leb_le in T; lia |].
  2: destruct (offset + 2 <=? size) eqn:T.
  1, 3: apply Z.leb_gt in T; exists log;
    assert (Hrest : (6 <=? rest mod period) = false
                    /\ 3 * (rest / period) + rest mod period / 2 - j mod 3 = 0)
      by (subst rest; split; [apply Z.leb_gt |]; destruct oxygen;
          Z.div_mod_to_equations; lia);
    destruct Hrest as [-> ->]; cbn [Z.to_nat seq map]; rewrite app_nil_r;
    split; reflexivity.
  apply Z.leb_le in T; cbv zeta; cbn [emit].
  destruct (warning_events_recorded
              (Z.land (array_uint16_be data (Z.to_nat offset)) 0x3F)
              (record_samples
                 (SAMPLE_TYPE_DEPTH
                    (double_of (Z.shiftr (Z.land (array_uint16_be data (Z.to_nat offset)) 0xFFC0) 6)
                     * 10 / 64)%float)
                 (record_samples (SAMPLE_TYPE_TIME (20 * (j + 1))) log)))
    as (events & -> & Hev).
  apply events_no_times in Hev.
  rewrite (u32_small (20 * (j + 1) + 20)) by lia.
  replace (20 * (j + 1) + 20) with (20 * (j + 1 + 1)) by lia.
  destruct (20 * (j + 1) mod 60 =? 0) eqn:Ephase.
  - apply Z.eqb_eq in Ephase.
    assert (Hphase : j mod 3 = 2) by (Z.div_mod_to_equations; lia).
    rewrite (u32_small (offset + 2 + 1)) by lia.
    destruct (size <? offset + 2 + 1) eqn:T1.
    { apply Z.ltb_lt in T1; eexists; split.
      - f_equal; f_equal.
        assert (Hrest : (6 <=? rest mod period) = true)
          by (subst rest; apply Z.leb_le; destruct oxygen;
              Z.div_mod_to_equations; lia).
        now rewrite Hrest.
      - assert (Hrest : 3 * (rest / period) + rest mod period / 2 - j mod 3 = 1)
          by (subst rest; destruct oxygen; Z.div_mod_to_equations; lia).
        rewrite Hrest; change (Z.to_nat 1) with 1%nat; rewrite times_from.
        unfold emit, record_samples; rewrite !sample_times_app, Hev.
        cbn [sample_times flat_map app seq map].
        rewrite !app_nil_r; reflexivity. }
    apply Z.ltb_ge in T1.
    destruct oxygen eqn:Eoxy.
    + rewrite (u32_small (offset + 2 + 1 + 1)) by lia.
      destruct (size <? offset + 2 + 1 + 1) eqn:T2.
      { apply Z.ltb_lt in T2; eexists; split.
        - f_equal; f_equal.
          assert (Hrest : (6 <=? rest mod 8) = true)
            by (subst rest; apply Z.leb_le; Z.div_mod_to_equations; lia).
          now rewrite Hrest.
        - assert (Hrest : 3 * (rest / 8) + rest mod 8 / 2 - j mod 3 = 1)
            by (subst rest; Z.div_mod_to_equations; lia).
          rewrite Hrest; change (Z.to_nat 1) with 1%nat; rewrite times_from.
          unfold emit, record_samples; rewrite !sample_times_app, Hev.
        cbn [sample_times flat_map app seq map].
          rewrite !app_nil_r; reflexivity. }
      apply Z.ltb_ge in T2.
      edestruct (IH (offset + 2 + 1 + 1) (j + 1)) as (log' & -> & Htimes);
        [lia | lia | lia | lia | lia |].
      exists log'; split.
      * f_equal; f_equal.
        assert (Hrest : (size - (offset + 2 + 1 + 1) + 2 * ((j + 1) mod 3)) mod 8
                        = rest mod 8)
          by (subst rest; Z.div_mod_to_equations; lia).
        now rewrite Hrest.
      * rewrite Htimes.
        assert (Hcount : 3 * (rest / 8) + rest mod 8 / 2 - j mod 3
                         = Z.succ (3 * ((size - (offset + 2 + 1 + 1) + 2 * ((j + 1) mod 3)) / 8)
                                   + (size - (offset + 2 + 1 + 1) + 2 * ((j + 1) mod 3)) mod 8 / 2
                                   - (j + 1) mod 3)
                           /\ 0 <= 3 * ((size - (offset + 2 + 1 + 1) + 2 * ((j + 1) mod 3)) / 8)
                                   + (size - (offset + 2 + 1 + 1) + 2 * ((j + 1) mod 3)) mod 8 / 2
                                   - (j + 1) mod 3)
          by (subst rest; Z.div_mod_to_equations; lia).
        destruct Hcount as [-> Hpos]; rewrite Z2Nat.inj_succ by exact Hpos.
        rewrite times_from.
        unfold emit, record_samples; rewrite !sample_times_app, Hev.
        cbn [sample_times flat_map app].
        rewrite !app_nil_r, <- app_assoc; reflexivity.
    + edestruct (IH (offset + 2 + 1) (j + 1)) as (log' & -> & Htimes);
        [lia | lia | lia | lia | lia |].
      exists log'; split.
      * f_equal; f_equal.
        assert (Hrest : (size - (offset + 2 + 1) + 2 * ((j + 1) mod 3)) mod 7
                        = rest mod 7)
          by (subst rest; Z.div_mod_to_equations; lia).
        now rewrite Hrest.
      * rewrite Htimes.
        assert (Hcount : 3 * (rest / 7) + rest mod 7 / 2 - j mod 3
                         = Z.succ (3 * ((size - (offset + 2 + 1) + 2 * ((j + 1) mod 3)) / 7)
                                   + (size - (offset + 2 + 1) + 2 * ((j + 1) mod 3)) mod 7 / 2
                                   - (j + 1) mod 3)
                           /\ 0 <= 3 * ((size - (offset + 2 + 1) + 2 * ((j + 1) mod 3)) / 7)
                                   + (size - (offset + 2 + 1) + 2 * ((j + 1) mod 3)) mod 7 / 2
                                   - (j + 1) mod 3)
          by (subst rest; Z.div_mod_to_equations; lia).
        destruct Hcount as [-> Hpos]; rewrite Z2Nat.inj_succ by exact Hpos.
        rewrite times_from.
        unfold emit, record_samples; rewrite !sample_times_app, Hev.
        cbn [sample_times flat_map app].
        rewrite !app_nil_r, <- app_assoc; reflexivity.
  - apply Z.eqb_neq in Ephase.
    assert (Hphase : j mod 3 <> 2) by (Z.div_mod_to_equations; lia).
    edestruct (IH (offset + 2) (j + 1)) as (log' & -> & Htimes);
      [lia | lia | lia | lia | lia |].
    exists log'; split.
    + f_equal; f_equal.
      assert (Hrest : (size - (offset + 2) + 2 * ((j + 1) mod 3)) mod period
                      = rest mod period)
        by (subst rest; destruct oxygen; Z.div_mod_to_equations; lia).
      now rewrite Hrest.
    + rewrite Htimes.
      assert (Hcount : 3 * (rest / period) + rest mod period / 2 - j mod 3
                       = Z.succ (3 * ((size - (offset + 2) + 2 * ((j + 1) mod 3)) / period)
                                 + (size - (offset + 2) + 2 * ((j + 1) mod 3)) mod period / 2
                                 - (j + 1) mod 3)
                         /\ 0 <= 3 * ((size - (offset + 2) + 2 * ((j + 1) mod 3)) / period)
                                 + (size - (offset + 2) + 2 * ((j + 1) mod 3)) mod period / 2
                                 - (j + 1) mod 3)
        by (subst rest; destruct oxygen; Z.div_mod_to_equations; lia).
      destruct Hcount as [-> Hpos]; rewrite Z2Nat.inj_succ by exact Hpos.
      rewrite times_from.
      unfold emit, record_samples; rewrite !sample_times_app, Hev.
        cbn [sample_times flat_map app].
      rewrite !app_nil_r, <- app_assoc; reflexivity.
Qed.

(** Whatever the seconds do: the loop ends within [fuel] iterations, and the
    vendor samples it hands over lie in the record. *)
Lemma samples_loop_vendors (fuel : nat) :
  forall (offset time : Z) (log : list sample_t),
    oxygen = is_oxygen (byte_at data 3) ->
    size + 2 < 2 ^ 32 ->
    0 <= offset <= size -> size - offset <= 2 * Z.of_nat fuel ->
    exists (rc : dc_status_t) (new : list sample_t),
      samples_loop fuel data size oxygen (Some record_samples) offset time log
      = Some (rc, log ++ new)
      /\ Forall (vendor_in_record data) new.
Proof.
  induction fuel as [| fuel IH]; intros offset time log Hoxy Hsize Hoff Hfuel;
    rewrite samples_loop_body; rewrite (u32_small (offset + 2)) by lia.
  1: destruct (offset + 2 <=? size) eqn:T; [apply Z.leb_le in T; lia |].
  2: destruct (offset + 2 <=? size) eqn:T.
  1, 3: exists DC_STATUS_SUCCESS, []; rewrite app_nil_r; split;
    [reflexivity | constructor].
  apply Z.leb_le in T; cbv zeta; cbn [emit].
  destruct (sample_recorded data time
              (double_of (Z.shiftr (Z.land (array_uint16_be data (Z.to_nat offset)) 0xFFC0) 6)
               * 10 / 64)%float
              (Z.land (array_uint16_be data (Z.to_nat offset)) 0x3F) log)
    as (sample & -> & Hsample).
  destruct (time mod 60 =? 0).
  - rewrite (u32_small (offset + 2 + 1)) by lia.
    destruct (size <? offset + 2 + 1) eqn:T1.
    { exists DC_STATUS_DATAFORMAT, sample; split; [reflexivity | exact Hsample]. }
    apply Z.ltb_ge in T1.
    destruct oxygen eqn:Eoxy.
    + rewrite (u32_small (offset + 2 + 1 + 1)) by lia.
      destruct (size <? offset + 2 + 1 + 1) eqn:T2.
      { exists DC_STATUS_DATAFORMAT, sample; split; [reflexivity | exact Hsample]. }
      apply Z.ltb_ge in T2.
      edestruct (IH (offset + 2 + 1 + 1)) as (rc & new & -> & Hnew);
        [exact Hoxy | lia | lia | lia |].
      exists rc, (sample ++ [SAMPLE_TYPE_VENDOR (offset + 2) 2] ++ new); split.
      * unfold emit, record_samples; rewrite <- !app_assoc; reflexivity.
      * apply Forall_app; split; [exact Hsample |].
        apply Forall_app; split; [| exact Hnew].
        constructor; [| constructor].
        cbn [vendor_in_record]; rewrite <- Hoxy; lia.
    + edestruct (IH (offset + 2 + 1)) as (rc & new & -> & Hnew);
        [exact Hoxy | lia | lia | lia |].
      exists rc, (sample ++ [SAMPLE_TYPE_VENDOR (offset + 2) 1] ++ new); split.
      * unfold emit, record_samples; rewrite <- !app_assoc; reflexivity.
      * apply Forall_app; split; [exact Hsample |].
        apply Forall_app; split; [| exact Hnew].
        constructor; [| constructor].
        cbn [vendor_in_record]; rewrite <- Hoxy; lia.
  - edestruct (IH (offset + 2)) as (rc & new & -> & Hnew);
      [exact Hoxy | lia | lia | lia |].
    exists rc, (sample ++ new); split.
    + rewrite <- !app_assoc; reflexivity.
    + apply Forall_app; split; [exact Hsample | exact Hnew].
Qed.

End Samples.

Lemma header_size_range (model : Z) : 22 <= Memomouse.header_size model <= 27.
Proof.
  unfold Memomouse.header_size.
  destruct (Memomouse.is_nitrox model), (Memomouse.is_oxygen model); lia.
Qed.

(** X15.  A record of 18 bytes or more, short enough for the seconds not to
    wrap, is parsed with [DC_STATUS_SUCCESS] unless its profile ends inside
    the vendor bytes that follow every third sample, the case of
    [DC_STATUS_DATAFORMAT]; either way the time samples handed to the
    callback are 20, 40, 60, ... seconds, three for every whole period of
    the profile and one for every two bytes left. *)
Theorem samples_status_and_times :
  forall parser : Memomouse.parser_t,
    Memomouse.backend parser = Memomouse.uwatec_memomouse_parser_backend ->
    let data := Memomouse.parser_data parser in
    18 <= Z.of_nat (length data) ->
    10 * Z.of_nat (length data) < 2 ^ 32 ->
    let rest := profile_size data in
    let period := sample_period data in
    exists log : list Memomouse.sample_t,
      Memomouse.uwatec_memomouse_parser_samples_foreach (Some parser)
        (Some record_samples) []
      = Some (if 6 <=? rest mod period then DC_STATUS_DATAFORMAT
              else DC_STATUS_SUCCESS, log)
      /\ sample_times log
         = map (fun k => 20 * (Z.of_nat k + 1))
             (seq 0 (Z.to_nat (3 * (rest / period) + rest mod period / 2))).
Proof.
  intros parser Hbackend data Hmin Hmax rest period.
  unfold Memomouse.uwatec_memomouse_parser_samples_foreach,
    Memomouse.parser_is_uwatec_memomouse.
  rewrite Hbackend; cbn [negb]; fold data.
  destruct (Z.of_nat (length data) <? 18) eqn:E; [apply Z.ltb_lt in E; lia |].
  cbv zeta.
  pose proof (header_size_range (Memomouse.byte_at data 3)) as Hheader.
  subst rest period; unfold profile_size, sample_period.
  set (start := Memomouse.header_size (Memomouse.byte_at data 3) + 18) in *.
  destruct (Z_le_gt_dec start (Z.of_nat (length data))) as [Hin | Hout].
  - rewrite Z.max_r by lia.
    pose proof (samples_loop_count data
                  (Memomouse.is_oxygen (Memomouse.byte_at data 3))
                  (length data) start 0 []) as H.
    destruct H as (log & Hrun & Htimes); [lia | lia | lia | lia | lia |].
    change (0 mod 3) with 0 in Hrun, Htimes.
    change (20 * (0 + 1)) with 20 in Hrun.
    rewrite Z.mul_0_r, Z.add_0_r in Hrun, Htimes; rewrite Z.sub_0_r in Htimes.
    exists log; split; [exact Hrun |].
    rewrite Htimes; cbn [sample_times flat_map app].
    apply map_ext; intros k; f_equal; lia.
  - rewrite Z.max_l by lia.
    rewrite samples_loop_body, (u32_small (start + 2)) by lia.
    destruct (start + 2 <=? Z.of_nat (length data)) eqn:T;
      [apply Z.leb_le in T; lia |].
    exists []; split; [| destruct (Memomouse.is_oxygen _); reflexivity].
    destruct (Memomouse.is_oxygen _); reflexivity.
Qed.

Lemma samples_status_and_times_witness :
  (exists log : list Memomouse.sample_t,
      Memomouse.uwatec_memomouse_parser_samples_foreach
        (Some {| Memomouse.backend := Memomouse.uwatec_memomouse_parser_backend;
                 Memomouse.parser_data := whole_profile;
                 Memomouse.devtime := 0; Memomouse.systime := 0 |})
        (Some record_samples) []
      = Some (DC_STATUS_SUCCESS, log)
      /\ sample_times log = [20; 40; 60; 80; 100])
  /\ (exists log : list Memomouse.sample_t,
        Memomouse.uwatec_memomouse_parser_samples_foreach
          (Some {| Memomouse.backend := Memomouse.uwatec_memomouse_parser_backend;
                   Memomouse.parser_data := cut_profile;
                   Memomouse.devtime := 0; Memomouse.systime := 0 |})
          (Some record_samples) []
        = Some (DC_STATUS_DATAFORMAT, log)
        /\ sample_times log = [20; 40; 60; 80; 100; 120]).
Proof.
  split.
  - apply (samples_status_and_times
             {| Memomouse.backend := Memomouse.uwatec_memomouse_parser_backend;
                Memomouse.parser_data := whole_profile;
                Memomouse.devtime := 0; Memomouse.systime := 0 |});
      [reflexivity | vm_compute; discriminate | vm_compute; reflexivity].
  - apply (samples_status_and_times
             {| Memomouse.backend := Memomouse.uwatec_memomouse_parser_backend;
                Memomouse.parser_data := cut_profile;
                Memomouse.devtime := 0; Memomouse.systime := 0 |});
      [reflexivity | vm_compute; discriminate | vm_compute; reflexivity].
Defined.

(** X16.  Whatever the record holds, the parse comes to an end, and every
    vendor sample it hands to the callback points at bytes of the record:
    one byte after a third sample, two for an O2 model. *)
Theorem vendor_samples_stay_in_the_record :
  forall (abstract : option Memomouse.parser_t),
    let data := match abstract with
                | Some parser => Memomouse.parser_data parser
                | None => []
                end in
    Z.of_nat (length data) + 2 < 2 ^ 32 ->
    exists (rc : dc_status_t) (log : list Memomouse.sample_t),
      Memomouse.uwatec_memomouse_parser_samples_foreach abstract
        (Some record_samples) []
      = Some (rc, log)
      /\ Forall (vendor_in_record data) log.
Proof.
  intros [parser |] data Hsize;
    unfold Memomouse.uwatec_memomouse_parser_samples_foreach;
    [| exists DC_STATUS_INVALIDARGS, []; split; [reflexivity | constructor]].
  destruct (negb _);
    [exists DC_STATUS_INVALIDARGS, []; split; [reflexivity | constructor] |].
  fold data.
  destruct (Z.of_nat (length data) <? 18);
    [exists DC_STATUS_DATAFORMAT, []; split; [reflexivity | constructor] |].
  cbv zeta.
  pose proof (header_size_range (Memomouse.byte_at data 3)) as Hheader.
  set (start := Memomouse.header_size (Memomouse.byte_at data 3) + 18) in *.
  destruct (Z_le_gt_dec start (Z.of_nat (length data))) as [Hin | Hout].
  - apply (samples_loop_vendors data _ (length data) start 20 []);
      [reflexivity | lia | lia | lia].
  - rewrite samples_loop_body, (u32_small (start + 2)) by lia.
    destruct (start + 2 <=? Z.of_nat (length data)) eqn:T;
      [apply Z.leb_le in T; lia |].
    exists DC_STATUS_SUCCESS, []; split; [reflexivity | constructor].
Qed.

Lemma vendor_samples_stay_in_the_record_witness :
  exists (rc : dc_status_t) (log : list Memomouse.sample_t),
    Memomouse.uwatec_memomouse_parser_samples_foreach
      (Some {| Memomouse.backend := Memomouse.uwatec_memomouse_parser_backend;
               Memomouse.parser_data := cut_profile;
               Memomouse.devtime := 0; Memomouse.systime := 0 |})
      (Some record_samples) []
    = Some (rc, log)
    /\ Forall (vendor_in_record cut_profile) log.
Proof.
  apply (vendor_samples_stay_in_the_record
           (Some {| Memomouse.backend := Memomouse.uwatec_memomouse_parser_backend;
                    Memomouse.parser_data := cut_profile;
                    Memomouse.devtime := 0; Memomouse.systime := 0 |})).
  vm_compute; reflexivity.
Defined.

Lemma byte_at_range (data : list byte) (i : nat) :
  0 <= Memomouse.byte_at data i < 256.
Proof.
  unfold Memomouse.byte_at.
  pose proof (Byte.to_N_bounded (nth i data x00)); lia.
Qed.

Lemma depth_count_range (data : list byte) (off : nat) :
  0 <= Z.shiftr (Z.land (Memomouse.array_uint16_be data off) 0xFFC0) 6 < 1024.
Proof.
  unfold Memomouse.array_uint16_be.
  pose proof (byte_at_range data off); pose proof (byte_at_range data (off + 1)).
  rewrite Z.shiftl_mul_pow2 by lia.
  set (v := Memomouse.byte_at data off * 2 ^ 8 + Memomouse.byte_at data (off + 1)).
  assert (Hv : 0 <= v < 2 ^ 16) by (subst v; lia).
  rewrite Z.shiftr_land; change (Z.shiftr 0xFFC0 6) with (Z.ones 10).
  rewrite Z.land_ones by lia.
  apply Z.mod_pos_bound; lia.
Qed.

Lemma depth_counts_in_range :
  forallb (fun k => within_depth_range (depth_of_count (Z.of_nat k))) (seq 0 1024)
  = true.
Proof. vm_compute; reflexivity. Qed.

Lemma depth_of_count_range (count : Z) :
  0 <= count < 1024 -> within_depth_range (depth_of_count count) = true.
Proof.
  intros H; pose proof depth_counts_in_range as Hall.
  rewrite forallb_forall in Hall.
  rewrite <- (Z2Nat.id count) by lia; apply Hall, in_seq; lia.
Qed.

(** X17.  The maximum depth of a record of 18 bytes or more is one of the
    1024 multiples of 10/64 m that ten bits can count: between 0 m and
    159.84375 m. *)
Theorem maxdepth_is_within_range :
  forall data : list byte,
    18 <= Z.of_nat (length data) ->
    exists d : float,
      Memomouse.uwatec_memomouse_parser_get_field data
        Memomouse.FIELD_TYPE_MAXDEPTH true
      = (DC_STATUS_SUCCESS, Some (Memomouse.value_double d))
      /\ within_depth_range d = true.
Proof.
  intros data Hsize; unfold Memomouse.uwatec_memomouse_parser_get_field.
  destruct (Z.of_nat (length data) <? 18) eqn:E; [apply Z.ltb_lt in E; lia |].
  eexists; split; [reflexivity |].
  apply (depth_of_count_range _ (depth_count_range data 6)).
Qed.

Lemma maxdepth_is_within_range_witness :
  exists d : float,
    Memomouse.uwatec_memomouse_parser_get_field nitrox_record
      Memomouse.FIELD_TYPE_MAXDEPTH true
    = (DC_STATUS_SUCCESS, Some (Memomouse.value_double d))
    /\ within_depth_range d = true.
Proof.
  apply (maxdepth_is_within_range nitrox_record); vm_compute; discriminate.
Defined.
